(** * Grbl stepper core ([archive/stepper_time.c]): segment preparer and
      step-pulse executor.

    The development embeds the C source shallowly:
    - [float] fields are IEEE-754 binary32 values (on the AVR target both
      [float] and [double] are 32 bits wide), computed with the executable
      specification of the Standard Library ([SpecFloat], round to nearest
      even);
    - [uint8_t], [uint32_t] and [int32_t] data are integers of [Z] with the
      wrap-around written out;
    - the module-level globals of the C file form one record, threaded
      explicitly through every function; pointers into the two static arrays
      are optional indices ([None] is [NULL]);
    - a function that dereferences a pointer returns [option]: [None] stands
      for a [NULL] dereference or an index outside its array. *)

From Stdlib Require Import ZArith List Bool Lia.
From Stdlib Require Import Floats.SpecFloat.
Import ListNotations.
Local Open Scope Z_scope.

Set Implicit Arguments.

(** ** Machine integers *)

Definition to_u8 (z : Z) : Z := z mod 256.
Definition to_u32 (z : Z) : Z := z mod 2 ^ 32.
Definition to_i32 (z : Z) : Z := (z + 2 ^ 31) mod 2 ^ 32 - 2 ^ 31.

(** [bit(n)], [bit_true(x,mask)] and [bit_istrue(x,mask)] of nuts_bolts.h. *)
Definition bit (n : Z) : Z := Z.shiftl 1 n.
Definition bit_true (x mask : Z) : Z := Z.lor x mask.
Definition bit_false (x mask : Z) : Z := Z.land x (Z.lnot mask).
Definition bit_istrue (x mask : Z) : bool := negb (Z.land x mask =? 0).

(** ** binary32 arithmetic *)

Module F32.

Definition prec : Z := 24.
Definition emax : Z := 128.

Definition float : Type := spec_float.

Definition add : float -> float -> float := SFadd prec emax.
Definition sub : float -> float -> float := SFsub prec emax.
Definition mul : float -> float -> float := SFmul prec emax.
Definition div : float -> float -> float := SFdiv prec emax.
Definition sqrt : float -> float := SFsqrt prec emax.

Definition ltb : float -> float -> bool := SFltb.
Definition leb : float -> float -> bool := SFleb.
Definition eqb : float -> float -> bool := SFeqb.

Definition is_nan (x : float) : bool :=
  match x with S754_nan => true | _ => false end.

(** Conversion of an integer ([int32_t], [uint32_t] or an integer literal)
    to [float]. *)
Definition of_Z (z : Z) : float := binary_normalize prec emax z 0 false.

Definition zero : float := S754_zero false.
Definition two : float := of_Z 2.
Definition half : float := div (of_Z 1) (of_Z 2).

(** Smallest integer not below [x], for a finite [x]. *)
Definition ceilZ (x : float) : Z :=
  match x with
  | S754_finite s m e =>
      let n := if s then Z.neg m else Z.pos m in
      if 0 <=? e then n * 2 ^ e else - ((- n) / 2 ^ (- e))
  | _ => 0
  end.

(** C's [ceil]: zeros, infinities and NaN are returned as they are; the
    result keeps the sign of the argument. *)
Definition ceil (x : float) : float :=
  match x with
  | S754_finite s m e =>
      if 0 <=? e then x else binary_normalize prec emax (ceilZ x) 0 s
  | _ => x
  end.

(** Integer part of [x], rounded toward zero: the value of a conversion to
    an integer type before it is reduced to the width of the target. *)
Definition truncZ (x : float) : Z :=
  match x with
  | S754_finite s m e =>
      let q := if 0 <=? e then Z.pos m * 2 ^ e else Z.pos m / 2 ^ (- e) in
      if s then - q else q
  | _ => 0
  end.

(** Conversions to [uint8_t] and [uint32_t].  C leaves a conversion whose
    integer part does not fit the target undefined; the model reduces it
    modulo the width, and maps infinities and NaN to 0. *)
Definition to_uint8 (x : float) : Z := to_u8 (truncZ x).
Definition to_uint32 (x : float) : Z := to_u32 (truncZ x).

(** Zeros and finite numbers, as opposed to infinities and NaN. *)
Definition is_finite (x : float) : bool :=
  match x with
  | S754_zero _ | S754_finite _ _ _ => true
  | _ => false
  end.

(** The integer [D] written as [m * 2^e]. *)
Definition scaled (m e D : Z) : Prop :=
  if 0 <=? e then D = m * 2 ^ e else m = D * 2 ^ (- e).

(** [x] is the integer [z], held without rounding. *)
Definition int_val (x : float) (z : Z) : Prop :=
  match x with
  | S754_zero _ => z = 0
  | S754_finite s m e =>
      let n := if s then Z.neg m else Z.pos m in
      if 0 <=? e then z = n * 2 ^ e else n = z * 2 ^ (- e)
  | _ => False
  end.

End F32.

Abbreviation float := F32.float.

Declare Scope f32_scope.
Delimit Scope f32_scope with f32.
Infix "+" := F32.add : f32_scope.
Infix "-" := F32.sub : f32_scope.
Infix "*" := F32.mul : f32_scope.
Infix "/" := F32.div : f32_scope.
Infix "<?" := F32.ltb : f32_scope.
Infix "<=?" := F32.leb : f32_scope.
Infix "=?" := F32.eqb : f32_scope.
Notation "x >? y" := (F32.ltb y x) (only parsing) : f32_scope.

(** ** Constants that the source takes from headers outside this file *)

(** [config.h], the pin map and the AVR register header are not part of the
    sources at hand, so the constants they define are parameters of the
    model.  The two tick rates and the inverse-time multiplier are read as
    floating-point values, the way the preparer uses them. *)
Record config := {
  ISR_TICKS_PER_SECOND : float;
  ACCELERATION_TICKS_PER_SECOND : float;
  INV_TIME_MULTIPLIER : float;
  TICKS_PER_MICROSECOND : Z;
  X_STEP_BIT : Z;
  Y_STEP_BIT : Z;
  Z_STEP_BIT : Z;
  X_DIRECTION_BIT : Z;
  Y_DIRECTION_BIT : Z;
  Z_DIRECTION_BIT : Z;
  STEPPERS_DISABLE_BIT : Z;
  SPINDLE_ENABLE_BIT : Z;
  OCIE2A : Z;
  CS21 : Z;
  BITFLAG_INVERT_ST_ENABLE : Z;
  EXEC_CYCLE_STOP : Z;
  EXEC_ALARM : Z
}.

Definition STEP_MASK (c : config) : Z :=
  Z.lor (Z.lor (bit (X_STEP_BIT c)) (bit (Y_STEP_BIT c))) (bit (Z_STEP_BIT c)).
Definition DIRECTION_MASK (c : config) : Z :=
  Z.lor (Z.lor (bit (X_DIRECTION_BIT c)) (bit (Y_DIRECTION_BIT c)))
        (bit (Z_DIRECTION_BIT c)).

Definition RAMP_NOOP_CRUISE : Z := 0.
Definition RAMP_ACCEL : Z := 1.
Definition RAMP_DECEL : Z := 2.

Definition LOAD_NOOP : Z := 0.
Definition LOAD_SEGMENT : Z := 1.
Definition LOAD_BLOCK : Z := 2.

Definition SEGMENT_NOOP : Z := 0.
Definition SEGMENT_END_OF_BLOCK : Z := bit 0.
Definition RAMP_CHANGE_ACCEL : Z := bit 1.
Definition RAMP_CHANGE_DECEL : Z := bit 2.

Definition MINIMUM_STEPS_PER_SEGMENT : Z := 1.

Definition SEGMENT_BUFFER_SIZE : Z := 6.

(** [#define DT_SEGMENT ACCELERATION_TICKS_PER_SECOND/ISR_TICKS_PER_SECOND].
    The macro has no parentheses, so a product [x*DT_SEGMENT] is the C
    expression [x*ACCELERATION_TICKS_PER_SECOND/ISR_TICKS_PER_SECOND], which
    [mul_DT_SEGMENT] spells out. *)
Definition DT_SEGMENT (c : config) : float :=
  (ACCELERATION_TICKS_PER_SECOND c / ISR_TICKS_PER_SECOND c)%f32.
Definition mul_DT_SEGMENT (c : config) (x : float) : float :=
  (x * ACCELERATION_TICKS_PER_SECOND c / ISR_TICKS_PER_SECOND c)%f32.

(** ** Data *)

Inductive axis := X_AXIS | Y_AXIS | Z_AXIS.

(** An array indexed by the three axes. *)
Record axes := { at_x : Z; at_y : Z; at_z : Z }.

Definition get_axis (a : axis) (v : axes) : Z :=
  match a with X_AXIS => at_x v | Y_AXIS => at_y v | Z_AXIS => at_z v end.
Definition set_axis (a : axis) (z : Z) (v : axes) : axes :=
  match a with
  | X_AXIS => {| at_x := z; at_y := at_y v; at_z := at_z v |}
  | Y_AXIS => {| at_x := at_x v; at_y := z; at_z := at_z v |}
  | Z_AXIS => {| at_x := at_x v; at_y := at_y v; at_z := z |}
  end.

Definition step_bit_of (c : config) (a : axis) : Z :=
  match a with
  | X_AXIS => X_STEP_BIT c | Y_AXIS => Y_STEP_BIT c | Z_AXIS => Z_STEP_BIT c
  end.
Definition direction_bit_of (c : config) (a : axis) : Z :=
  match a with
  | X_AXIS => X_DIRECTION_BIT c
  | Y_AXIS => Y_DIRECTION_BIT c
  | Z_AXIS => Z_DIRECTION_BIT c
  end.

(** Modelled from the spec: [plan_block_t] of planner.h, which is not among
    the sources.  The fields are the attributes of a planned block listed in
    the data model (steps per axis, step event count, direction bits, length
    in millimeters, squared entry and nominal speeds, acceleration). *)
Record plan_block_t := {
  direction_bits : Z;
  steps : axes;
  step_event_count : Z;
  entry_speed_sqr : float;
  nominal_speed_sqr : float;
  millimeters : float;
  block_acceleration : float
}.

Record stepper_t := {
  counter_x : Z;
  counter_y : Z;
  counter_z : Z;
  counter_dist : Z;
  step_count : Z;
  phase_count : Z;
  execute_step : bool;
  step_pulse_time : Z;
  out_bits : Z;
  load_flag : Z
}.

Record st_data_t := {
  dist_per_step : Z;
  step_events_remaining : float;
  accelerate_until : float;
  decelerate_after : float;
  current_rate : float;
  maximum_rate : float;
  exit_rate : float;
  acceleration : float;
  step_per_mm : float
}.

Record st_segment_t := {
  n_step : Z;
  n_phase_tick : Z;
  dist_per_tick : Z;
  st_data_index : Z;
  flag : Z
}.

(** Modelled from the spec: the states of the cycle controller
    ([sys.state]); the header that numbers them is not among the sources. *)
Inductive sys_state :=
  STATE_IDLE | STATE_QUEUED | STATE_CYCLE | STATE_HOLD | STATE_ALARM.

Record system_t := {
  state : sys_state;
  execute : Z;
  auto_start : bool;
  position : axes
}.

Record settings_t := {
  invert_mask : Z;
  flags : Z;
  stepper_idle_lock_time : Z;
  pulse_microseconds : Z
}.

(** The I/O registers the file writes. *)
Record avr_t := {
  STEPPING_PORT : Z;
  STEPPERS_DISABLE_PORT : Z;
  SPINDLE_ENABLE_PORT : Z;
  TIMSK2 : Z;
  TCCR2B : Z;
  TCNT2 : Z;
  TCNT0 : Z;
  TCCR0B : Z
}.

(** ** Field updates

    One function per field that the C code assigns. *)

Definition set_counter_x (v : _) (r : stepper_t) : stepper_t :=
  Build_stepper_t v (counter_y r) (counter_z r) (counter_dist r)
    (step_count r) (phase_count r) (execute_step r) (step_pulse_time r)
    (out_bits r) (load_flag r).
Definition set_counter_y (v : _) (r : stepper_t) : stepper_t :=
  Build_stepper_t (counter_x r) v (counter_z r) (counter_dist r)
    (step_count r) (phase_count r) (execute_step r) (step_pulse_time r)
    (out_bits r) (load_flag r).
Definition set_counter_z (v : _) (r : stepper_t) : stepper_t :=
  Build_stepper_t (counter_x r) (counter_y r) v (counter_dist r)
    (step_count r) (phase_count r) (execute_step r) (step_pulse_time r)
    (out_bits r) (load_flag r).
Definition set_counter_dist (v : _) (r : stepper_t) : stepper_t :=
  Build_stepper_t (counter_x r) (counter_y r) (counter_z r) v (step_count r)
    (phase_count r) (execute_step r) (step_pulse_time r) (out_bits r)
    (load_flag r).
Definition set_step_count (v : _) (r : stepper_t) : stepper_t :=
  Build_stepper_t (counter_x r) (counter_y r) (counter_z r)
    (counter_dist r) v (phase_count r) (execute_step r) (step_pulse_time r)
    (out_bits r) (load_flag r).
Definition set_phase_count (v : _) (r : stepper_t) : stepper_t :=
  Build_stepper_t (counter_x r) (counter_y r) (counter_z r) (counter_dist r)
    (step_count r) v (execute_step r) (step_pulse_time r) (out_bits r)
    (load_flag r).
Definition set_execute_step (v : _) (r : stepper_t) : stepper_t :=
  Build_stepper_t (counter_x r) (counter_y r) (counter_z r) (counter_dist r)
    (step_count r) (phase_count r) v (step_pulse_time r) (out_bits r)
    (load_flag r).
Definition set_step_pulse_time (v : _) (r : stepper_t) : stepper_t :=
  Build_stepper_t (counter_x r) (counter_y r) (counter_z r) (counter_dist r)
    (step_count r) (phase_count r) (execute_step r) v (out_bits r)
    (load_flag r).
Definition set_out_bits (v : _) (r : stepper_t) : stepper_t :=
  Build_stepper_t (counter_x r) (counter_y r) (counter_z r) (counter_dist r)
    (step_count r) (phase_count r) (execute_step r) (step_pulse_time r) v
    (load_flag r).
Definition set_load_flag (v : _) (r : stepper_t) : stepper_t :=
  Build_stepper_t (counter_x r) (counter_y r) (counter_z r) (counter_dist r)
    (step_count r) (phase_count r) (execute_step r) (step_pulse_time r)
    (out_bits r) v.

Definition set_dist_per_step (v : _) (r : st_data_t) : st_data_t :=
  Build_st_data_t v (step_events_remaining r) (accelerate_until r)
    (decelerate_after r) (current_rate r) (maximum_rate r) (exit_rate r)
    (acceleration r) (step_per_mm r).
Definition set_step_events_remaining (v : _) (r : st_data_t) : st_data_t :=
  Build_st_data_t (dist_per_step r) v (accelerate_until r)
    (decelerate_after r) (current_rate r) (maximum_rate r) (exit_rate r)
    (acceleration r) (step_per_mm r).
Definition set_accelerate_until (v : _) (r : st_data_t) : st_data_t :=
  Build_st_data_t (dist_per_step r) (step_events_remaining r) v
    (decelerate_after r) (current_rate r) (maximum_rate r) (exit_rate r)
    (acceleration r) (step_per_mm r).
Definition set_decelerate_after (v : _) (r : st_data_t) : st_data_t :=
  Build_st_data_t (dist_per_step r) (step_events_remaining r)
    (accelerate_until r) v (current_rate r) (maximum_rate r) (exit_rate r)
    (acceleration r) (step_per_mm r).
Definition set_current_rate (v : _) (r : st_data_t) : st_data_t :=
  Build_st_data_t (dist_per_step r) (step_events_remaining r)
    (accelerate_until r) (decelerate_after r) v (maximum_rate r)
    (exit_rate r) (acceleration r) (step_per_mm r).
Definition set_maximum_rate (v : _) (r : st_data_t) : st_data_t :=
  Build_st_data_t (dist_per_step r) (step_events_remaining r)
    (accelerate_until r) (decelerate_after r) (current_rate r) v
    (exit_rate r) (acceleration r) (step_per_mm r).
Definition set_exit_rate (v : _) (r : st_data_t) : st_data_t :=
  Build_st_data_t (dist_per_step r) (step_events_remaining r)
    (accelerate_until r) (decelerate_after r) (current_rate r)
    (maximum_rate r) v (acceleration r) (step_per_mm r).
Definition set_acceleration (v : _) (r : st_data_t) : st_data_t :=
  Build_st_data_t (dist_per_step r) (step_events_remaining r)
    (accelerate_until r) (decelerate_after r) (current_rate r)
    (maximum_rate r) (exit_rate r) v (step_per_mm r).
Definition set_step_per_mm (v : _) (r : st_data_t) : st_data_t :=
  Build_st_data_t (dist_per_step r) (step_events_remaining r)
    (accelerate_until r) (decelerate_after r) (current_rate r)
    (maximum_rate r) (exit_rate r) (acceleration r) v.

Definition set_n_step (v : _) (r : st_segment_t) : st_segment_t :=
  Build_st_segment_t v (n_phase_tick r) (dist_per_tick r) (st_data_index r)
    (flag r).
Definition set_n_phase_tick (v : _) (r : st_segment_t) : st_segment_t :=
  Build_st_segment_t (n_step r) v (dist_per_tick r) (st_data_index r)
    (flag r).
Definition set_dist_per_tick (v : _) (r : st_segment_t) : st_segment_t :=
  Build_st_segment_t (n_step r) (n_phase_tick r) v (st_data_index r) (flag r).
Definition set_st_data_index (v : _) (r : st_segment_t) : st_segment_t :=
  Build_st_segment_t (n_step r) (n_phase_tick r) (dist_per_tick r) v (flag r).
Definition set_flag (v : _) (r : st_segment_t) : st_segment_t :=
  Build_st_segment_t (n_step r) (n_phase_tick r) (dist_per_tick r)
    (st_data_index r) v.

Definition set_state (v : _) (r : system_t) : system_t :=
  Build_system_t v (execute r) (auto_start r) (position r).
Definition set_execute (v : _) (r : system_t) : system_t :=
  Build_system_t (state r) v (auto_start r) (position r).
Definition set_auto_start (v : _) (r : system_t) : system_t :=
  Build_system_t (state r) (execute r) v (position r).
Definition set_position (v : _) (r : system_t) : system_t :=
  Build_system_t (state r) (execute r) (auto_start r) v.

Definition set_STEPPING_PORT (v : _) (r : avr_t) : avr_t :=
  Build_avr_t v (STEPPERS_DISABLE_PORT r) (SPINDLE_ENABLE_PORT r) (TIMSK2 r)
    (TCCR2B r) (TCNT2 r) (TCNT0 r) (TCCR0B r).
Definition set_STEPPERS_DISABLE_PORT (v : _) (r : avr_t) : avr_t :=
  Build_avr_t (STEPPING_PORT r) v (SPINDLE_ENABLE_PORT r) (TIMSK2 r)
    (TCCR2B r) (TCNT2 r) (TCNT0 r) (TCCR0B r).
Definition set_SPINDLE_ENABLE_PORT (v : _) (r : avr_t) : avr_t :=
  Build_avr_t (STEPPING_PORT r) (STEPPERS_DISABLE_PORT r) v (TIMSK2 r)
    (TCCR2B r) (TCNT2 r) (TCNT0 r) (TCCR0B r).
Definition set_TIMSK2 (v : _) (r : avr_t) : avr_t :=
  Build_avr_t (STEPPING_PORT r) (STEPPERS_DISABLE_PORT r)
    (SPINDLE_ENABLE_PORT r) v (TCCR2B r) (TCNT2 r) (TCNT0 r) (TCCR0B r).
Definition set_TCCR2B (v : _) (r : avr_t) : avr_t :=
  Build_avr_t (STEPPING_PORT r) (STEPPERS_DISABLE_PORT r)
    (SPINDLE_ENABLE_PORT r) (TIMSK2 r) v (TCNT2 r) (TCNT0 r) (TCCR0B r).
Definition set_TCNT2 (v : _) (r : avr_t) : avr_t :=
  Build_avr_t (STEPPING_PORT r) (STEPPERS_DISABLE_PORT r)
    (SPINDLE_ENABLE_PORT r) (TIMSK2 r) (TCCR2B r) v (TCNT0 r) (TCCR0B r).
Definition set_TCNT0 (v : _) (r : avr_t) : avr_t :=
  Build_avr_t (STEPPING_PORT r) (STEPPERS_DISABLE_PORT r)
    (SPINDLE_ENABLE_PORT r) (TIMSK2 r) (TCCR2B r) (TCNT2 r) v (TCCR0B r).
Definition set_TCCR0B (v : _) (r : avr_t) : avr_t :=
  Build_avr_t (STEPPING_PORT r) (STEPPERS_DISABLE_PORT r)
    (SPINDLE_ENABLE_PORT r) (TIMSK2 r) (TCCR2B r) (TCNT2 r) (TCNT0 r) v.

Definition get_counter (a : axis) (s : stepper_t) : Z :=
  match a with
  | X_AXIS => counter_x s | Y_AXIS => counter_y s | Z_AXIS => counter_z s
  end.
Definition set_counter (a : axis) (v : Z) (s : stepper_t) : stepper_t :=
  match a with
  | X_AXIS => set_counter_x v s
  | Y_AXIS => set_counter_y v s
  | Z_AXIS => set_counter_z v s
  end.

(** [l[i] = x] on an array held as a list; [None] outside the array. *)
Fixpoint list_set {A : Type} (l : list A) (i : nat) (x : A) : option (list A) :=
  match l, i with
  | [], _ => None
  | _ :: t, O => Some (x :: t)
  | h :: t, S j =>
      match list_set t j x with Some t' => Some (h :: t') | None => None end
  end.

Definition index {A : Type} (l : list A) (i : Z) : option A :=
  if i <? 0 then None else nth_error l (Z.to_nat i).
Definition store {A : Type} (l : list A) (i : Z) (x : A) : option (list A) :=
  if i <? 0 then None else list_set l (Z.to_nat i) x.

Notation "x <- e ;; k" :=
  (match e with Some x => k | None => None end)
  (at level 61, e at next level, right associativity).

(** ** The planner, as the stepper sees it *)

(** Modelled from the spec: the four entry points of the planner that the
    core consumes ([get_current_block], [get_block_by_index],
    [next_block_index], [discard_current_block]); planner.c is not among the
    sources.  A pointer to a block is the block it points to, [None] for
    [NULL]. *)
Record planner_ops (planner : Type) := {
  plan_get_current_block : planner -> option plan_block_t;
  plan_get_block_by_index : planner -> Z -> option plan_block_t;
  plan_next_block_index : planner -> Z -> Z;
  plan_discard_current_block : planner -> planner
}.

(** ** The globals of stepper_time.c *)

Section Globals.
Variable planner : Type.

Record globals := {
  st : stepper_t;
  segment_data : list st_data_t;
  segment_buffer : list st_segment_t;
  segment_buffer_tail : Z;
  segment_buffer_head : Z;
  segment_next_head : Z;
  busy : bool;
  pl_current_block : option plan_block_t;
  st_current_segment : option Z;
  st_current_data : option Z;
  pl_prep_block : option plan_block_t;
  st_prep_data : option Z;
  pl_prep_index : Z;
  st_data_prep_index : Z;
  pl_partial_block_flag : bool;
  sys : system_t;
  settings : settings_t;
  io : avr_t;
  plan : planner
}.

Definition set_st (v : _) (r : globals) : globals :=
  Build_globals v (segment_data r) (segment_buffer r)
    (segment_buffer_tail r) (segment_buffer_head r) (segment_next_head r)
    (busy r) (pl_current_block r) (st_current_segment r) (st_current_data r)
    (pl_prep_block r) (st_prep_data r) (pl_prep_index r)
    (st_data_prep_index r) (pl_partial_block_flag r) (sys r) (settings r)
    (io r) (plan r).
Definition set_segment_data (v : _) (r : globals) : globals :=
  Build_globals (st r) v (segment_buffer r) (segment_buffer_tail r)
    (segment_buffer_head r) (segment_next_head r) (busy r)
    (pl_current_block r) (st_current_segment r) (st_current_data r)
    (pl_prep_block r) (st_prep_data r) (pl_prep_index r)
    (st_data_prep_index r) (pl_partial_block_flag r) (sys r) (settings r)
    (io r) (plan r).
Definition set_segment_buffer (v : _) (r : globals) : globals :=
  Build_globals (st r) (segment_data r) v (segment_buffer_tail r)
    (segment_buffer_head r) (segment_next_head r) (busy r)
    (pl_current_block r) (st_current_segment r) (st_current_data r)
    (pl_prep_block r) (st_prep_data r) (pl_prep_index r)
    (st_data_prep_index r) (pl_partial_block_flag r) (sys r) (settings r)
    (io r) (plan r).
Definition set_segment_buffer_tail (v : _) (r : globals) : globals :=
  Build_globals (st r) (segment_data r) (segment_buffer r) v
    (segment_buffer_head r) (segment_next_head r) (busy r)
    (pl_current_block r) (st_current_segment r) (st_current_data r)
    (pl_prep_block r) (st_prep_data r) (pl_prep_index r)
    (st_data_prep_index r) (pl_partial_block_flag r) (sys r) (settings r)
    (io r) (plan r).
Definition set_segment_buffer_head (v : _) (r : globals) : globals :=
  Build_globals (st r) (segment_data r) (segment_buffer r)
    (segment_buffer_tail r) v (segment_next_head r) (busy r)
    (pl_current_block r) (st_current_segment r) (st_current_data r)
    (pl_prep_block r) (st_prep_data r) (pl_prep_index r)
    (st_data_prep_index r) (pl_partial_block_flag r) (sys r) (settings r)
    (io r) (plan r).
Definition set_segment_next_head (v : _) (r : globals) : globals :=
  Build_globals (st r) (segment_data r) (segment_buffer r)
    (segment_buffer_tail r) (segment_buffer_head r) v (busy r)
    (pl_current_block r) (st_current_segment r) (st_current_data r)
    (pl_prep_block r) (st_prep_data r) (pl_prep_index r)
    (st_data_prep_index r) (pl_partial_block_flag r) (sys r) (settings r)
    (io r) (plan r).
Definition set_busy (v : _) (r : globals) : globals :=
  Build_globals (st r) (segment_data r) (segment_buffer r)
    (segment_buffer_tail r) (segment_buffer_head r) (segment_next_head r) v
    (pl_current_block r) (st_current_segment r) (st_current_data r)
    (pl_prep_block r) (st_prep_data r) (pl_prep_index r)
    (st_data_prep_index r) (pl_partial_block_flag r) (sys r) (settings r)
    (io r) (plan r).
Definition set_pl_current_block (v : _) (r : globals) : globals :=
  Build_globals (st r) (segment_data r) (segment_buffer r)
    (segment_buffer_tail r) (segment_buffer_head r) (segment_next_head r)
    (busy r) v (st_current_segment r) (st_current_data r) (pl_prep_block r)
    (st_prep_data r) (pl_prep_index r) (st_data_prep_index r)
    (pl_partial_block_flag r) (sys r) (settings r) (io r) (plan r).
Definition set_st_current_segment (v : _) (r : globals) : globals :=
  Build_globals (st r) (segment_data r) (segment_buffer r)
    (segment_buffer_tail r) (segment_buffer_head r) (segment_next_head r)
    (busy r) (pl_current_block r) v (st_current_data r) (pl_prep_block r)
    (st_prep_data r) (pl_prep_index r) (st_data_prep_index r)
    (pl_partial_block_flag r) (sys r) (settings r) (io r) (plan r).
Definition set_st_current_data (v : _) (r : globals) : globals :=
  Build_globals (st r) (segment_data r) (segment_buffer r)
    (segment_buffer_tail r) (segment_buffer_head r) (segment_next_head r)
    (busy r) (pl_current_block r) (st_current_segment r) v (pl_prep_block r)
    (st_prep_data r) (pl_prep_index r) (st_data_prep_index r)
    (pl_partial_block_flag r) (sys r) (settings r) (io r) (plan r).
Definition set_pl_prep_block (v : _) (r : globals) : globals :=
  Build_globals (st r) (segment_data r) (segment_buffer r)
    (segment_buffer_tail r) (segment_buffer_head r) (segment_next_head r)
    (busy r) (pl_current_block r) (st_current_segment r)
    (st_current_data r) v (st_prep_data r) (pl_prep_index r)
    (st_data_prep_index r) (pl_partial_block_flag r) (sys r) (settings r)
    (io r) (plan r).
Definition set_st_prep_data (v : _) (r : globals) : globals :=
  Build_globals (st r) (segment_data r) (segment_buffer r)
    (segment_buffer_tail r) (segment_buffer_head r) (segment_next_head r)
    (busy r) (pl_current_block r) (st_current_segment r) (st_current_data r)
    (pl_prep_block r) v (pl_prep_index r) (st_data_prep_index r)
    (pl_partial_block_flag r) (sys r) (settings r) (io r) (plan r).
Definition set_pl_prep_index (v : _) (r : globals) : globals :=
  Build_globals (st r) (segment_data r) (segment_buffer r)
    (segment_buffer_tail r) (segment_buffer_head r) (segment_next_head r)
    (busy r) (pl_current_block r) (st_current_segment r) (st_current_data r)
    (pl_prep_block r) (st_prep_data r) v (st_data_prep_index r)
    (pl_partial_block_flag r) (sys r) (settings r) (io r) (plan r).
Definition set_st_data_prep_index (v : _) (r : globals) : globals :=
  Build_globals (st r) (segment_data r) (segment_buffer r)
    (segment_buffer_tail r) (segment_buffer_head r) (segment_next_head r)
    (busy r) (pl_current_block r) (st_current_segment r) (st_current_data r)
    (pl_prep_block r) (st_prep_data r) (pl_prep_index r) v
    (pl_partial_block_flag r) (sys r) (settings r) (io r) (plan r).
Definition set_pl_partial_block_flag (v : _) (r : globals) : globals :=
  Build_globals (st r) (segment_data r) (segment_buffer r)
    (segment_buffer_tail r) (segment_buffer_head r) (segment_next_head r)
    (busy r) (pl_current_block r) (st_current_segment r) (st_current_data r)
    (pl_prep_block r) (st_prep_data r) (pl_prep_index r)
    (st_data_prep_index r) v (sys r) (settings r) (io r) (plan r).
Definition set_sys (v : _) (r : globals) : globals :=
  Build_globals (st r) (segment_data r) (segment_buffer r)
    (segment_buffer_tail r) (segment_buffer_head r) (segment_next_head r)
    (busy r) (pl_current_block r) (st_current_segment r) (st_current_data r)
    (pl_prep_block r) (st_prep_data r) (pl_prep_index r)
    (st_data_prep_index r) (pl_partial_block_flag r) v (settings r) (io r)
    (plan r).
Definition set_settings (v : _) (r : globals) : globals :=
  Build_globals (st r) (segment_data r) (segment_buffer r)
    (segment_buffer_tail r) (segment_buffer_head r) (segment_next_head r)
    (busy r) (pl_current_block r) (st_current_segment r) (st_current_data r)
    (pl_prep_block r) (st_prep_data r) (pl_prep_index r)
    (st_data_prep_index r) (pl_partial_block_flag r) (sys r) v (io r)
    (plan r).
Definition set_io (v : _) (r : globals) : globals :=
  Build_globals (st r) (segment_data r) (segment_buffer r)
    (segment_buffer_tail r) (segment_buffer_head r) (segment_next_head r)
    (busy r) (pl_current_block r) (st_current_segment r) (st_current_data r)
    (pl_prep_block r) (st_prep_data r) (pl_prep_index r)
    (st_data_prep_index r) (pl_partial_block_flag r) (sys r) (settings r) v
    (plan r).
Definition set_plan (v : _) (r : globals) : globals :=
  Build_globals (st r) (segment_data r) (segment_buffer r)
    (segment_buffer_tail r) (segment_buffer_head r) (segment_next_head r)
    (busy r) (pl_current_block r) (st_current_segment r) (st_current_data r)
    (pl_prep_block r) (st_prep_data r) (pl_prep_index r)
    (st_data_prep_index r) (pl_partial_block_flag r) (sys r) (settings r)
    (io r) v.

End Globals.

Arguments Build_globals {planner}.

(** ** The segment preparer: computations on one shared-data slot *)

Section Preparer.
Variable cfg : config.

Local Open Scope f32_scope.

(** [0.5*DT_SEGMENT*DT_SEGMENT] after macro expansion. *)
Definition half_DT_SEGMENT_sqr : float :=
  F32.half * ACCELERATION_TICKS_PER_SECOND cfg / ISR_TICKS_PER_SECOND cfg
  * ACCELERATION_TICKS_PER_SECOND cfg / ISR_TICKS_PER_SECOND cfg.

(** Lines 523-526: a replanned block takes over the step data of the slot
    prepared last. *)
Definition prep_partial_block_data (last : st_data_t) (d : st_data_t)
  : st_data_t :=
  let d := set_step_events_remaining (step_events_remaining last) d in
  let d := set_dist_per_step (dist_per_step last) d in
  let d := set_step_per_mm (step_per_mm last) d in
  set_acceleration (acceleration last) d.

(** Lines 537-540: step data of a new planner block. *)
Definition prep_new_block_data (b : plan_block_t) (d : st_data_t)
  : st_data_t :=
  let d := set_step_events_remaining (F32.of_Z (step_event_count b)) d in
  let d := set_step_per_mm
             (F32.of_Z (step_event_count b) / millimeters b) d in
  let d := set_dist_per_step
             (F32.to_uint32
                (F32.ceil (INV_TIME_MULTIPLIER cfg / step_per_mm d))) d in
  set_acceleration (step_per_mm d * block_acceleration b) d.

(** Lines 545-556: entry rate, and exit speed from the next planner block. *)
Definition prep_exit_speed_sqr (next : option plan_block_t) : float :=
  match next with
  | Some nb => entry_speed_sqr nb
  | None => F32.zero
  end.

Definition prep_rates (b : plan_block_t) (next : option plan_block_t)
    (d : st_data_t) : st_data_t :=
  let d := set_current_rate
             (step_per_mm d * F32.sqrt (entry_speed_sqr b)) d in
  match next with
  | Some nb =>
      set_exit_rate (step_per_mm d * F32.sqrt (prep_exit_speed_sqr next)) d
  | None => set_exit_rate F32.zero d
  end.

(** Lines 560-597: the velocity profile, in millimeters. *)
Definition prep_velocity_profile (b : plan_block_t) (exit_speed_sqr : float)
    (d : st_data_t) : st_data_t :=
  let d := set_accelerate_until (millimeters b) d in
  if entry_speed_sqr b =? nominal_speed_sqr b then
    let d := set_maximum_rate (F32.sqrt (nominal_speed_sqr b)) d in
    let d := set_accelerate_until (millimeters b) d in
    if exit_speed_sqr =? nominal_speed_sqr b then
      set_decelerate_after F32.zero d
    else
      set_decelerate_after
        ((nominal_speed_sqr b - exit_speed_sqr)
         / (F32.two * block_acceleration b)) d
  else if exit_speed_sqr =? nominal_speed_sqr b then
    let d := set_maximum_rate (F32.sqrt (nominal_speed_sqr b)) d in
    let d := set_decelerate_after F32.zero d in
    set_accelerate_until
      (accelerate_until d
       - (nominal_speed_sqr b - entry_speed_sqr b)
         / (F32.two * block_acceleration b)) d
  else
    let intersection_dist :=
      F32.half * (millimeters b
                  + (entry_speed_sqr b - exit_speed_sqr)
                    / (F32.two * block_acceleration b)) in
    if intersection_dist >? F32.zero then
      if intersection_dist <? millimeters b then
        let d := set_decelerate_after
                   ((nominal_speed_sqr b - exit_speed_sqr)
                    / (F32.two * block_acceleration b)) d in
        if decelerate_after d <? intersection_dist then
          let d := set_maximum_rate (F32.sqrt (nominal_speed_sqr b)) d in
          set_accelerate_until
            (accelerate_until d
             - (nominal_speed_sqr b - entry_speed_sqr b)
               / (F32.two * block_acceleration b)) d
        else
          let d := set_decelerate_after intersection_dist d in
          let d := set_maximum_rate
                     (F32.sqrt (F32.two * block_acceleration b
                                * decelerate_after d + exit_speed_sqr)) d in
          set_accelerate_until (accelerate_until d - decelerate_after d) d
      else
        let d := set_maximum_rate (F32.sqrt (entry_speed_sqr b)) d in
        set_decelerate_after (millimeters b) d
    else
      let d := set_maximum_rate (F32.sqrt exit_speed_sqr) d in
      let d := set_decelerate_after F32.zero d in
      set_accelerate_until F32.zero d.

(** Lines 615-617: the profile converted to steps. *)
Definition prep_profile_in_steps (d : st_data_t) : st_data_t :=
  let d := set_maximum_rate (maximum_rate d * step_per_mm d) d in
  let d := set_accelerate_until (accelerate_until d * step_per_mm d) d in
  set_decelerate_after (decelerate_after d * step_per_mm d) d.

(** Lines 516-617 on the slot of the block being loaded: [last] is the slot
    prepared before when [pl_partial_block_flag] is set. *)
Definition prep_block_data (b : plan_block_t) (next : option plan_block_t)
    (last : option st_data_t) (d : st_data_t) : st_data_t :=
  let d := match last with
           | Some l => prep_partial_block_data l d
           | None => prep_new_block_data b d
           end in
  let d := prep_rates b next d in
  let d := prep_velocity_profile b (prep_exit_speed_sqr next) d in
  prep_profile_in_steps d.

(** The locals of one round of the loop, after line 700. *)
Record prep_locals := {
  steps_remaining : float;
  dt : float;
  prep_data : st_data_t
}.

(** Lines 628-658: the first part of a segment. *)
Definition prep_segment_begin (d : st_data_t) : prep_locals :=
  let steps_remaining := step_events_remaining d in
  let dt := DT_SEGMENT cfg in
  if steps_remaining >? accelerate_until d then
    let steps_remaining :=
      steps_remaining
      - (mul_DT_SEGMENT cfg (current_rate d)
         + acceleration d * half_DT_SEGMENT_sqr) in
    if steps_remaining <? accelerate_until d then
      let steps_remaining := accelerate_until d in
      let dt := F32.two * (step_events_remaining d - steps_remaining)
                / (current_rate d + maximum_rate d) in
      Build_prep_locals steps_remaining dt
        (set_current_rate (maximum_rate d) d)
    else
      Build_prep_locals steps_remaining dt
        (set_current_rate
           (current_rate d + mul_DT_SEGMENT cfg (acceleration d)) d)
  else if steps_remaining <=? decelerate_after d then
    let steps_remaining :=
      steps_remaining
      - (mul_DT_SEGMENT cfg (current_rate d)
         - acceleration d * half_DT_SEGMENT_sqr) in
    if steps_remaining >? F32.zero then
      Build_prep_locals steps_remaining dt
        (set_current_rate
           (current_rate d - mul_DT_SEGMENT cfg (acceleration d)) d)
    else
      let dt := F32.two * step_events_remaining d
                / (current_rate d + exit_rate d) in
      Build_prep_locals F32.zero dt d
  else
    let steps_remaining :=
      steps_remaining - mul_DT_SEGMENT cfg (maximum_rate d) in
    if steps_remaining <? decelerate_after d then
      let steps_remaining := decelerate_after d in
      let dt := (step_events_remaining d - steps_remaining)
                / maximum_rate d in
      Build_prep_locals steps_remaining dt d
    else
      Build_prep_locals steps_remaining dt d.

(** Lines 669-679: the remainder of an incomplete segment, cruising. *)
Definition prep_fill_cruise (l : prep_locals) : prep_locals :=
  let d := prep_data l in
  if steps_remaining l >? decelerate_after d then
    let last_steps_remaining := steps_remaining l in
    let steps_remaining :=
      steps_remaining l - current_rate d * (DT_SEGMENT cfg - dt l) in
    if steps_remaining <? decelerate_after d then
      let steps_remaining := decelerate_after d in
      Build_prep_locals steps_remaining
        (dt l + (last_steps_remaining - steps_remaining) / maximum_rate d) d
    else
      Build_prep_locals steps_remaining (DT_SEGMENT cfg) d
  else l.

(** Lines 682-697: the remainder of an incomplete segment, decelerating. *)
Definition prep_fill_decel (l : prep_locals) : prep_locals :=
  let d := prep_data l in
  if steps_remaining l >? F32.zero then
    if steps_remaining l <=? decelerate_after d then
      let last_steps_remaining := steps_remaining l in
      let dt_remainder := DT_SEGMENT cfg - dt l in
      let steps_remaining :=
        steps_remaining l
        - dt_remainder
          * (current_rate d - F32.half * acceleration d * dt_remainder) in
      if steps_remaining >? F32.zero then
        Build_prep_locals steps_remaining (DT_SEGMENT cfg)
          (set_current_rate
             (current_rate d - acceleration d * dt_remainder) d)
      else
        Build_prep_locals F32.zero
          (dt l + F32.two * last_steps_remaining
                  / (current_rate d + exit_rate d)) d
    else l
  else l.

(** Lines 664-700. *)
Definition prep_segment_fill (l : prep_locals) : prep_locals :=
  if dt l <? DT_SEGMENT cfg then
    if steps_remaining l >? F32.zero then
      prep_fill_decel (prep_fill_cruise l)
    else l
  else l.

(** The locals when the segment is emitted. *)
Definition prep_segment_locals (d : st_data_t) : prep_locals :=
  prep_segment_fill (prep_segment_begin d).

(** Line 714: the test that tells the last segment of a block from the
    others. *)
Definition prep_end_of_block (d : st_data_t) : bool :=
  negb (steps_remaining (prep_segment_locals d) >? F32.zero).

(** Lines 711-730, on the fields of the segment: [d] is the slot before the
    segment is computed. *)
Definition prep_segment_emit (d : st_data_t) (seg : st_segment_t)
  : st_segment_t :=
  let l := prep_segment_locals d in
  let seg := set_dist_per_tick
               (F32.to_uint32
                  (F32.ceil
                     ((step_events_remaining d - steps_remaining l) / dt l
                      * (INV_TIME_MULTIPLIER cfg
                         / ISR_TICKS_PER_SECOND cfg)))) seg in
  if steps_remaining l >? F32.zero then
    let seg := set_n_step
                 (F32.to_uint8
                    (F32.ceil (step_events_remaining d)
                     - F32.ceil (steps_remaining l))) seg in
    set_n_phase_tick
      (F32.to_uint8
         (F32.ceil
            ((F32.ceil (steps_remaining l) - steps_remaining l)
             * F32.of_Z (dist_per_step (prep_data l))))) seg
  else
    let seg := set_n_step
                 (F32.to_uint8 (F32.ceil (step_events_remaining d))) seg in
    let seg := set_n_phase_tick 0%Z seg in
    set_flag (Z.lor (flag seg) SEGMENT_END_OF_BLOCK) seg.

(** Line 733: the slot after the segment. *)
Definition prep_segment_data (d : st_data_t) : st_data_t :=
  let l := prep_segment_locals d in
  set_step_events_remaining (steps_remaining l) (prep_data l).

End Preparer.

(** ** The functions of stepper_time.c *)

Section Stepper.
Variable cfg : config.
Variable planner : Type.
Variable pl : planner_ops planner.

Local Abbreviation globals := (globals planner).

Definition upd_st (f : stepper_t -> stepper_t) (g : globals) : globals :=
  set_st (f (st g)) g.
Definition upd_sys (f : system_t -> system_t) (g : globals) : globals :=
  set_sys (f (sys g)) g.
Definition upd_io (f : avr_t -> avr_t) (g : globals) : globals :=
  set_io (f (io g)) g.

(** [st_wake_up]. *)
Definition st_wake_up (g : globals) : globals :=
  let g :=
    if bit_istrue (flags (settings g)) (BITFLAG_INVERT_ST_ENABLE cfg) then
      upd_io (fun r => set_STEPPERS_DISABLE_PORT
                (bit_true (STEPPERS_DISABLE_PORT r)
                          (bit (STEPPERS_DISABLE_BIT cfg))) r) g
    else
      upd_io (fun r => set_STEPPERS_DISABLE_PORT
                (bit_false (STEPPERS_DISABLE_PORT r)
                           (bit (STEPPERS_DISABLE_BIT cfg))) r) g in
  match state (sys g) with
  | STATE_CYCLE =>
      let g := upd_st (set_out_bits (invert_mask (settings g))) g in
      let g := upd_st (set_step_pulse_time
                 (to_u8 (- Z.shiftr ((pulse_microseconds (settings g) - 2)
                                     * TICKS_PER_MICROSECOND cfg) 3))) g in
      let g := upd_st (set_execute_step false) g in
      let g := upd_st (set_load_flag LOAD_BLOCK) g in
      let g := upd_io (set_TCNT2 0) g in
      let g := upd_io (fun r => set_TIMSK2
                         (bit_true (TIMSK2 r) (bit (OCIE2A cfg))) r) g in
      upd_io (set_TCCR2B (bit (CS21 cfg))) g
  | _ => g
  end.

(** [st_go_idle].  [delay_ms] only lets time pass. *)
Definition st_go_idle (g : globals) : globals :=
  let g := upd_io (fun r => set_TIMSK2
                     (bit_false (TIMSK2 r) (bit (OCIE2A cfg))) r) g in
  let g := upd_io (set_TCCR2B 0) g in
  let g := set_busy false g in
  if negb (stepper_idle_lock_time (settings g) =? 255)
     || bit_istrue (execute (sys g)) (EXEC_ALARM cfg)
  then
    if bit_istrue (flags (settings g)) (BITFLAG_INVERT_ST_ENABLE cfg) then
      upd_io (fun r => set_STEPPERS_DISABLE_PORT
                (bit_false (STEPPERS_DISABLE_PORT r)
                           (bit (STEPPERS_DISABLE_BIT cfg))) r) g
    else
      upd_io (fun r => set_STEPPERS_DISABLE_PORT
                (bit_true (STEPPERS_DISABLE_PORT r)
                          (bit (STEPPERS_DISABLE_BIT cfg))) r) g
  else g.

(** *** The stepper driver interrupt *)

(** Lines 223-228: the step flagged by the previous tick is put on the
    port. *)
Definition isr_pulse (g : globals) : globals :=
  if execute_step (st g) then
    let g := upd_st (set_execute_step false) g in
    let g := upd_io (fun r => set_STEPPING_PORT
               (Z.lor (Z.land (STEPPING_PORT r)
                              (Z.lnot (Z.lor (DIRECTION_MASK cfg)
                                             (STEP_MASK cfg))))
                      (out_bits (st g))) r) g in
    let g := upd_io (set_TCNT0 (step_pulse_time (st g))) g in
    upd_io (set_TCCR0B (bit (CS21 cfg))) g
  else g.

(** Lines 246-261: a segment that starts a planner block. *)
Definition isr_load_block (g : globals) : option globals :=
  let g := set_pl_current_block (plan_get_current_block pl (plan g)) g in
  seg <- index (segment_buffer g) (segment_buffer_tail g) ;;
  let g := set_st_current_data (Some (st_data_index seg)) g in
  b <- pl_current_block g ;;
  let g := upd_st (set_out_bits
             (Z.lxor (direction_bits b) (invert_mask (settings g)))) g in
  let g := upd_st (set_execute_step true) g in
  let g := upd_st (set_counter_x (Z.shiftr (step_event_count b) 1)) g in
  let g := upd_st (set_counter_y (counter_x (st g))) g in
  let g := upd_st (set_counter_z (counter_x (st g))) g in
  i <- st_current_data g ;;
  d <- index (segment_data g) i ;;
  Some (upd_st (set_counter_dist (to_i32 (dist_per_step d))) g).

(** The load phase either goes on with the tick or leaves the interrupt. *)
Inductive isr_load := Proceed (g : globals) | Leave (g : globals).

(** Lines 235-272. *)
Definition isr_load_segment (g : globals) : option isr_load :=
  if negb (load_flag (st g) =? LOAD_NOOP) then
    if negb (segment_buffer_head g =? segment_buffer_tail g) then
      let g := set_st_current_segment (Some (segment_buffer_tail g)) g in
      i <- st_current_segment g ;;
      seg <- index (segment_buffer g) i ;;
      let g := upd_st (set_step_count (n_step seg)) g in
      g <- (if load_flag (st g) =? LOAD_BLOCK then isr_load_block g
            else Some g) ;;
      Some (Proceed (upd_st (set_load_flag LOAD_NOOP) g))
    else
      let g := st_go_idle g in
      Some (Leave (upd_sys (fun s => set_execute
                     (bit_true (execute s) (EXEC_CYCLE_STOP cfg)) s) g))
  else Some (Proceed g).

(** Lines 286-292 (and the same for Y and Z): one axis of the Bresenham
    line tracer. *)
Definition isr_bresenham_axis (a : axis) (b : plan_block_t) (g : globals)
  : globals :=
  let g := upd_st (fun s => set_counter a
             (to_i32 (get_counter a s - get_axis a (steps b))) s) g in
  if get_counter a (st g) <? 0 then
    let g := upd_st (fun s => set_out_bits
               (to_u8 (Z.lor (out_bits s) (bit (step_bit_of cfg a)))) s) g in
    let g := upd_st (fun s => set_counter a
               (to_i32 (get_counter a s + step_event_count b)) s) g in
    if negb (Z.land (out_bits (st g)) (bit (direction_bit_of cfg a)) =? 0)
    then upd_sys (fun s => set_position
           (set_axis a (to_i32 (get_axis a (position s) - 1)) (position s))
           s) g
    else upd_sys (fun s => set_position
           (set_axis a (to_i32 (get_axis a (position s) + 1)) (position s))
           s) g
  else g.

(** Lines 280-311: one Bresenham step event of block [b], with the shared
    data [d] of the block. *)
Definition isr_step_event (b : plan_block_t) (d : st_data_t) (g : globals)
  : globals :=
  let g := upd_st (fun s => set_counter_dist
             (to_i32 (counter_dist s + dist_per_step d)) s) g in
  let g := upd_st (set_out_bits (direction_bits b)) g in
  let g := upd_st (set_execute_step true) g in
  let g := isr_bresenham_axis X_AXIS b g in
  let g := isr_bresenham_axis Y_AXIS b g in
  let g := isr_bresenham_axis Z_AXIS b g in
  let g := upd_st (fun s => set_step_count (to_u8 (step_count s - 1)) s) g in
  upd_st (fun s => set_out_bits
            (Z.lxor (out_bits s) (invert_mask (settings g))) s) g.

(** Lines 275-313. *)
Definition isr_inverse_time (g : globals) : option globals :=
  i <- st_current_segment g ;;
  seg <- index (segment_buffer g) i ;;
  let g := upd_st (fun s => set_counter_dist
             (to_i32 (counter_dist s - dist_per_tick seg)) s) g in
  if counter_dist (st g) <? 0 then
    if step_count (st g) >? 0 then
      j <- st_current_data g ;;
      d <- index (segment_data g) j ;;
      b <- pl_current_block g ;;
      Some (isr_step_event b d g)
    else Some g
  else Some g.

(** Lines 315-330. *)
Definition isr_segment_complete (g : globals) : option globals :=
  if step_count (st g) =? 0 then
    g <- (if phase_count (st g) =? 0 then
            i <- st_current_segment g ;;
            seg <- index (segment_buffer g) i ;;
            let g :=
              if negb (Z.land (flag seg) SEGMENT_END_OF_BLOCK =? 0) then
                let g := set_plan
                           (plan_discard_current_block pl (plan g)) g in
                upd_st (set_load_flag LOAD_BLOCK) g
              else upd_st (set_load_flag LOAD_SEGMENT) g in
            let g := set_segment_buffer_tail
                       (to_u8 (segment_buffer_tail g + 1)) g in
            Some (if segment_buffer_tail g =? SEGMENT_BUFFER_SIZE
                  then set_segment_buffer_tail 0 g else g)
          else Some g) ;;
    Some (upd_st (fun s => set_phase_count (to_u8 (phase_count s - 1)) s) g)
  else Some g.

(** [ISR(TIMER2_COMPA_vect)]. *)
Definition TIMER2_COMPA_vect (g : globals) : option globals :=
  if busy g then Some g else
  let g := isr_pulse g in
  let g := set_busy true g in
  r <- isr_load_segment g ;;
  match r with
  | Leave g => Some g
  | Proceed g =>
      g <- isr_inverse_time g ;;
      g <- isr_segment_complete g ;;
      Some (set_busy false g)
  end.

(** [ISR(TIMER0_OVF_vect)]. *)
Definition TIMER0_OVF_vect (g : globals) : globals :=
  let g := upd_io (fun r => set_STEPPING_PORT
             (Z.lor (Z.land (STEPPING_PORT r) (Z.lnot (STEP_MASK cfg)))
                    (Z.land (invert_mask (settings g)) (STEP_MASK cfg))) r)
             g in
  upd_io (set_TCCR0B 0) g.

(** [st_reset]. *)
Definition st_reset (g : globals) : globals :=
  let g := set_st (Build_stepper_t 0 0 0 0 0 0 false 0 0 0) g in
  let g := upd_st (set_load_flag LOAD_BLOCK) g in
  let g := set_busy false g in
  let g := set_pl_current_block None g in
  let g := set_pl_prep_block None g in
  let g := set_pl_prep_index 0 g in
  let g := set_st_data_prep_index 0 g in
  let g := set_segment_buffer_tail 0 g in
  let g := set_segment_buffer_head 0 g in
  let g := set_segment_next_head 1 g in
  set_pl_partial_block_flag false g.

(** [st_cycle_reinitialize]: all that is not commented out. *)
Definition st_cycle_reinitialize (g : globals) : globals :=
  upd_sys (set_state STATE_IDLE) g.

(** [st_feed_hold]. *)
Definition st_feed_hold (g : globals) : globals :=
  match state (sys g) with
  | STATE_CYCLE =>
      let g := upd_sys (set_state STATE_HOLD) g in
      upd_sys (set_auto_start false) g
  | _ => g
  end.

(** *** [st_prep_buffer] *)

Definition toggle_spindle_enable (g : globals) : globals :=
  upd_io (fun r => set_SPINDLE_ENABLE_PORT
            (Z.lxor (SPINDLE_ENABLE_PORT r) (bit (SPINDLE_ENABLE_BIT cfg))) r)
         g.

(** A round of the loop either reaches its end or returns from the
    function. *)
Inductive prep_round := Continue (g : globals) | Return (g : globals).

(** Lines 506-619: a new planner block is fetched when none is being
    prepared. *)
Definition prep_load_block (g : globals) : option prep_round :=
  match pl_prep_block g with
  | Some _ => Some (Continue g)
  | None =>
      let g := set_pl_prep_block
                 (plan_get_block_by_index pl (plan g) (pl_prep_index g)) g in
      match pl_prep_block g with
      | None => Some (Return g)
      | Some b =>
          let g := toggle_spindle_enable g in
          let g := set_st_data_prep_index
                     (to_u8 (st_data_prep_index g + 1)) g in
          let g := if st_data_prep_index g =? SEGMENT_BUFFER_SIZE - 1
                   then set_st_data_prep_index 0 g else g in
          last <- (if pl_partial_block_flag g then
                     i <- st_prep_data g ;;
                     l <- index (segment_data g) i ;;
                     Some (Some l)
                   else Some None) ;;
          let g := set_st_prep_data (Some (st_data_prep_index g)) g in
          let g := set_pl_partial_block_flag false g in
          j <- st_prep_data g ;;
          d <- index (segment_data g) j ;;
          let next := plan_get_block_by_index pl (plan g)
                        (plan_next_block_index pl (plan g)
                           (pl_prep_index g)) in
          sd <- store (segment_data g) j
                  (prep_block_data cfg b next last d) ;;
          Some (Continue (set_segment_data sd g))
      end
  end.

(** Lines 621-741: one segment is computed from the slot of the block and
    published. *)
Definition prep_segment (g : globals) : option globals :=
  let h := segment_buffer_head g in
  seg <- index (segment_buffer g) h ;;
  let seg := set_st_data_index (st_data_prep_index g) seg in
  j <- st_prep_data g ;;
  d <- index (segment_data g) j ;;
  let seg := prep_segment_emit cfg d seg in
  let g := if prep_end_of_block cfg d then
             let g := set_pl_prep_index
                        (plan_next_block_index pl (plan g) (pl_prep_index g))
                        g in
             set_pl_prep_block None g
           else g in
  sb <- store (segment_buffer g) h seg ;;
  let g := set_segment_buffer sb g in
  sd <- store (segment_data g) j (prep_segment_data cfg d) ;;
  let g := set_segment_data sd g in
  let g := set_segment_buffer_head (segment_next_head g) g in
  let g := set_segment_next_head (to_u8 (segment_next_head g + 1)) g in
  let g := if segment_next_head g =? SEGMENT_BUFFER_SIZE
           then set_segment_next_head 0 g else g in
  Some (toggle_spindle_enable g).

(** The body of the [while] loop. *)
Definition st_prep_round (g : globals) : option prep_round :=
  seg <- index (segment_buffer g) (segment_buffer_head g) ;;
  sb <- store (segment_buffer g) (segment_buffer_head g)
          (set_flag SEGMENT_NOOP seg) ;;
  let g := set_segment_buffer sb g in
  r <- prep_load_block g ;;
  match r with
  | Return g => Some (Return g)
  | Continue g => g <- prep_segment g ;; Some (Continue g)
  end.

(** The [while] loop, for at most [n] rounds. *)
Fixpoint st_prep_loop (n : nat) (g : globals) : option globals :=
  if segment_buffer_tail g =? segment_next_head g then Some g
  else
    match n with
    | O => None
    | S n' =>
        r <- st_prep_round g ;;
        match r with
        | Return g => Some g
        | Continue g => st_prep_loop n' g
        end
    end.

(** [st_prep_buffer].  While the indices are those of a ring of
    [SEGMENT_BUFFER_SIZE] slots the loop ends within
    [SEGMENT_BUFFER_SIZE] rounds (lemma [st_prep_loop_fuel]). *)
Definition st_prep_buffer (g : globals) : option globals :=
  match state (sys g) with
  | STATE_QUEUED => Some g
  | _ => st_prep_loop (Z.to_nat SEGMENT_BUFFER_SIZE) g
  end.

(** [st_cycle_start]. *)
Definition st_cycle_start (g : globals) : option globals :=
  match state (sys g) with
  | STATE_QUEUED =>
      let g := upd_sys (set_state STATE_CYCLE) g in
      g <- st_prep_buffer g ;;
      Some (st_wake_up g)
  | _ => Some g
  end.

(** [st_get_prep_block_index]. *)
Definition st_get_prep_block_index (g : globals) : Z := pl_prep_index g.

(** [st_fetch_partial_block_parameters]: the two output parameters are
    passed in with the values the caller's variables hold and returned with
    the values they hold afterwards. *)
Definition st_fetch_partial_block_parameters (block_index : Z)
    (millimeters_remaining : float) (is_decelerating : Z) (g : globals)
  : option (globals * float * Z) :=
  match pl_prep_block g with
  | Some _ =>
      i <- st_prep_data g ;;
      d <- index (segment_data g) i ;;
      let millimeters_remaining :=
        (step_events_remaining d / step_per_mm d)%f32 in
      let is_decelerating :=
        if (step_events_remaining d <? decelerate_after d)%f32 then 1 else 0 in
      let g := set_pl_partial_block_flag true g in
      let g := set_pl_prep_block None g in
      Some (g, millimeters_remaining, is_decelerating)
  | None => Some (g, millimeters_remaining, is_decelerating)
  end.

End Stepper.

(** ** A machine to run the code on *)

Definition grbl_config : config := {|
  ISR_TICKS_PER_SECOND := F32.of_Z 30000;
  ACCELERATION_TICKS_PER_SECOND := F32.of_Z 100;
  INV_TIME_MULTIPLIER := F32.of_Z 10000000;
  TICKS_PER_MICROSECOND := 16;
  X_STEP_BIT := 2; Y_STEP_BIT := 3; Z_STEP_BIT := 4;
  X_DIRECTION_BIT := 5; Y_DIRECTION_BIT := 6; Z_DIRECTION_BIT := 7;
  STEPPERS_DISABLE_BIT := 0;
  SPINDLE_ENABLE_BIT := 4;
  OCIE2A := 1;
  CS21 := 1;
  BITFLAG_INVERT_ST_ENABLE := bit 2;
  EXEC_CYCLE_STOP := bit 2;
  EXEC_ALARM := bit 5
|}.

(** A planner whose queue is a list of blocks, indexed from 0, with the
    index of the block being executed. *)
Record queue := { blocks : list plan_block_t; current : Z }.

Definition queue_ops : planner_ops queue := {|
  plan_get_current_block := fun q => index (blocks q) (current q);
  plan_get_block_by_index := fun q i => index (blocks q) i;
  plan_next_block_index := fun _ i => i + 1;
  plan_discard_current_block :=
    fun q => {| blocks := blocks q; current := current q + 1 |}
|}.

Definition zero_data : st_data_t :=
  Build_st_data_t 0 F32.zero F32.zero F32.zero F32.zero F32.zero F32.zero
    F32.zero F32.zero.
Definition zero_segment : st_segment_t := Build_st_segment_t 0 0 0 0 0.

(** The globals as the C runtime zeroes them, with the given planner queue,
    settings and system state. *)
Definition power_on (q : queue) (s : settings_t) (y : system_t)
  : globals queue := {|
  st := Build_stepper_t 0 0 0 0 0 0 false 0 0 0;
  segment_data := repeat zero_data 5;
  segment_buffer := repeat zero_segment 6;
  segment_buffer_tail := 0;
  segment_buffer_head := 0;
  segment_next_head := 0;
  busy := false;
  pl_current_block := None;
  st_current_segment := None;
  st_current_data := None;
  pl_prep_block := None;
  st_prep_data := None;
  pl_prep_index := 0;
  st_data_prep_index := 0;
  pl_partial_block_flag := false;
  sys := y;
  settings := s;
  io := Build_avr_t 0 0 0 0 0 0 0 0;
  plan := q
|}.

Definition plain_settings : settings_t :=
  {| invert_mask := 0; flags := 0; stepper_idle_lock_time := 25;
     pulse_microseconds := 10 |}.

Definition in_cycle : system_t :=
  {| state := STATE_CYCLE; execute := 0; auto_start := true;
     position := {| at_x := 0; at_y := 0; at_z := 0 |} |}.

(** The first of two equal blocks of [n] steps along X over [mm]
    millimeters, entered, run and left at the speed whose square is [v2]. *)
Definition x_block (dirs n mm v2 a : Z) : plan_block_t := {|
  direction_bits := dirs;
  steps := {| at_x := n; at_y := 0; at_z := 0 |};
  step_event_count := n;
  entry_speed_sqr := F32.of_Z v2;
  nominal_speed_sqr := F32.of_Z v2;
  millimeters := F32.of_Z mm;
  block_acceleration := F32.of_Z a
|}.

Definition machine := globals queue.

(** Power on, [st_reset], then [st_cycle_start] with the planner queue [q]:
    the globals when the stepper interrupt is enabled. *)
Definition started (q : list plan_block_t) : option machine :=
  let y := {| state := STATE_QUEUED; execute := 0; auto_start := true;
              position := {| at_x := 0; at_y := 0; at_z := 0 |} |} in
  st_cycle_start grbl_config queue_ops
    (st_reset (power_on {| blocks := q; current := 0 |} plain_settings y)).

(** [n] ticks of the stepper interrupt. *)
Fixpoint ticks (n : nat) (g : machine) : option machine :=
  match n with
  | O => Some g
  | S k => g <- TIMER2_COMPA_vect grbl_config queue_ops g ;; ticks k g
  end.

Definition started_then (n : nat) (q : list plan_block_t) : option machine :=
  g <- started q ;; ticks n g.

(** ** Notions the properties are stated with *)

(** *** The segment ring *)

(** The indices are those of a ring of [SEGMENT_BUFFER_SIZE] slots. *)
Definition ring_inv {planner : Type} (g : globals planner) : Prop :=
  0 <= segment_buffer_tail g < SEGMENT_BUFFER_SIZE /\
  0 <= segment_buffer_head g < SEGMENT_BUFFER_SIZE /\
  segment_next_head g = (segment_buffer_head g + 1) mod SEGMENT_BUFFER_SIZE.

(** Number of segments published and not yet consumed. *)
Definition segment_count {planner : Type} (g : globals planner) : Z :=
  (segment_buffer_head g - segment_buffer_tail g) mod SEGMENT_BUFFER_SIZE.

(** The tests the code makes for an empty and for a full ring. *)
Definition ring_empty {planner : Type} (g : globals planner) : bool :=
  segment_buffer_head g =? segment_buffer_tail g.
Definition ring_full {planner : Type} (g : globals planner) : bool :=
  segment_buffer_tail g =? segment_next_head g.

(** The executor holds a segment only while the ring is not empty. *)
Definition loaded_inv {planner : Type} (g : globals planner) : Prop :=
  load_flag (st g) = LOAD_NOOP ->
  segment_buffer_head g <> segment_buffer_tail g.

(** *** The segments of one block *)

(** Step events that a segment computed from slot [d] stands for, as an
    integer: [ceil(step_events_remaining) - ceil(steps_remaining)], and
    [ceil(step_events_remaining)] for the segment that ends the block. *)
Definition segment_step_events (cfg : config) (d : st_data_t) : Z :=
  if prep_end_of_block cfg d then F32.ceilZ (step_events_remaining d)
  else F32.ceilZ (step_events_remaining d)
       - F32.ceilZ (steps_remaining (prep_segment_locals cfg d)).

(** The segments the preparer emits from slot [d] up to the one flagged
    [SEGMENT_END_OF_BLOCK], each with the slot it is computed from; [None]
    when the block does not end within [n] segments. *)
Fixpoint prep_block_segments (cfg : config) (n : nat) (d : st_data_t)
  : option (list (st_data_t * st_segment_t)) :=
  match n with
  | O => None
  | S k =>
      let seg := prep_segment_emit cfg d zero_segment in
      if prep_end_of_block cfg d then Some [(d, seg)]
      else
        tr <- prep_block_segments cfg k (prep_segment_data cfg d) ;;
        Some ((d, seg) :: tr)
  end.

Definition sum_n_step (tr : list (st_data_t * st_segment_t)) : Z :=
  fold_right (fun x acc => n_step (snd x) + acc) 0 tr.

(** [n_step] holds the step events of the segment without loss. *)
Definition n_step_exact (cfg : config) (x : st_data_t * st_segment_t) : Prop :=
  n_step (snd x) = segment_step_events cfg (fst x).

(** The step events of the segment computed from slot [d] fit the 8-bit
    [n_step]: the step counts the segment is computed from are finite and
    below [2^24] in magnitude, and their ceilings differ by 255 at most. *)
Definition n_step_fits (cfg : config) (d : st_data_t) : bool :=
  let a := step_events_remaining d in
  let b := steps_remaining (prep_segment_locals cfg d) in
  F32.is_finite a && (Z.abs (F32.ceilZ a) <? 2 ^ 24)
  && (prep_end_of_block cfg d
      || F32.is_finite b && (Z.abs (F32.ceilZ b) <? 2 ^ 24))
  && (0 <=? segment_step_events cfg d)
  && (segment_step_events cfg d <? 256).

(** *** The profile table of the design document *)

Inductive profile_shape :=
  Cruise_only | Cruise_decel | Accel_cruise | Trapezoid | Triangle
  | Decel_only | Accel_only.

(** A row of the table: the shape and, in millimeters, [accelerate_until],
    [decelerate_after] and [maximum_rate]. *)
Record profile := {
  shape : profile_shape;
  row_accelerate_until : float;
  row_decelerate_after : float;
  row_maximum_rate : float
}.

(** [intersection = 1/2 (L + (v0^2 - ve^2)/2a)]. *)
Definition table_intersection (b : plan_block_t) (vesq : float) : float :=
  (F32.half * (millimeters b
               + (entry_speed_sqr b - vesq)
                 / (F32.two * block_acceleration b)))%f32.

(** The seven rows as the design document words them, read in order; the
    last four apply when none of the first three does.  [None] when no row
    applies. *)
Definition profile_table (b : plan_block_t) (vesq : float) : option profile :=
  let L := millimeters b in
  let v0sq := entry_speed_sqr b in
  let vnsq := nominal_speed_sqr b in
  let a2 := (F32.two * block_acceleration b)%f32 in
  let i := table_intersection b vesq in
  (if (v0sq =? vnsq) && (vesq =? vnsq) then
     Some (Build_profile Cruise_only L F32.zero (F32.sqrt vnsq))
   else if (v0sq =? vnsq) && (vesq <? vnsq) then
     Some (Build_profile Cruise_decel L ((vnsq - vesq) / a2) (F32.sqrt vnsq))
   else if (v0sq <? vnsq) && (vesq =? vnsq) then
     Some (Build_profile Accel_cruise (L - (vnsq - v0sq) / a2) F32.zero
             (F32.sqrt vnsq))
   else if (F32.zero <? i) && (i <? L) && ((vnsq - vesq) / a2 <? i) then
     Some (Build_profile Trapezoid (L - (vnsq - v0sq) / a2)
             ((vnsq - vesq) / a2) (F32.sqrt vnsq))
   else if (F32.zero <? i) && (i <? L) && (i <=? (vnsq - vesq) / a2) then
     Some (Build_profile Triangle (L - i) i (F32.sqrt (a2 * i + vesq)))
   else if L <=? i then
     Some (Build_profile Decel_only L L (F32.sqrt v0sq))
   else if i <=? F32.zero then
     Some (Build_profile Accel_only F32.zero F32.zero (F32.sqrt vesq))
   else None)%f32.

(** What the planner guarantees about a block and the speed it is left
    with: a positive length, and entry and exit speeds that do not exceed
    the nominal speed. *)
Definition planner_contract (b : plan_block_t) (vesq : float) : Prop :=
  (F32.zero <? millimeters b)%f32 = true /\
  (entry_speed_sqr b <=? nominal_speed_sqr b)%f32 = true /\
  (vesq <=? nominal_speed_sqr b)%f32 = true.

(** *** Step events of one block *)

Section StepEvents.
Variable cfg : config.
Variable planner : Type.
Variable b : plan_block_t.
Variable d : st_data_t.

(** The globals after [n] step events of the block. *)
Fixpoint isr_step_events (n : nat) (g : globals planner) : globals planner :=
  match n with
  | O => g
  | S k => isr_step_events k (isr_step_event cfg b d g)
  end.

(** The step bit of axis [a] is raised in [out_bits], which holds the bits
    combined with the invert mask of the port. *)
Definition step_bit_raised (a : axis) (g : globals planner) : bool :=
  Z.testbit (Z.lxor (out_bits (st g)) (invert_mask (settings g)))
            (step_bit_of cfg a).

(** How many of the next [n] step events raise the step bit of axis [a]. *)
Fixpoint step_pulses (a : axis) (n : nat) (g : globals planner) : Z :=
  match n with
  | O => 0
  | S k =>
      let g' := isr_step_event cfg b d g in
      (if step_bit_raised a g' then 1 else 0) + step_pulses a k g'
  end.

End StepEvents.

(** The six pins of the stepping port are distinct bits of one byte. *)
Definition pin_map_ok (c : config) : Prop :=
  (forall a, 0 <= step_bit_of c a < 8) /\
  (forall a, 0 <= direction_bit_of c a < 8) /\
  (forall a a', step_bit_of c a <> direction_bit_of c a') /\
  (forall a a', a <> a' -> step_bit_of c a <> step_bit_of c a').

(** The sign of the motion of axis [a]: the position counts down when the
    direction bit of the axis is set. *)
Definition direction_sign (c : config) (b : plan_block_t) (a : axis) : Z :=
  if Z.testbit (direction_bits b) (direction_bit_of c a) then -1 else 1.

Definition int32_range (z : Z) : Prop := - 2 ^ 31 <= z < 2 ^ 31.

Definition axis_eqb (a a' : axis) : bool :=
  match a, a' with
  | X_AXIS, X_AXIS | Y_AXIS, Y_AXIS | Z_AXIS, Z_AXIS => true
  | _, _ => false
  end.

(** The counter of axis [a] runs below zero in the next step event. *)
Definition axis_wraps {planner : Type} (b : plan_block_t) (a : axis)
    (g : globals planner) : bool :=
  to_i32 (get_counter a (st g) - get_axis a (steps b)) <? 0.

(** The assignments of a step event before and after the three axes
    (lines 280-283 and 309-311). *)
Definition isr_step_begin {planner : Type} (b : plan_block_t) (d : st_data_t)
    (g : globals planner) : globals planner :=
  let g := upd_st (fun s => set_counter_dist
             (to_i32 (counter_dist s + dist_per_step d)) s) g in
  let g := upd_st (set_out_bits (direction_bits b)) g in
  upd_st (set_execute_step true) g.

Definition isr_step_end {planner : Type} (g : globals planner)
  : globals planner :=
  let g := upd_st (fun s => set_step_count (to_u8 (step_count s - 1)) s) g in
  upd_st (fun s => set_out_bits
            (Z.lxor (out_bits s) (invert_mask (settings g))) s) g.

(** The pointers of the preparer point into the two arrays: the arrays
    have their declared sizes, the index of the shared data is one of its
    slots, and [st_prep_data] points at a slot whenever a block is being
    prepared or a replanned block is about to be taken over. *)
Definition prep_inv {planner : Type} (g : globals planner) : Prop :=
  Z.of_nat (length (segment_buffer g)) = SEGMENT_BUFFER_SIZE /\
  Z.of_nat (length (segment_data g)) = SEGMENT_BUFFER_SIZE - 1 /\
  0 <= st_data_prep_index g < SEGMENT_BUFFER_SIZE - 1 /\
  (pl_prep_block g <> None \/ pl_partial_block_flag g = true ->
   exists j, st_prep_data g = Some j /\ 0 <= j < SEGMENT_BUFFER_SIZE - 1).

(** *** The moments at which the stepper is observed *)

(** What the preparer works on, apart from the indices of the ring. *)
Definition prep_fields {planner : Type} (g : globals planner) :=
  (segment_buffer g, segment_data g, st_data_prep_index g, pl_prep_block g,
   pl_partial_block_flag g, st_prep_data g).

(** What happens to the globals of the stepper module: a function of the
    module is called, one of the two interrupts runs, or the rest of the
    program changes [sys], [settings] or the planner queue. *)
Inductive stepper_op (planner : Type) : Type :=
  | Op_st_reset
  | Op_st_wake_up
  | Op_st_go_idle
  | Op_TIMER2_COMPA_vect
  | Op_TIMER0_OVF_vect
  | Op_st_cycle_start
  | Op_st_feed_hold
  | Op_st_cycle_reinitialize
  | Op_st_prep_buffer
  | Op_st_fetch_partial_block_parameters
      (block_index : Z) (millimeters_remaining : float) (is_decelerating : Z)
  | Op_foreground (y : system_t) (s : settings_t) (p : planner).

Arguments Op_st_reset {planner}.
Arguments Op_st_wake_up {planner}.
Arguments Op_st_go_idle {planner}.
Arguments Op_TIMER2_COMPA_vect {planner}.
Arguments Op_TIMER0_OVF_vect {planner}.
Arguments Op_st_cycle_start {planner}.
Arguments Op_st_feed_hold {planner}.
Arguments Op_st_cycle_reinitialize {planner}.
Arguments Op_st_prep_buffer {planner}.
Arguments Op_st_fetch_partial_block_parameters {planner}.
Arguments Op_foreground {planner}.

Definition run_op {planner : Type} (cfg : config) (pl : planner_ops planner)
    (o : stepper_op planner) (g : globals planner)
  : option (globals planner) :=
  match o with
  | Op_st_reset => Some (st_reset g)
  | Op_st_wake_up => Some (st_wake_up cfg g)
  | Op_st_go_idle => Some (st_go_idle cfg g)
  | Op_TIMER2_COMPA_vect => TIMER2_COMPA_vect cfg pl g
  | Op_TIMER0_OVF_vect => Some (TIMER0_OVF_vect cfg g)
  | Op_st_cycle_start => st_cycle_start cfg pl g
  | Op_st_feed_hold => Some (st_feed_hold g)
  | Op_st_cycle_reinitialize => Some (st_cycle_reinitialize g)
  | Op_st_prep_buffer => st_prep_buffer cfg pl g
  | Op_st_fetch_partial_block_parameters i mm dec =>
      option_map (fun r => fst (fst r))
        (st_fetch_partial_block_parameters i mm dec g)
  | Op_foreground y s p => Some (set_plan p (set_settings s (set_sys y g)))
  end.

(** The states of the stepper after [st_reset] on arrays of the declared
    sizes, operations taking place one at a time. *)
Inductive reachable {planner : Type} (cfg : config)
    (pl : planner_ops planner) : globals planner -> Prop :=
  | reachable_reset (g : globals planner) :
      Z.of_nat (length (segment_buffer g)) = SEGMENT_BUFFER_SIZE ->
      Z.of_nat (length (segment_data g)) = SEGMENT_BUFFER_SIZE - 1 ->
      reachable cfg pl (st_reset g)
  | reachable_op (o : stepper_op planner) (g g' : globals planner) :
      reachable cfg pl g -> run_op cfg pl o g = Some g' ->
      reachable cfg pl g'.

(** What holds of the ring and of the pointers into it between
    operations. *)
Definition stepper_inv {planner : Type} (g : globals planner) : Prop :=
  ring_inv g /\ prep_inv g /\ loaded_inv g.

(** *** Planner queues to run the code on *)

(** 100 steps along X over 10 mm at 100 mm/s, that is 1000 steps per
    second. *)
Definition cruise_block : plan_block_t := x_block 0 100 10 10000 100.

(** 100 steps along X over 10 mm at 1 mm/s, that is 10 steps per second. *)
Definition slow_block : plan_block_t := x_block 0 100 10 1 100.

(** 250 steps along X, in the negative direction, over 1 mm at 4 mm/s, that
    is 1000 steps per second on an axis of 250 steps per millimeter. *)
Definition fine_block : plan_block_t := x_block (bit 5) 250 1 16 10.

(** A block of three axes, accelerated from rest to 20 mm/s and stopped
    again over 30 mm. *)
Definition trapezoid_block : plan_block_t := {|
  direction_bits := 0;
  steps := {| at_x := 300; at_y := 200; at_z := 100 |};
  step_event_count := 300;
  entry_speed_sqr := F32.zero;
  nominal_speed_sqr := F32.of_Z 400;
  millimeters := F32.of_Z 30;
  block_acceleration := F32.of_Z 100
|}.

(** The globals of a started machine, and those of a machine that has
    just been reset when the queue does not let it start. *)
Definition started_machine (q : list plan_block_t) : machine :=
  match started q with
  | Some g => g
  | None =>
      st_reset (power_on {| blocks := q; current := 0 |} plain_settings
                  in_cycle)
  end.

(** The three indices of the ring: tail, head and next head. *)
Definition ring_of {planner : Type} (g : globals planner) : Z * Z * Z :=
  (segment_buffer_tail g, segment_buffer_head g, segment_next_head g).

(** [if ( ++i == SEGMENT_BUFFER_SIZE ) { i = 0; }] on an index of the
    ring. *)
Definition next_index (i : Z) : Z :=
  if to_u8 (i + 1) =? SEGMENT_BUFFER_SIZE then 0 else to_u8 (i + 1).

(** The rounds the loop of [st_prep_buffer] still has to make. *)
Definition rounds_left {planner : Type} (g : globals planner) : nat :=
  Z.to_nat ((segment_buffer_tail g - segment_next_head g)
            mod SEGMENT_BUFFER_SIZE).

(** ** [st_init] *)

(** The registers that only [st_init] writes, and the constants that only
    it reads: the mask of the six stepping pins, two bit numbers of the
    timers and the clock rate, all from headers outside this file. *)
Record init_regs := {
  STEPPING_DDR : Z;
  STEPPERS_DISABLE_DDR : Z;
  TCCR2A : Z;
  OCR2A : Z;
  TIMSK0 : Z;
  TCCR0A : Z
}.

Record init_config := {
  STEPPING_MASK : Z;
  WGM21 : Z;
  TOIE0 : Z;
  F_CPU : Z
}.

Section Init.
Variable cfg : config.
Variable ic : init_config.
Variable planner : Type.

(** [st_init].  [OCR2A] is an 8-bit register; the quotient is taken in
    floating point, the way [ISR_TICKS_PER_SECOND] is read elsewhere. *)
Definition st_init (r : init_regs) (g : globals planner)
  : init_regs * globals planner :=
  let stepping_ddr := Z.lor (STEPPING_DDR r) (STEPPING_MASK ic) in
  let g := upd_io (fun a => set_STEPPING_PORT
             (Z.lor (Z.land (STEPPING_PORT a) (Z.lnot (STEPPING_MASK ic)))
                    (invert_mask (settings g))) a) g in
  let disable_ddr :=
    Z.lor (STEPPERS_DISABLE_DDR r) (bit (STEPPERS_DISABLE_BIT cfg)) in
  let g := upd_io (fun a => set_TIMSK2
             (bit_false (TIMSK2 a) (bit (OCIE2A cfg))) a) g in
  let g := upd_io (set_TCCR2B 0) g in
  let g := upd_io (set_TCNT2 0) g in
  let tccr2a := bit (WGM21 ic) in
  let ocr2a :=
    F32.to_uint8
      (F32.of_Z (F_CPU ic) / ISR_TICKS_PER_SECOND cfg / F32.of_Z 8
       - F32.of_Z 1)%f32 in
  let timsk0 := bit_false (TIMSK0 r) (bit (TOIE0 ic)) in
  let tccr0a := 0 in
  let g := upd_io (set_TCCR0B 0) g in
  let timsk0 := bit_true timsk0 (bit (TOIE0 ic)) in
  let g := st_wake_up cfg g in
  let g := st_go_idle cfg g in
  ({| STEPPING_DDR := stepping_ddr;
      STEPPERS_DISABLE_DDR := disable_ddr;
      TCCR2A := tccr2a;
      OCR2A := ocr2a;
      TIMSK0 := timsk0;
      TCCR0A := tccr0a |}, g).

End Init.

(** The registers of an ATmega328p at 16 MHz. *)
Definition grbl_init_config : init_config :=
  {| STEPPING_MASK := Z.lor (STEP_MASK grbl_config)
                            (DIRECTION_MASK grbl_config);
     WGM21 := 1; TOIE0 := 0; F_CPU := 16000000 |}.

(** ** Notions of the further properties *)

(** What a tick of the stepper interrupt leaves to the latch at its
    start: the stepping port and the counter and control register of
    Timer0; and the two registers it never writes. *)
Definition latch_fields {planner : Type} (g : globals planner) :=
  (STEPPING_PORT (io g), TCNT0 (io g), TCCR0B (io g),
   SPINDLE_ENABLE_PORT (io g), TCNT2 (io g)).

(** What the preparer never writes. *)
Definition executor_fields {planner : Type} (g : globals planner) :=
  (st g, segment_buffer_tail g, busy g, pl_current_block g,
   st_current_segment g, st_current_data g, sys g, settings g, plan g,
   (STEPPING_PORT (io g), STEPPERS_DISABLE_PORT (io g), TIMSK2 (io g),
    TCCR2B (io g), TCNT2 (io g), TCNT0 (io g), TCCR0B (io g))).

(** Slot [j] of the ring holds a segment that the executor has not
    finished: it lies from [tail] up to, not including, [head]. *)
Definition occupied {planner : Type} (g : globals planner) (j : Z) : Prop :=
  0 <= j < SEGMENT_BUFFER_SIZE /\
  (j - segment_buffer_tail g) mod SEGMENT_BUFFER_SIZE < segment_count g.

(** The preparer has nothing to prepare: no block in preparation, and the
    planner has none at [pl_prep_index]. *)
Definition nothing_to_prepare {planner : Type} (pl : planner_ops planner)
    (g : globals planner) : Prop :=
  pl_prep_block g = None /\
  plan_get_block_by_index pl (plan g) (pl_prep_index g) = None.

(** What the step events of the interrupt never write. *)
Definition quiet_fields {planner : Type} (g : globals planner) :=
  (io g, plan g, settings g, state (sys g), execute (sys g),
   auto_start (sys g), ring_of g).

(** The started machine after [n] ticks of the stepper interrupt. *)
Definition at_tick (n : nat) (q : list plan_block_t) : machine :=
  match started_then n q with
  | Some g => g
  | None => started_machine q
  end.

(** The preparer is at rest: it has nothing to prepare, and the free slot
    at [head] is there, with its flag cleared. *)
Definition prep_idle {planner : Type} (pl : planner_ops planner)
    (g : globals planner) : Prop :=
  nothing_to_prepare pl g /\
  exists seg, index (segment_buffer g) (segment_buffer_head g) = Some seg /\
              flag seg = SEGMENT_NOOP.

(** While a segment is loaded the executor works on the one at [tail]. *)
Definition current_inv {planner : Type} (g : globals planner) : Prop :=
  load_flag (st g) = LOAD_NOOP ->
  st_current_segment g = Some (segment_buffer_tail g).

(** Lines 266-268: with nothing to load the interrupt goes idle and signals
    the end of the cycle. *)
Definition isr_cycle_stop (c : config) {planner : Type}
    (g : globals planner) : globals planner :=
  upd_sys (fun s => set_execute
             (bit_true (execute s) (EXEC_CYCLE_STOP c)) s)
    (st_go_idle c g).

(** What the functions of the cycle do to [sys]: they set [sys.state], and
    [st_feed_hold] (lines 412-413) [sys.auto_start] as well. *)
Definition relabel {planner : Type} (x : sys_state) (a : bool)
    (g : globals planner) : globals planner :=
  upd_sys (set_auto_start a) (upd_sys (set_state x) g).

(** The second scenario of the design document: three axes, 300 step
    events over 30 mm, from rest up to at most 200 mm/s and, with no block
    after it, down to rest again; 10 steps per millimeter, 2000 steps per
    second at most. *)
Definition scenario_s2_block : plan_block_t := {|
  direction_bits := 0;
  steps := {| at_x := 300; at_y := 200; at_z := 100 |};
  step_event_count := 300;
  entry_speed_sqr := F32.zero;
  nominal_speed_sqr := F32.of_Z 40000;
  millimeters := F32.of_Z 30;
  block_acceleration := F32.of_Z 100
|}.

(** One step along X over 1 mm at 400 mm/s, that is 400 steps per second:
    with no block after it the preparer emits it as one segment. *)
Definition single_step_block : plan_block_t := x_block 0 1 1 160000 100.

(** The first [n] segments the preparer emits from slot [d], each with the
    slot it is computed from; fewer when one of them ends the block. *)
Fixpoint prep_block_prefix (cfg : config) (n : nat) (d : st_data_t)
  : list (st_data_t * st_segment_t) :=
  match n with
  | O => []
  | S k =>
      (d, prep_segment_emit cfg d zero_segment)
      :: (if prep_end_of_block cfg d then []
          else prep_block_prefix cfg k (prep_segment_data cfg d))
  end.

(** * Properties *)

Arguments F32.add : simpl never.
Arguments F32.sub : simpl never.
Arguments F32.mul : simpl never.
Arguments F32.div : simpl never.
Arguments F32.sqrt : simpl never.
Arguments F32.ltb : simpl never.
Arguments F32.leb : simpl never.
Arguments F32.eqb : simpl never.
Arguments F32.ceil : simpl never.
Arguments F32.ceilZ : simpl never.
Arguments F32.of_Z : simpl never.
Arguments F32.to_uint8 : simpl never.
Arguments F32.to_uint32 : simpl never.
Arguments to_u8 : simpl never.
Arguments to_u32 : simpl never.
Arguments to_i32 : simpl never.
Arguments bit : simpl never.
Arguments index : simpl never.
Arguments store : simpl never.

(** ** Order of binary32 values *)

Module F32Facts.

Lemma compare_antisym (x y : float) :
  SFcompare y x = option_map CompOpp (SFcompare x y).
Proof.
  destruct x as [sx|sx| |sx mx ex], y as [sy|sy| |sy my ey]; simpl;
    try reflexivity;
    try (destruct sx; reflexivity);
    try (destruct sy; reflexivity);
    try (destruct sx, sy; reflexivity).
  f_equal.
  destruct sx, sy; try reflexivity;
    rewrite (Z.compare_antisym ex ey);
    destruct (ex ?= ey)%Z; simpl; try reflexivity;
    change (Pos.compare_cont Eq my mx)
      with (Pos.compare_cont (CompOpp Eq) my mx);
    rewrite <- (Pos.compare_cont_antisym mx my Eq);
    destruct (Pos.compare_cont Eq mx my); reflexivity.
Qed.

Lemma ltb_not_eqb (x y : float) : F32.ltb x y = true -> F32.eqb x y = false.
Proof.
  unfold F32.ltb, F32.eqb, SFltb, SFeqb.
  destruct (SFcompare x y) as [[]|]; congruence.
Qed.

Lemma leb_not_eqb_ltb (x y : float) :
  F32.leb x y = true -> F32.eqb x y = false -> F32.ltb x y = true.
Proof.
  unfold F32.ltb, F32.eqb, F32.leb, SFltb, SFeqb, SFleb.
  destruct (SFcompare x y) as [[]|]; congruence.
Qed.

Lemma leb_not_ltb (x y : float) : F32.leb x y = true -> F32.ltb y x = false.
Proof.
  unfold F32.ltb, F32.leb, SFltb, SFleb. rewrite (compare_antisym x y).
  destruct (SFcompare x y) as [[]|]; simpl; congruence.
Qed.

Lemma ltb_not_leb (x y : float) : F32.ltb x y = true -> F32.leb y x = false.
Proof.
  unfold F32.ltb, F32.leb, SFltb, SFleb. rewrite (compare_antisym x y).
  destruct (SFcompare x y) as [[]|]; simpl; congruence.
Qed.

Lemma compare_none (x y : float) :
  SFcompare x y = None -> F32.is_nan x = true \/ F32.is_nan y = true.
Proof.
  destruct x as [sx|sx| |sx mx ex], y as [sy|sy| |sy my ey]; simpl;
    intros H; try discriminate H; auto.
Qed.

Lemma not_ltb_not_leb (x y : float) :
  F32.ltb x y = false -> F32.leb y x = false ->
  F32.is_nan x = true \/ F32.is_nan y = true.
Proof.
  unfold F32.ltb, F32.leb, SFltb, SFleb. rewrite (compare_antisym x y).
  destruct (SFcompare x y) as [[]|] eqn:E; simpl; try congruence.
  intros _ _. exact (compare_none x y E).
Qed.

Lemma ltb_not_nan (x y : float) :
  F32.ltb x y = true -> F32.is_nan x = false /\ F32.is_nan y = false.
Proof.
  unfold F32.ltb, SFltb.
  destruct x as [sx|sx| |sx mx ex], y as [sy|sy| |sy my ey]; simpl;
    intros H; try discriminate H; auto.
Qed.

Lemma zero_ltb_leb (x y : float) :
  F32.ltb F32.zero x = true -> F32.leb x y = true ->
  F32.ltb F32.zero y = true.
Proof.
  unfold F32.ltb, F32.leb, F32.zero, SFltb, SFleb.
  destruct x as [sx|sx| |sx mx ex], y as [sy|sy| |sy my ey]; simpl;
    try discriminate; try (destruct sx; discriminate);
    try (destruct sy; discriminate);
    try (destruct sx, sy; simpl; congruence).
Qed.

End F32Facts.

(** ** Integers held in binary32 *)

Module F32Exact.

Lemma digits2_pos_iter_xO (m d : positive) :
  digits2_pos (Pos.iter xO m d) = (digits2_pos m + d)%positive.
Proof.
  induction d as [|d IH] using Pos.peano_ind.
  - cbn. rewrite Pos.add_1_r. reflexivity.
  - rewrite Pos.iter_succ. cbn [digits2_pos]. rewrite IH.
    rewrite Pos.add_succ_r. reflexivity.
Qed.

Lemma Zpos_iter_xO (m d : positive) :
  Z.pos (Pos.iter xO m d) = Z.pos m * 2 ^ Z.pos d.
Proof.
  induction d as [|d IH] using Pos.peano_ind.
  - cbn. lia.
  - rewrite Pos.iter_succ, Pos2Z.inj_xO, IH, Pos2Z.inj_succ.
    rewrite Z.pow_succ_r by lia. ring.
Qed.

Lemma digits2_pos_lower (p : positive) :
  2 ^ (Z.pos (digits2_pos p) - 1) <= Z.pos p.
Proof.
  induction p as [p IH|p IH|]; cbn [digits2_pos].
  - rewrite Pos2Z.inj_succ.
    replace (Z.succ (Z.pos (digits2_pos p)) - 1)
      with (Z.succ (Z.pos (digits2_pos p) - 1)) by lia.
    rewrite Z.pow_succ_r by lia. lia.
  - rewrite Pos2Z.inj_succ.
    replace (Z.succ (Z.pos (digits2_pos p)) - 1)
      with (Z.succ (Z.pos (digits2_pos p) - 1)) by lia.
    rewrite Z.pow_succ_r by lia. lia.
  - cbn. lia.
Qed.

Lemma iter_pos_iter {A : Type} (f : A -> A) (p : positive) (x : A) :
  iter_pos f p x = Pos.iter f x p.
Proof.
  revert x. induction p as [p IH|p IH|]; intros x; cbn [iter_pos Pos.iter].
  - rewrite !IH, !Pos.iter_swap. reflexivity.
  - rewrite !IH. reflexivity.
  - reflexivity.
Qed.

(** Shifting out zeros loses nothing. *)
Lemma shr_iter_xO (k n : positive) :
  iter_pos shr_1 n
    {| shr_m := Z.pos (Pos.iter xO k n); shr_r := false; shr_s := false |}
  = {| shr_m := Z.pos k; shr_r := false; shr_s := false |}.
Proof.
  rewrite iter_pos_iter. induction n as [|n IH] using Pos.peano_ind.
  - reflexivity.
  - rewrite (Pos.iter_succ_r n shr_record shr_1).
    rewrite (Pos.iter_succ n positive xO).
    cbn [shr_1 orb]. exact IH.
Qed.

(** A mantissa that has the exponent its width asks for is not rounded. *)
Lemma binary_round_aux_exact (s : bool) (m : positive) (e : Z) :
  fexp F32.prec F32.emax (Z.pos (digits2_pos m) + e) = e ->
  e <= F32.emax - F32.prec ->
  binary_round_aux F32.prec F32.emax s (Z.pos m) e loc_Exact
  = S754_finite s m e.
Proof.
  intros Hf He. unfold binary_round_aux, shr_fexp.
  cbn [shr_record_of_loc Zdigits2]. rewrite Hf, Z.sub_diag. cbn [shr].
  cbn [shr_m loc_of_shr_record round_nearest_even shr_record_of_loc Zdigits2].
  rewrite Hf, Z.sub_diag. cbn [shr shr_m].
  destruct (Z.leb_spec e (F32.emax - F32.prec)); [reflexivity | lia].
Qed.

(** A mantissa with zeros below the exponent its width asks for is
    shifted, not rounded. *)
Lemma binary_round_aux_shift (s : bool) (k n : positive) (e : Z) :
  fexp F32.prec F32.emax (Z.pos (digits2_pos k) + Z.pos n + e)
  = e + Z.pos n ->
  e + Z.pos n <= F32.emax - F32.prec ->
  binary_round_aux F32.prec F32.emax s (Z.pos (Pos.iter xO k n)) e loc_Exact
  = S754_finite s k (e + Z.pos n).
Proof.
  intros Hf He. unfold binary_round_aux, shr_fexp.
  cbn [shr_record_of_loc Zdigits2].
  rewrite digits2_pos_iter_xO, Pos2Z.inj_add, Hf.
  replace (e + Z.pos n - e) with (Z.pos n) by lia. cbn [shr].
  rewrite shr_iter_xO.
  cbn [shr_m loc_of_shr_record round_nearest_even shr_record_of_loc Zdigits2].
  replace (Z.pos (digits2_pos k) + (e + Z.pos n))
    with (Z.pos (digits2_pos k) + Z.pos n + e) by lia.
  rewrite Hf, Z.sub_diag. cbn [shr shr_m].
  destruct (Z.leb_spec (e + Z.pos n) (F32.emax - F32.prec));
    [reflexivity | lia].
Qed.

Lemma pow2_pos (n : Z) : 0 <= n -> 0 < 2 ^ n.
Proof. intros H. apply Z.pow_pos_nonneg; lia. Qed.

Lemma scaled_width (m : positive) (e D : Z) :
  F32.scaled (Z.pos m) e D -> D < 2 ^ 24 ->
  0 < D /\ Z.pos (digits2_pos m) + e <= 24.
Proof.
  unfold F32.scaled. intros H HD. pose proof (digits2_pos_lower m) as L.
  set (dg := Z.pos (digits2_pos m)) in *.
  assert (Hdg : 0 < dg) by (unfold dg; lia).
  destruct (Z.leb_spec 0 e) as [He|He].
  - pose proof (pow2_pos He) as P. split; [nia|].
    destruct (Z.le_gt_cases (dg + e) 24) as [G|G]; [exact G|exfalso].
    assert (2 ^ 24 <= 2 ^ (dg - 1 + e)) by (apply Z.pow_le_mono_r; lia).
    rewrite Z.pow_add_r in * by lia. nia.
  - assert (P : 0 < 2 ^ (- e)) by (apply pow2_pos; lia).
    split; [nia|].
    destruct (Z.le_gt_cases (dg + e) 24) as [G|G]; [exact G|exfalso].
    assert (X : 2 ^ (24 + - e) <= 2 ^ (dg - 1))
      by (apply Z.pow_le_mono_r; lia).
    rewrite Z.pow_add_r in X by lia. nia.
Qed.

(** A positive integer below [2^24] is not rounded. *)
Lemma binary_round_int (s : bool) (m : positive) (e D : Z) :
  F32.scaled (Z.pos m) e D -> D < 2 ^ 24 ->
  F32.int_val (binary_round F32.prec F32.emax s m e)
    (if s then - D else D).
Proof.
  intros H HD. destruct (scaled_width _ _ H HD) as (D0 & W).
  unfold F32.scaled in H. unfold binary_round, shl_align.
  set (dg := Z.pos (digits2_pos m)) in *.
  set (fe := fexp F32.prec F32.emax (dg + e)).
  assert (F : fe = Z.max (dg + e - 24) (- 149)) by reflexivity.
  assert (F0 : fe <= 0) by lia.
  destruct (fe - e) as [|p|p] eqn:Dp.
  - assert (fe = e) by lia.
    rewrite binary_round_aux_exact;
      [|fold dg; fold fe; lia | unfold F32.emax, F32.prec; lia].
    unfold F32.int_val. cbv zeta.
    destruct (Z.leb_spec 0 e); [replace e with 0 in * by lia|];
      destruct s; lia.
  - assert (E : e < 0) by lia.
    destruct (Z.leb_spec 0 e) as [?|_]; [lia|].
    assert (Pf : 0 < 2 ^ (- fe)) by (apply pow2_pos; lia).
    assert (K : Z.pos m = D * 2 ^ (- fe) * 2 ^ Z.pos p).
    { rewrite H, <- Z.mul_assoc, <- Z.pow_add_r by lia.
      f_equal. f_equal. lia. }
    assert (Km : m = Pos.iter xO (Z.to_pos (D * 2 ^ (- fe))) p).
    { apply Pos2Z.inj. rewrite Zpos_iter_xO, Z2Pos.id by nia. exact K. }
    set (k := Z.to_pos (D * 2 ^ (- fe))) in *.
    assert (Kk : Z.pos k = D * 2 ^ (- fe)) by (unfold k; apply Z2Pos.id; nia).
    assert (Dg : dg = Z.pos (digits2_pos k) + Z.pos p).
    { unfold dg. rewrite Km at 1. rewrite digits2_pos_iter_xO. lia. }
    rewrite Km at 1.
    rewrite binary_round_aux_shift;
      [|rewrite <- Dg; fold fe; lia | unfold F32.emax, F32.prec; lia].
    replace (e + Z.pos p) with fe by lia.
    unfold F32.int_val. cbv zeta.
    destruct (Z.leb_spec 0 fe);
      [replace fe with 0 in * by lia; cbn in Kk|]; destruct s; lia.
  - assert (Df : Z.pos p = e - fe) by lia.
    rewrite binary_round_aux_exact;
      [|rewrite digits2_pos_iter_xO, Pos2Z.inj_add; fold dg;
        replace (dg + Z.pos p + fe) with (dg + e) by lia; reflexivity
       |unfold F32.emax, F32.prec; lia].
    unfold F32.int_val. cbv zeta.
    assert (V : Z.pos (Pos.iter xO m p) = D * 2 ^ (- fe)).
    { rewrite Zpos_iter_xO, Df. destruct (Z.leb_spec 0 e) as [He|He].
      - rewrite H. replace (e - fe) with (e + - fe) by lia.
        rewrite Z.pow_add_r by lia. ring.
      - rewrite H, <- Z.mul_assoc, <- Z.pow_add_r by lia.
        f_equal. f_equal. lia. }
    assert (N : Z.neg (Pos.iter xO m p) = - D * 2 ^ (- fe)).
    { change (Z.neg (Pos.iter xO m p)) with (- Z.pos (Pos.iter xO m p)).
      rewrite V. ring. }
    rewrite V, N.
    destruct (Z.leb_spec 0 fe);
      [replace fe with 0 by lia; cbn [Z.opp Z.pow Z.pow_pos]|];
      destruct s; lia.
Qed.

(** An integer below [2^24] in magnitude is not rounded. *)
Lemma binary_normalize_int (m e D : Z) (sz : bool) :
  F32.scaled m e D -> Z.abs D < 2 ^ 24 ->
  F32.int_val (binary_normalize F32.prec F32.emax m e sz) D.
Proof.
  intros H HD. destruct m as [|m|m]; cbn [binary_normalize].
  - unfold F32.scaled in H. cbn [F32.int_val].
    destruct (Z.leb_spec 0 e) as [He|He]; [lia|].
    assert (0 < 2 ^ (- e)) by (apply pow2_pos; lia). nia.
  - assert (0 < D).
    { unfold F32.scaled in H. destruct (Z.leb_spec 0 e) as [He|He].
      - pose proof (pow2_pos He). nia.
      - assert (0 < 2 ^ (- e)) by (apply pow2_pos; lia). nia. }
    apply (@binary_round_int false m e D H). lia.
  - assert (S : F32.scaled (Z.pos m) e (- D)).
    { unfold F32.scaled in *. destruct (0 <=? e); lia. }
    assert (0 < - D).
    { unfold F32.scaled in S. destruct (Z.leb_spec 0 e) as [He|He].
      - pose proof (pow2_pos He). nia.
      - assert (0 < 2 ^ (- e)) by (apply pow2_pos; lia). nia. }
    pose proof (@binary_round_int true m e (- D) S) as R. cbv iota in R.
    rewrite Z.opp_involutive in R. apply R. lia.
Qed.

Lemma of_Z_int (z : Z) : Z.abs z < 2 ^ 24 -> F32.int_val (F32.of_Z z) z.
Proof.
  intros H. apply binary_normalize_int; [|exact H].
  unfold F32.scaled. cbn. lia.
Qed.

Lemma ceilZ_int (x : float) (z : Z) : F32.int_val x z -> F32.ceilZ x = z.
Proof.
  destruct x as [s|s| |s m e]; unfold F32.int_val, F32.ceilZ;
    [intros ->; reflexivity|contradiction|contradiction|].
  cbv zeta. destruct (Z.leb_spec 0 e) as [He|He];
    [intros ->; reflexivity|].
  intros ->. assert (0 < 2 ^ (- e)) by (apply pow2_pos; lia).
  rewrite <- Z.mul_opp_l, Z.div_mul by lia. lia.
Qed.

Lemma truncZ_int (x : float) (z : Z) : F32.int_val x z -> F32.truncZ x = z.
Proof.
  destruct x as [s|s| |s m e]; unfold F32.int_val, F32.truncZ;
    [intros ->; reflexivity|contradiction|contradiction|].
  cbv zeta. destruct (Z.leb_spec 0 e) as [He|He].
  - destruct s; intros ->; [|reflexivity].
    change (Z.neg m) with (- Z.pos m). ring.
  - assert (0 < 2 ^ (- e)) by (apply pow2_pos; lia).
    destruct s; intros E.
    + replace (Z.pos m) with (- z * 2 ^ (- e)) by lia.
      rewrite Z.div_mul by lia. lia.
    + rewrite E, Z.div_mul by lia. reflexivity.
Qed.

(** An integer below [2^24] is converted without rounding. *)
Lemma ceilZ_of_Z (z : Z) : Z.abs z < 2 ^ 24 -> F32.ceilZ (F32.of_Z z) = z.
Proof. intros H. apply ceilZ_int, of_Z_int, H. Qed.

(** [ceil] of a finite number is its ceiling, held without rounding when
    below [2^24] in magnitude. *)
Lemma ceil_int (x : float) :
  F32.is_finite x = true -> Z.abs (F32.ceilZ x) < 2 ^ 24 ->
  F32.int_val (F32.ceil x) (F32.ceilZ x).
Proof.
  destruct x as [s|s| |s m e]; cbn [F32.is_finite]; try discriminate;
    intros _ H.
  - reflexivity.
  - unfold F32.ceil. destruct (Z.leb_spec 0 e) as [He|He].
    + unfold F32.int_val, F32.ceilZ. cbv zeta.
      destruct (Z.leb_spec 0 e); [reflexivity|lia].
    + apply binary_normalize_int; [|exact H]. unfold F32.scaled. cbn. lia.
Qed.

Lemma scaled_align (m : positive) (e e' : Z) (s : bool) (z : Z) :
  F32.int_val (S754_finite s m e) z -> e' <= e ->
  F32.scaled (cond_Zopp s (Z.pos (fst (shl_align m e e')))) e' z.
Proof.
  unfold F32.int_val, F32.scaled, shl_align. cbv zeta. intros H L.
  assert (A : Z.pos (fst match e' - e with
                         | Z.neg d => (Pos.iter xO m d, e')
                         | _ => (m, e)
                         end) = Z.pos m * 2 ^ (e - e')).
  { destruct (e' - e) as [|p|p] eqn:Dp; cbn [fst].
    - replace (e - e') with 0 by lia. lia.
    - lia.
    - rewrite Zpos_iter_xO. f_equal. f_equal. lia. }
  rewrite A. clear A.
  assert (N : (if s then Z.neg m else Z.pos m) = cond_Zopp s (Z.pos m))
    by (destruct s; reflexivity).
  rewrite N in H. clear N.
  assert (C : cond_Zopp s (Z.pos m * 2 ^ (e - e'))
              = cond_Zopp s (Z.pos m) * 2 ^ (e - e'))
    by (destruct s; cbn [cond_Zopp]; lia).
  rewrite C. clear C. set (n := cond_Zopp s (Z.pos m)) in *.
  destruct (Z.leb_spec 0 e) as [He|He];
    destruct (Z.leb_spec 0 e') as [He'|He'].
  - rewrite H, <- Z.mul_assoc, <- Z.pow_add_r by lia.
    apply (f_equal (fun k => n * 2 ^ k)). lia.
  - rewrite H, <- Z.mul_assoc, <- Z.pow_add_r by lia.
    apply (f_equal (fun k => n * 2 ^ k)). lia.
  - lia.
  - rewrite H, <- Z.mul_assoc, <- Z.pow_add_r by lia.
    apply (f_equal (fun k => z * 2 ^ k)). lia.
Qed.

Lemma scaled_sub (m1 m2 e z1 z2 : Z) :
  F32.scaled m1 e z1 -> F32.scaled m2 e z2 ->
  F32.scaled (m1 - m2) e (z1 - z2).
Proof. unfold F32.scaled. destruct (0 <=? e); intros -> ->; ring. Qed.

(** The difference of two integers is not rounded when below [2^24] in
    magnitude. *)
Lemma sub_int (x y : float) (a b : Z) :
  F32.int_val x a -> F32.int_val y b -> Z.abs (a - b) < 2 ^ 24 ->
  F32.int_val (F32.sub x y) (a - b).
Proof.
  unfold F32.sub.
  destruct x as [sx|sx| |sx mx ex]; destruct y as [sy|sy| |sy my ey];
    cbn [F32.int_val SFsub]; try contradiction.
  - intros -> -> _. destruct sx, sy; reflexivity.
  - cbv zeta. intros -> H _. destruct (0 <=? ey); destruct sy;
      cbn [negb]; lia.
  - cbv zeta. intros H -> _. rewrite Z.sub_0_r. exact H.
  - intros Ha Hb H. cbv zeta.
    apply binary_normalize_int; [|exact H].
    apply scaled_sub; apply scaled_align; (assumption || lia).
Qed.

(** The conversion of [ceil x - ceil y] to [uint8_t] is the difference of
    the ceilings modulo 256. *)
Lemma to_uint8_ceil_sub (x y : float) :
  F32.is_finite x = true -> F32.is_finite y = true ->
  Z.abs (F32.ceilZ x) < 2 ^ 24 -> Z.abs (F32.ceilZ y) < 2 ^ 24 ->
  Z.abs (F32.ceilZ x - F32.ceilZ y) < 2 ^ 24 ->
  F32.to_uint8 (F32.sub (F32.ceil x) (F32.ceil y))
  = to_u8 (F32.ceilZ x - F32.ceilZ y).
Proof.
  intros Fx Fy Bx By B. unfold F32.to_uint8. f_equal.
  apply truncZ_int, sub_int; [apply ceil_int| apply ceil_int |]; assumption.
Qed.

Lemma to_uint8_ceil (x : float) :
  F32.is_finite x = true -> Z.abs (F32.ceilZ x) < 2 ^ 24 ->
  F32.to_uint8 (F32.ceil x) = to_u8 (F32.ceilZ x).
Proof.
  intros Fx Bx. unfold F32.to_uint8. f_equal.
  apply truncZ_int, ceil_int; assumption.
Qed.

End F32Exact.

(** ** The velocity profile of a fresh block *)

Section Profile.
Variable cfg : config.

Lemma prep_profile_in_steps_fields (d : st_data_t) :
  let d' := prep_profile_in_steps d in
  step_per_mm d' = step_per_mm d /\
  accelerate_until d' = (accelerate_until d * step_per_mm d)%f32 /\
  decelerate_after d' = (decelerate_after d * step_per_mm d)%f32 /\
  maximum_rate d' = (maximum_rate d * step_per_mm d)%f32.
Proof. destruct d; cbn. auto. Qed.

Lemma prep_velocity_profile_step_per_mm b vesq (d : st_data_t) :
  step_per_mm (prep_velocity_profile b vesq d) = step_per_mm d.
Proof.
  unfold prep_velocity_profile.
  repeat match goal with
         | |- context [if ?c then _ else _] => destruct c
         end; destruct d; reflexivity.
Qed.

Lemma prep_fresh_step_per_mm b next (d : st_data_t) :
  step_per_mm (prep_rates b next (prep_new_block_data cfg b d))
  = (F32.of_Z (step_event_count b) / millimeters b)%f32.
Proof. destruct d, next; reflexivity. Qed.

(** The profile in millimeters is the row of the table. *)
Lemma prep_velocity_profile_row b vesq (d : st_data_t) :
  planner_contract b vesq ->
  match profile_table b vesq with
  | Some p =>
      accelerate_until (prep_velocity_profile b vesq d)
      = row_accelerate_until p /\
      decelerate_after (prep_velocity_profile b vesq d)
      = row_decelerate_after p /\
      maximum_rate (prep_velocity_profile b vesq d) = row_maximum_rate p
  | None =>
      F32.is_nan (table_intersection b vesq) = true \/
      F32.is_nan ((nominal_speed_sqr b - vesq)
                  / (F32.two * block_acceleration b))%f32 = true
  end.
Proof.
  intros (HL & H0 & He).
  unfold profile_table, prep_velocity_profile, table_intersection.
  set (i := (F32.half * _)%f32).
  set (dec := ((nominal_speed_sqr b - vesq) / _)%f32).
  destruct (F32.eqb (entry_speed_sqr b) (nominal_speed_sqr b)) eqn:E0;
    destruct (F32.eqb vesq (nominal_speed_sqr b)) eqn:E1; cbn [andb].
  - destruct d; cbn; auto.
  - rewrite (F32Facts.leb_not_eqb_ltb _ _ He E1). destruct d; cbn; auto.
  - rewrite (F32Facts.leb_not_eqb_ltb _ _ H0 E0). destruct d; cbn; auto.
  - assert (Hv : F32.ltb vesq (nominal_speed_sqr b) = true)
      by exact (F32Facts.leb_not_eqb_ltb _ _ He E1).
    rewrite Bool.andb_false_r.
    destruct (F32.ltb F32.zero i) eqn:Ei; cbn [andb].
    + destruct (F32.ltb i (millimeters b)) eqn:EL; cbn [andb].
      * replace (decelerate_after
                   (set_decelerate_after dec
                      (set_accelerate_until (millimeters b) d)))
          with dec by (destruct d; reflexivity).
        destruct (F32.ltb dec i) eqn:Ed.
        -- destruct d; cbn; auto.
        -- destruct (F32.leb i dec) eqn:Ed'.
           ++ destruct d; cbn; auto.
           ++ destruct (F32.leb (millimeters b) i) eqn:EL'.
              ** rewrite (F32Facts.leb_not_ltb _ _ EL') in EL. discriminate.
              ** destruct (F32.leb i F32.zero) eqn:Ez.
                 --- rewrite (F32Facts.leb_not_ltb _ _ Ez) in Ei.
                     discriminate.
                 --- destruct (F32Facts.not_ltb_not_leb _ _ Ed Ed') as [N|N];
                       [right; exact N | left; exact N].
      * destruct (F32.leb (millimeters b) i) eqn:EL'.
        -- destruct d; cbn; auto.
        -- destruct (F32Facts.not_ltb_not_leb _ _ EL EL') as [N|N].
           ++ destruct (F32Facts.ltb_not_nan _ _ Ei) as [_ N'].
              rewrite N in N'. discriminate.
           ++ destruct (F32Facts.ltb_not_nan _ _ HL) as [_ N'].
              rewrite N in N'. discriminate.
    + destruct (F32.leb (millimeters b) i) eqn:EL'.
      * rewrite (F32Facts.zero_ltb_leb _ _ HL EL') in Ei. discriminate.
      * destruct (F32.leb i F32.zero) eqn:Ez.
        -- destruct d; cbn; auto.
        -- destruct (F32Facts.not_ltb_not_leb _ _ Ei Ez) as [N|N].
           ++ discriminate N.
           ++ left; exact N.
Qed.

End Profile.

(** ** The Bresenham line tracer *)

Lemma to_i32_small (z : Z) : int32_range z -> to_i32 z = z.
Proof.
  unfold int32_range, to_i32. intros H.
  rewrite Z.mod_small by lia. lia.
Qed.

Lemma bit_pow2 (n : Z) : 0 <= n -> bit n = 2 ^ n.
Proof. intros H. unfold bit. apply Z.shiftl_1_l. Qed.

Lemma testbit_bit (n i : Z) : 0 <= n -> Z.testbit (bit n) i = (n =? i).
Proof. intros H. rewrite bit_pow2 by assumption. apply Z.pow2_bits_eqb, H. Qed.

Lemma land_bit_eqb (x n : Z) :
  0 <= n -> (Z.land x (bit n) =? 0) = negb (Z.testbit x n).
Proof.
  intros Hn. destruct (Z.testbit x n) eqn:T; cbn [negb].
  - apply Z.eqb_neq. intros H.
    assert (B : Z.testbit (Z.land x (bit n)) n = true).
    { rewrite Z.land_spec, T, testbit_bit, Z.eqb_refl by assumption.
      reflexivity. }
    rewrite H, Z.bits_0 in B. discriminate.
  - apply Z.eqb_eq. apply Z.bits_inj'. intros i Hi.
    rewrite Z.land_spec, testbit_bit, Z.bits_0 by assumption.
    destruct (Z.eqb_spec n i) as [->|]; [rewrite T|];
      auto using Bool.andb_false_r.
Qed.

Lemma testbit_to_u8 (x i : Z) :
  0 <= i < 8 -> Z.testbit (to_u8 x) i = Z.testbit x i.
Proof.
  intros H. unfold to_u8. change 256 with (2 ^ 8).
  rewrite Z.mod_pow2_bits_low by lia. reflexivity.
Qed.

Section Bresenham.
Variable cfg : config.
Variable planner : Type.
Variable b : plan_block_t.
Hypothesis pins : pin_map_ok cfg.

Local Abbreviation globals := (globals planner).

Lemma axis_eqb_spec (a a' : axis) : reflect (a = a') (axis_eqb a a').
Proof. destruct a, a'; constructor; congruence. Qed.

Lemma get_set_counter a o v s :
  get_counter o (set_counter a v s)
  = if axis_eqb a o then v else get_counter o s.
Proof. destruct a, o, s; reflexivity. Qed.

Lemma get_set_axis a o v p :
  get_axis o (set_axis a v p) = if axis_eqb a o then v else get_axis o p.
Proof. destruct a, o, p; reflexivity. Qed.

(** One axis of a step event, seen from axis [o]. *)
Lemma isr_bresenham_axis_spec (a o : axis) (g : globals) :
  let g' := isr_bresenham_axis cfg a b g in
  settings g' = settings g /\
  (forall k, Z.testbit (out_bits (st g')) (direction_bit_of cfg k)
             = Z.testbit (out_bits (st g)) (direction_bit_of cfg k)) /\
  Z.testbit (out_bits (st g')) (step_bit_of cfg o)
  = (axis_eqb a o && axis_wraps b a g)
    || Z.testbit (out_bits (st g)) (step_bit_of cfg o) /\
  get_counter o (st g')
  = (if axis_eqb a o then
       if axis_wraps b a g
       then to_i32 (to_i32 (get_counter a (st g) - get_axis a (steps b))
                    + step_event_count b)
       else to_i32 (get_counter a (st g) - get_axis a (steps b))
     else get_counter o (st g)) /\
  get_axis o (position (sys g'))
  = (if axis_eqb a o && axis_wraps b a g then
       to_i32 (get_axis a (position (sys g))
               + (if Z.testbit (out_bits (st g)) (direction_bit_of cfg a)
                  then -1 else 1))
     else get_axis o (position (sys g))).
Proof.
  destruct pins as (Hs & Hd & Hsd & Hss).
  assert (Hdir : forall x k,
      Z.testbit (to_u8 (Z.lor x (bit (step_bit_of cfg a))))
                (direction_bit_of cfg k)
      = Z.testbit x (direction_bit_of cfg k)).
  { intros x k. rewrite testbit_to_u8 by apply Hd.
    rewrite Z.lor_spec, testbit_bit by apply Hs.
    destruct (Z.eqb_spec (step_bit_of cfg a) (direction_bit_of cfg k))
      as [E|E]; [apply Hsd in E; contradiction|].
    apply Bool.orb_false_r. }
  assert (Hstep : forall x,
      Z.testbit (to_u8 (Z.lor x (bit (step_bit_of cfg a))))
                (step_bit_of cfg o)
      = axis_eqb a o || Z.testbit x (step_bit_of cfg o)).
  { intros x. rewrite testbit_to_u8 by apply Hs.
    rewrite Z.lor_spec, testbit_bit by apply Hs.
    destruct (axis_eqb_spec a o) as [->|Ne].
    - rewrite Z.eqb_refl. apply Bool.orb_true_r.
    - destruct (Z.eqb_spec (step_bit_of cfg a) (step_bit_of cfg o))
        as [E|E]; [apply Hss in E; [contradiction|exact Ne]|].
      apply Bool.orb_false_r. }
  unfold isr_bresenham_axis, axis_wraps, upd_st, upd_sys.
  destruct g as [s sd sb t h nh bz cb cs cd pb pd pi di pf y se r pln].
  destruct s as [cx cy cz cdist sc pc ex spt ob lf].
  destruct y as [ys ye ya [px py pz]].
  specialize (Hdir ob). specialize (Hstep ob).
  assert (Hland :
      negb (Z.land (to_u8 (Z.lor ob (bit (step_bit_of cfg a))))
                   (bit (direction_bit_of cfg a)) =? 0)
      = Z.testbit ob (direction_bit_of cfg a)).
  { rewrite land_bit_eqb, Bool.negb_involutive by apply Hd. apply Hdir. }
  destruct a; cbn in Hdir, Hstep, Hland |- *;
    match goal with
    | |- context [?c <? 0] => destruct (c <? 0) eqn:W
    end; cbn;
    rewrite ?Hland;
    try match goal with
        | |- context [if Z.testbit ob ?k then _ else _] =>
            destruct (Z.testbit ob k) eqn:D; cbn
        end;
    rewrite ?Hstep;
    repeat split; try (intros k; apply Hdir);
    destruct o; cbn; rewrite <- ?Z.sub_1_r, ?Z.add_1_r; reflexivity.
Qed.

Lemma isr_step_event_eq (d : st_data_t) (g : globals) :
  isr_step_event cfg b d g
  = isr_step_end
      (isr_bresenham_axis cfg Z_AXIS b
         (isr_bresenham_axis cfg Y_AXIS b
            (isr_bresenham_axis cfg X_AXIS b (isr_step_begin b d g)))).
Proof. reflexivity. Qed.

Lemma isr_step_begin_spec (d : st_data_t) (g : globals) :
  settings (isr_step_begin b d g) = settings g /\
  sys (isr_step_begin b d g) = sys g /\
  out_bits (st (isr_step_begin b d g)) = direction_bits b /\
  forall a, get_counter a (st (isr_step_begin b d g)) = get_counter a (st g).
Proof.
  destruct g as [s sd sb t h nh bz cb cs cd pb pd pi di pf y se r pln].
  destruct s. repeat split; try (intros a; destruct a; reflexivity).
Qed.

Lemma isr_step_end_spec (g : globals) :
  settings (isr_step_end g) = settings g /\
  sys (isr_step_end g) = sys g /\
  Z.lxor (out_bits (st (isr_step_end g))) (invert_mask (settings g))
  = out_bits (st g) /\
  forall a, get_counter a (st (isr_step_end g)) = get_counter a (st g).
Proof.
  destruct g as [s sd sb t h nh bz cb cs cd pb pd pi di pf y se r pln].
  destruct s. cbn. repeat split; try (intros a; destruct a; reflexivity).
  rewrite Z.lxor_assoc, Z.lxor_nilpotent. apply Z.lxor_0_r.
Qed.

(** A step event, seen from axis [o]. *)
Lemma isr_step_event_axis (o : axis) (d : st_data_t) (g : globals) :
  Z.testbit (direction_bits b) (step_bit_of cfg o) = false ->
  settings (isr_step_event cfg b d g) = settings g /\
  step_bit_raised cfg o (isr_step_event cfg b d g) = axis_wraps b o g /\
  get_counter o (st (isr_step_event cfg b d g))
  = (if axis_wraps b o g
     then to_i32 (to_i32 (get_counter o (st g) - get_axis o (steps b))
                  + step_event_count b)
     else to_i32 (get_counter o (st g) - get_axis o (steps b))) /\
  get_axis o (position (sys (isr_step_event cfg b d g)))
  = (if axis_wraps b o g
     then to_i32 (get_axis o (position (sys g)) + direction_sign cfg b o)
     else get_axis o (position (sys g))).
Proof.
  intros Hdirs. rewrite isr_step_event_eq.
  unfold step_bit_raised, direction_sign.
  destruct (isr_step_begin_spec d g) as (Hse0 & Hsy0 & Hob0 & Hc0).
  generalize dependent (isr_step_begin b d g). intros g0 Hse0 Hsy0 Hob0 Hc0.
  assert (W0 : forall a, axis_wraps b a g0 = axis_wraps b a g).
  { intros a. unfold axis_wraps. rewrite Hc0. reflexivity. }
  pose proof (fun o => isr_bresenham_axis_spec X_AXIS o g0) as SX.
  cbv zeta in SX.
  generalize dependent (isr_bresenham_axis cfg X_AXIS b g0). intros gx SX.
  pose proof (fun o => isr_bresenham_axis_spec Y_AXIS o gx) as SY.
  cbv zeta in SY.
  generalize dependent (isr_bresenham_axis cfg Y_AXIS b gx). intros gy SY.
  pose proof (fun o => isr_bresenham_axis_spec Z_AXIS o gy) as SZ.
  cbv zeta in SZ.
  generalize dependent (isr_bresenham_axis cfg Z_AXIS b gy). intros gz SZ.
  destruct (isr_step_end_spec gz) as (Hse & Hsy & Hob & Hc).
  rewrite Hse, Hob, Hsy, Hc.
  assert (Wx : forall a, a <> X_AXIS -> axis_wraps b a gx = axis_wraps b a g).
  { intros a Ha. rewrite <- W0. unfold axis_wraps.
    destruct (SX a) as (_ & _ & _ & C & _). rewrite C.
    destruct a; try reflexivity. contradiction. }
  assert (Wy : axis_wraps b Z_AXIS gy = axis_wraps b Z_AXIS g).
  { rewrite <- Wx by discriminate. unfold axis_wraps.
    destruct (SY Z_AXIS) as (_ & _ & _ & C & _). rewrite C. reflexivity. }
  assert (Wxy : axis_wraps b Y_AXIS gx = axis_wraps b Y_AXIS g)
    by (apply Wx; discriminate).
  destruct (SX o) as (Sx & Dx & Bx & Cx & Px).
  destruct (SY o) as (Sy & Dy & By & Cy & Py).
  destruct (SZ o) as (Sz & Dz & Bz & Cz & Pz).
  split; [rewrite Sz, Sy, Sx; exact Hse0|].
  destruct o; cbn [axis_eqb andb orb] in Bx, Cx, Px, By, Cy, Py, Bz, Cz, Pz;
    rewrite ?Bz, ?Cz, ?Pz, ?Dz, ?Wy;
    rewrite ?By, ?Cy, ?Py, ?Dy, ?Wxy;
    rewrite ?Bx, ?Cx, ?Px, ?Dx, ?W0;
    rewrite ?Hob0, ?Hsy0, ?Hc0, ?Hdirs;
    rewrite ?Bool.orb_false_r;
    (split; [reflexivity | split; reflexivity]).
Qed.

(** [n] step events on axis [a]: the counter stays in [0, E), it has lost
    [n] times the steps of the axis and gained [E] with every pulse, and the
    position has moved by one count with every pulse. *)
Lemma step_events_axis (a : axis) (d : st_data_t) (n : nat) :
  Z.testbit (direction_bits b) (step_bit_of cfg a) = false ->
  0 <= get_axis a (steps b) <= step_event_count b ->
  step_event_count b < 2 ^ 31 ->
  forall g : globals,
    0 <= get_counter a (st g) < step_event_count b ->
    let w := step_pulses cfg b d a n g in
    let g' := isr_step_events cfg b d n g in
    0 <= w /\
    0 <= get_counter a (st g') < step_event_count b /\
    get_counter a (st g')
    = get_counter a (st g) - Z.of_nat n * get_axis a (steps b)
      + w * step_event_count b /\
    ((forall j, 0 <= j <= w ->
        int32_range (get_axis a (position (sys g))
                     + direction_sign cfg b a * j)) ->
     get_axis a (position (sys g'))
     = get_axis a (position (sys g)) + direction_sign cfg b a * w).
Proof.
  intros Hdirs Hs HE. induction n as [|n IH]; intros g Hc.
  - cbn [step_pulses isr_step_events]. repeat split; try lia.
  - destruct (isr_step_event_axis a d g Hdirs) as (_ & R & C & P).
    cbn [step_pulses isr_step_events].
    set (g1 := isr_step_event cfg b d g) in *.
    assert (Hsub : to_i32 (get_counter a (st g) - get_axis a (steps b))
                   = get_counter a (st g) - get_axis a (steps b)).
    { apply to_i32_small. unfold int32_range. lia. }
    assert (Hc1 : 0 <= get_counter a (st g1) < step_event_count b /\
                  get_counter a (st g1)
                  = get_counter a (st g) - get_axis a (steps b)
                    + (if axis_wraps b a g then 1 else 0)
                      * step_event_count b).
    { rewrite C. unfold axis_wraps. rewrite Hsub.
      destruct (Z.ltb_spec (get_counter a (st g) - get_axis a (steps b)) 0).
      - rewrite to_i32_small by (unfold int32_range; lia). lia.
      - lia. }
    destruct Hc1 as (Hr1 & He1).
    destruct (IH g1 Hr1) as (Hw & Hr & He & Hp). clear IH.
    rewrite R.
    split; [destruct (axis_wraps b a g); lia|].
    split; [exact Hr|].
    split.
    + rewrite He, He1. rewrite Nat2Z.inj_succ. ring.
    + intros Hrange.
      assert (P1 : get_axis a (position (sys g1))
                   = get_axis a (position (sys g))
                     + direction_sign cfg b a
                       * (if axis_wraps b a g then 1 else 0)).
      { rewrite P. destruct (axis_wraps b a g).
        - rewrite Z.mul_1_r. apply to_i32_small.
          specialize (Hrange 1). rewrite Z.mul_1_r in Hrange.
          apply Hrange. lia.
        - lia. }
      rewrite Hp.
      * rewrite P1. ring.
      * intros j Hj. rewrite P1.
        replace (get_axis a (position (sys g))
                 + direction_sign cfg b a
                   * (if axis_wraps b a g then 1 else 0)
                 + direction_sign cfg b a * j)
          with (get_axis a (position (sys g))
                + direction_sign cfg b a
                  * ((if axis_wraps b a g then 1 else 0) + j)) by ring.
        apply Hrange. destruct (axis_wraps b a g); lia.
Qed.

Variable pl : planner_ops planner.

(** Block load (lines 246-261): the block is the planner's current one, the
    three counters start from half its step event count, and [out_bits]
    holds its direction bits. *)
Lemma isr_load_block_spec (g0 g : globals) :
  isr_load_block pl g0 = Some g ->
  exists blk,
    plan_get_current_block pl (plan g0) = Some blk /\
    pl_current_block g = Some blk /\
    (forall a, get_counter a (st g) = Z.shiftr (step_event_count blk) 1) /\
    out_bits (st g) = Z.lxor (direction_bits blk) (invert_mask (settings g0))
    /\ execute_step (st g) = true /\
    step_count (st g) = step_count (st g0) /\
    phase_count (st g) = phase_count (st g0) /\
    sys g = sys g0 /\ settings g = settings g0.
Proof.
  unfold isr_load_block, upd_st.
  destruct g0 as [s sd sb t h nh bz cb cs cd pb pd pi di pf y se r pln].
  cbn.
  destruct (index sb t) as [seg|]; [|discriminate].
  destruct (plan_get_current_block pl pln) as [blk|]; [|discriminate].
  destruct (index sd (st_data_index seg)) as [dd|]; [|discriminate].
  intros H. injection H as <-. exists blk. destruct s.
  repeat split; try (intros a; destruct a; reflexivity).
Qed.

(** C2.  Across the [step_event_count] step events of a block that follow
    its load, the interrupt raises the step bit of each axis exactly
    [steps[axis]] times and moves [sys.position[axis]] by exactly
    [steps[axis]] counts, down when the direction bit of the axis is set and
    up otherwise.  The six pins are distinct bits of the port, the block
    has at most [step_event_count] steps per axis and no step bit among its
    direction bits, and the position stays within [int32_t]. *)
Theorem bresenham_steps_exact (a : axis) (d : st_data_t) (g0 g : globals) :
  isr_load_block pl g0 = Some g ->
  plan_get_current_block pl (plan g0) = Some b ->
  Z.testbit (direction_bits b) (step_bit_of cfg a) = false ->
  0 <= get_axis a (steps b) <= step_event_count b ->
  step_event_count b < 2 ^ 31 ->
  int32_range (get_axis a (position (sys g))) ->
  int32_range (get_axis a (position (sys g))
               + direction_sign cfg b a * get_axis a (steps b)) ->
  let n := Z.to_nat (step_event_count b) in
  step_pulses cfg b d a n g = get_axis a (steps b) /\
  get_axis a (position (sys (isr_step_events cfg b d n g)))
  = get_axis a (position (sys g))
    + direction_sign cfg b a * get_axis a (steps b).
Proof.
  intros Hload Hcur Hdirs Hs HE Hp0 Hp1 n.
  destruct (isr_load_block_spec _ Hload) as (b' & Hcur' & _ & Hc & _).
  assert (Hb : b' = b) by (rewrite Hcur in Hcur'; injection Hcur'; auto).
  subst b'.
  specialize (Hc a).
  destruct (Z.eq_dec (step_event_count b) 0) as [E0|E0].
  - assert (S0 : get_axis a (steps b) = 0) by lia.
    subst n. rewrite E0, S0. cbn [Z.to_nat step_pulses isr_step_events].
    split; lia.
  - assert (Hc0 : 0 <= get_counter a (st g) < step_event_count b).
    { rewrite Hc, Z.shiftr_div_pow2 by lia. change (2 ^ 1) with 2.
      split; [apply Z.div_pos; lia | apply Z.div_lt; lia]. }
    destruct (step_events_axis a d n Hdirs Hs HE g Hc0)
      as (Hw & Hr & He & Hp).
    cbv zeta in Hw, Hr, He, Hp.
    assert (Hn : Z.of_nat n = step_event_count b)
      by (subst n; apply Z2Nat.id; lia).
    rewrite Hn in He.
    assert (W : step_pulses cfg b d a n g = get_axis a (steps b)) by nia.
    split; [exact W|].
    rewrite Hp, W; [reflexivity|].
    intros j Hj. rewrite W in Hj.
    unfold int32_range, direction_sign in *.
    destruct (Z.testbit (direction_bits b) (direction_bit_of cfg a)); lia.
Qed.

End Bresenham.

(** ** The segment ring *)

Ltac destruct_innermost x :=
  lazymatch x with
  | context [match ?y with _ => _ end] => destruct_innermost y
  | _ => destruct x eqn:?
  end.

Ltac split_match H :=
  repeat match type of H with
         | context [match ?x with _ => _ end] =>
             destruct_innermost x; try discriminate H
         end.

Section Ring.
Variable cfg : config.
Variable planner : Type.
Variable pl : planner_ops planner.

Local Abbreviation globals := (globals planner).

Lemma prep_load_block_ring (g : globals) (r : prep_round planner) :
  prep_load_block cfg pl g = Some r ->
  match r with Continue g' | Return g' => ring_of g' = ring_of g end.
Proof.
  unfold prep_load_block. intros H. split_match H;
    injection H as <-; reflexivity.
Qed.

Lemma prep_segment_ring (g g' : globals) :
  prep_segment cfg pl g = Some g' ->
  ring_of g'
  = (segment_buffer_tail g, segment_next_head g,
     next_index (segment_next_head g)).
Proof.
  unfold prep_segment, toggle_spindle_enable, upd_io.
  destruct g as [s sd sb t h nh bz cb cs cd pb pd pi di pf y se r pln].
  cbn. intros H. split_match H;
    injection H as <-; unfold ring_of, next_index; cbn in *;
    match goal with
    | E : (_ =? SEGMENT_BUFFER_SIZE) = _ |- _ => rewrite E
    end; reflexivity.
Qed.

Lemma st_prep_round_ring (g : globals) (r : prep_round planner) :
  st_prep_round cfg pl g = Some r ->
  match r with
  | Continue g' =>
      ring_of g'
      = (segment_buffer_tail g, segment_next_head g,
         next_index (segment_next_head g))
  | Return g' => ring_of g' = ring_of g
  end.
Proof.
  unfold st_prep_round. intros H.
  destruct (index (segment_buffer g) (segment_buffer_head g)); [|discriminate].
  destruct (store _ _ _) as [sb|]; [|discriminate].
  destruct (prep_load_block cfg pl (set_segment_buffer sb g)) as [r0|] eqn:L;
    [|discriminate].
  apply prep_load_block_ring in L.
  destruct r0 as [g1|g1].
  - destruct (prep_segment cfg pl g1) as [g2|] eqn:S; [|discriminate].
    injection H as <-. apply prep_segment_ring in S. rewrite S.
    unfold ring_of in L. cbn in L. injection L as -> _ ->. reflexivity.
  - injection H as <-. exact L.
Qed.

Lemma next_index_range (i : Z) :
  0 <= i < SEGMENT_BUFFER_SIZE ->
  next_index i = (i + 1) mod SEGMENT_BUFFER_SIZE /\
  0 <= next_index i < SEGMENT_BUFFER_SIZE.
Proof.
  unfold next_index, to_u8, SEGMENT_BUFFER_SIZE. intros H.
  rewrite (Z.mod_small (i + 1) 256) by lia.
  destruct (Z.eqb_spec (i + 1) 6) as [E|E].
  - rewrite E. split; [reflexivity | lia].
  - rewrite Z.mod_small by lia. lia.
Qed.

Lemma ring_inv_next (g g' : globals) :
  ring_inv g ->
  ring_of g' = (segment_buffer_tail g, segment_next_head g,
                next_index (segment_next_head g)) ->
  ring_inv g'.
Proof.
  unfold ring_inv, ring_of. intros (Ht & Hh & Hn) E. injection E as -> -> ->.
  assert (R : 0 <= segment_next_head g < SEGMENT_BUFFER_SIZE).
  { rewrite Hn. apply Z.mod_pos_bound. reflexivity. }
  destruct (next_index_range R) as (E1 & E2). auto.
Qed.

Lemma ring_inv_same (g g' : globals) :
  ring_inv g -> ring_of g' = ring_of g -> ring_inv g'.
Proof.
  unfold ring_inv, ring_of. intros H E. injection E as -> -> ->. exact H.
Qed.

Lemma st_prep_loop_ring (n : nat) (g g' : globals) :
  ring_inv g -> st_prep_loop cfg pl n g = Some g' -> ring_inv g'.
Proof.
  revert g. induction n as [|n IH]; intros g Hg; cbn [st_prep_loop];
    destruct (segment_buffer_tail g =? segment_next_head g);
    try (intros H; injection H as <-; exact Hg); try discriminate.
  destruct (st_prep_round cfg pl g) as [[g1|g1]|] eqn:R; try discriminate;
    apply st_prep_round_ring in R.
  - apply IH. exact (ring_inv_next Hg R).
  - intros H. injection H as <-. exact (ring_inv_same Hg R).
Qed.

(** More rounds than the ring has free slots change nothing: the loop of
    [st_prep_buffer] ends of itself, within [SEGMENT_BUFFER_SIZE] rounds. *)
Lemma st_prep_loop_fuel (n m : nat) (g : globals) :
  ring_inv g -> (rounds_left g <= n)%nat -> (n <= m)%nat ->
  st_prep_loop cfg pl m g = st_prep_loop cfg pl n g.
Proof.
  revert m g. induction n as [|n IH]; intros m g Hg Hn Hm.
  - assert (E : segment_buffer_tail g = segment_next_head g).
    { destruct Hg as (Ht & Hh & Hnh). unfold rounds_left in Hn.
      assert (R : 0 <= segment_next_head g < SEGMENT_BUFFER_SIZE)
        by (rewrite Hnh; apply Z.mod_pos_bound; reflexivity).
      unfold SEGMENT_BUFFER_SIZE in *.
      assert ((segment_buffer_tail g - segment_next_head g) mod 6 = 0)
        by (pose proof (Z.mod_pos_bound
                          (segment_buffer_tail g - segment_next_head g) 6);
            lia).
      apply Z.mod_divide in H; [|lia]. destruct H as [k Hk]. lia. }
    destruct m; cbn [st_prep_loop]; rewrite E, Z.eqb_refl; reflexivity.
  - destruct m as [|m]; [lia|]. cbn [st_prep_loop].
    destruct (Z.eqb_spec (segment_buffer_tail g) (segment_next_head g))
      as [E|E]; [reflexivity|].
    destruct (st_prep_round cfg pl g) as [[g1|g1]|] eqn:R; try reflexivity.
    apply st_prep_round_ring in R.
    apply IH; [exact (ring_inv_next Hg R) | | lia].
    unfold rounds_left in *. unfold ring_of in R. injection R as -> _ ->.
    destruct Hg as (Ht & Hh & Hnh).
    assert (Rn : 0 <= segment_next_head g < SEGMENT_BUFFER_SIZE)
      by (rewrite Hnh; apply Z.mod_pos_bound; reflexivity).
    destruct (next_index_range Rn) as (-> & _).
    unfold SEGMENT_BUFFER_SIZE in *.
    assert (M : (segment_buffer_tail g - (segment_next_head g + 1) mod 6)
                mod 6
                = (segment_buffer_tail g - segment_next_head g) mod 6 - 1).
    { set (t := segment_buffer_tail g) in *.
      set (x := segment_next_head g) in *.
      assert (Hx : x = 0 \/ x = 1 \/ x = 2 \/ x = 3 \/ x = 4 \/ x = 5) by lia.
      assert (Hy : t = 0 \/ t = 1 \/ t = 2 \/ t = 3 \/ t = 4 \/ t = 5) by lia.
      destruct Hx as [->|[->|[->|[->|[->| ->]]]]];
        destruct Hy as [->|[->|[->|[->|[->| ->]]]]];
        try reflexivity; exfalso; apply E; reflexivity. }
    rewrite M. lia.
Qed.

Lemma isr_pulse_ring (g : globals) :
  ring_of (isr_pulse cfg g) = ring_of g.
Proof. unfold isr_pulse. destruct (execute_step (st g)); reflexivity. Qed.

Lemma st_go_idle_ring (g : globals) :
  ring_of (st_go_idle cfg g) = ring_of g.
Proof.
  unfold st_go_idle.
  repeat match goal with
         | |- context [if ?c then _ else _] => destruct c
         end; reflexivity.
Qed.

Lemma isr_load_block_ring (g g' : globals) :
  isr_load_block pl g = Some g' -> ring_of g' = ring_of g.
Proof.
  unfold isr_load_block. intros H. split_match H.
  injection H as <-. reflexivity.
Qed.

Lemma isr_load_segment_ring (g : globals) (r : isr_load planner) :
  isr_load_segment cfg pl g = Some r ->
  match r with Proceed g' | Leave g' => ring_of g' = ring_of g end.
Proof.
  unfold isr_load_segment. intros H.
  destruct (negb (load_flag (st g) =? LOAD_NOOP)).
  - destruct (negb (segment_buffer_head g =? segment_buffer_tail g)).
    + cbn [st_current_segment set_st_current_segment] in H.
      destruct (index _ _) as [seg|]; [|discriminate].
      destruct (load_flag _ =? LOAD_BLOCK).
      * destruct (isr_load_block pl _) as [g1|] eqn:L; [|discriminate].
        injection H as <-. apply isr_load_block_ring in L. exact L.
      * injection H as <-. reflexivity.
    + injection H as <-. exact (st_go_idle_ring (set_busy (busy g) g)).
  - injection H as <-. reflexivity.
Qed.

Lemma isr_inverse_time_ring (g g' : globals) :
  isr_inverse_time cfg g = Some g' -> ring_of g' = ring_of g.
Proof.
  unfold isr_inverse_time. intros H. split_match H;
    injection H as <-; try reflexivity.
  rewrite isr_step_event_eq. unfold isr_step_end, isr_bresenham_axis.
  repeat match goal with
         | |- context [if ?c then _ else _] => destruct c
         end; reflexivity.
Qed.

Lemma isr_segment_complete_ring (g g' : globals) :
  isr_segment_complete pl g = Some g' ->
  ring_of g' = ring_of g \/
  ring_of g' = (next_index (segment_buffer_tail g), segment_buffer_head g,
                segment_next_head g).
Proof.
  unfold isr_segment_complete, upd_st.
  destruct g as [s sd sb t h nh bz cb cs cd pb pd pi di pf y se r pln].
  cbn. intros H. split_match H; injection H as <-;
    unfold ring_of, next_index; cbn in *;
    try (left; reflexivity);
    right;
    match goal with
    | E : (_ =? SEGMENT_BUFFER_SIZE) = _ |- _ => rewrite E
    end; reflexivity.
Qed.

Lemma TIMER2_COMPA_vect_ring (g g' : globals) :
  ring_inv g -> TIMER2_COMPA_vect cfg pl g = Some g' -> ring_inv g'.
Proof.
  intros Hg. unfold TIMER2_COMPA_vect.
  destruct (busy g); [intros H; injection H as <-; exact Hg|].
  destruct (isr_load_segment cfg pl _) as [[g1|g1]|] eqn:L; try discriminate;
    apply isr_load_segment_ring in L;
    assert (H1 : ring_inv g1)
      by (apply (ring_inv_same Hg); rewrite L; apply isr_pulse_ring).
  - destruct (isr_inverse_time cfg g1) as [g2|] eqn:I; [|discriminate].
    apply isr_inverse_time_ring in I.
    destruct (isr_segment_complete pl g2) as [g3|] eqn:C; [|discriminate].
    intros H. injection H as <-.
    apply isr_segment_complete_ring in C.
    assert (H2 : ring_inv g2) by exact (ring_inv_same H1 I).
    destruct C as [C|C].
    + apply (ring_inv_same H2). exact C.
    + destruct H2 as (Ht & Hh & Hn).
      destruct (next_index_range Ht) as (_ & Hr).
      unfold ring_inv, ring_of in *. cbn. injection C as -> -> ->. auto.
  - intros H. injection H as <-. exact H1.
Qed.

Lemma st_reset_ring (g : globals) :
  ring_of (st_reset g) = (0, 0, 1) /\ ring_inv (st_reset g).
Proof. split; [reflexivity|]. unfold ring_inv. cbn. repeat split; lia. Qed.

Lemma segment_count_empty_full (g : globals) :
  ring_inv g ->
  0 <= segment_count g <= SEGMENT_BUFFER_SIZE - 1 /\
  (ring_empty g = true <-> segment_count g = 0) /\
  (ring_full g = true <-> segment_count g = SEGMENT_BUFFER_SIZE - 1).
Proof.
  unfold ring_inv, segment_count, ring_empty, ring_full, SEGMENT_BUFFER_SIZE.
  intros (Ht & Hh & ->).
  set (t := segment_buffer_tail g) in *.
  set (h := segment_buffer_head g) in *.
  rewrite !Z.eqb_eq.
  assert (Hx : h = 0 \/ h = 1 \/ h = 2 \/ h = 3 \/ h = 4 \/ h = 5) by lia.
  assert (Hy : t = 0 \/ t = 1 \/ t = 2 \/ t = 3 \/ t = 4 \/ t = 5) by lia.
  destruct Hx as [->|[->|[->|[->|[->| ->]]]]];
    destruct Hy as [->|[->|[->|[->|[->| ->]]]]];
    cbn; repeat split; intros; lia.
Qed.

End Ring.

(** ** [st_prep_buffer] returns *)

Lemma index_some {A : Type} (l : list A) (i : Z) :
  0 <= i < Z.of_nat (length l) -> exists x, index l i = Some x.
Proof.
  intros H. unfold index. destruct (Z.ltb_spec i 0) as [N|N]; [lia|].
  destruct (nth_error l (Z.to_nat i)) as [x|] eqn:E; [eauto|].
  apply nth_error_None in E. lia.
Qed.

Lemma list_set_some {A : Type} (l : list A) (n : nat) (x : A) :
  (n < length l)%nat ->
  exists l', list_set l n x = Some l' /\ length l' = length l.
Proof.
  revert n. induction l as [|h t IH]; intros n H; cbn in H; [lia|].
  destruct n as [|n]; cbn [list_set].
  - eexists. split; reflexivity.
  - destruct (IH n) as (t' & -> & L); [lia|].
    eexists. split; [reflexivity|]. cbn. rewrite L. reflexivity.
Qed.

Lemma store_some {A : Type} (l : list A) (i : Z) (x : A) :
  0 <= i < Z.of_nat (length l) ->
  exists l', store l i x = Some l' /\ length l' = length l.
Proof.
  intros H. unfold store. destruct (Z.ltb_spec i 0) as [N|N]; [lia|].
  apply list_set_some. lia.
Qed.

Ltac use_index :=
  match goal with
  | |- context [index ?l ?i] =>
      let x := fresh "x" in
      let E := fresh "E" in
      destruct (@index_some _ l i) as (x & E); [lia|]; rewrite E
  end.

Ltac use_store :=
  match goal with
  | |- context [store ?l ?i ?v] =>
      let x := fresh "l" in
      let E := fresh "E" in
      let L := fresh "L" in
      destruct (@store_some _ l i v) as (x & E & L); [lia|]; rewrite E
  end.

Section PrepReturns.
Variable cfg : config.
Variable planner : Type.
Variable pl : planner_ops planner.

Local Abbreviation globals := (globals planner).

Lemma prep_load_block_returns (g : globals) :
  prep_inv g ->
  exists r, prep_load_block cfg pl g = Some r /\
    match r with
    | Return g' => prep_inv g'
    | Continue g' =>
        prep_inv g' /\
        exists j, st_prep_data g' = Some j /\ 0 <= j < SEGMENT_BUFFER_SIZE - 1
    end.
Proof.
  unfold prep_inv, prep_load_block, toggle_spindle_enable, upd_io.
  destruct g as [s sd sb t h nh bz cb cs cd pb pd pi di pf y se r pln].
  cbn. intros (Lb & Ld & Hi & Hp).
  destruct pb as [blk|].
  - eexists. split; [reflexivity|]. cbn.
    assert (P : exists j, pd = Some j /\ 0 <= j < 5)
      by (apply Hp; left; discriminate).
    repeat split; auto; lia.
  - destruct (plan_get_block_by_index pl pln pi) as [blk|].
    + assert (Hw : to_u8 (di + 1) = di + 1).
      { unfold to_u8. apply Z.mod_small. lia. }
      rewrite Hw.
      assert (P : pf = true -> exists j, pd = Some j /\ 0 <= j < 5)
        by (intros ->; apply Hp; right; reflexivity).
      destruct (Z.eqb_spec (di + 1) 5) as [W|W]; cbn;
        (destruct pf;
         [destruct (P eq_refl) as (j & -> & Hj); use_index | ]);
        use_index; use_store;
        (eexists; split; [reflexivity|]); cbn;
        repeat split; try lia; eauto; try (eexists; split; [reflexivity|lia]).
    + eexists. split; [reflexivity|]. cbn. repeat split; auto; lia.
Qed.

Lemma prep_segment_returns (g : globals) :
  prep_inv g -> ring_inv g ->
  (exists j, st_prep_data g = Some j /\ 0 <= j < SEGMENT_BUFFER_SIZE - 1) ->
  exists g', prep_segment cfg pl g = Some g' /\ prep_inv g'.
Proof.
  unfold prep_inv, ring_inv, prep_segment, toggle_spindle_enable, upd_io.
  destruct g as [s sd sb t h nh bz cb cs cd pb pd pi di pf y se r pln].
  cbn. intros (Lb & Ld & Hi & Hp) (Ht & Hh & Hn) (j & -> & Hj).
  unfold SEGMENT_BUFFER_SIZE in *.
  do 2 use_index.
  destruct (prep_end_of_block cfg x0); cbn;
    do 2 use_store;
    destruct (to_u8 (nh + 1) =? 6); cbn;
    (eexists; split; [reflexivity|]); cbn;
    repeat split; try lia; intros;
    (eexists; split; [reflexivity|lia]).
Qed.

Lemma st_prep_round_returns (g : globals) :
  prep_inv g -> ring_inv g ->
  exists r, st_prep_round cfg pl g = Some r /\
    match r with Continue g' | Return g' => prep_inv g' end.
Proof.
  intros Hp Hr. unfold st_prep_round.
  destruct Hp as (Lb & Ld & Hi & Hp). pose proof Hr as (Ht & Hh & Hn).
  unfold SEGMENT_BUFFER_SIZE in *.
  use_index. use_store.
  assert (Hp1 : prep_inv (set_segment_buffer l g)).
  { unfold prep_inv, SEGMENT_BUFFER_SIZE.
    destruct g; cbn in *. repeat split; auto; lia. }
  assert (Hr1 : ring_inv (set_segment_buffer l g))
    by (destruct g; exact Hr).
  destruct (prep_load_block_returns Hp1) as (r0 & L0 & H1).
  rewrite L0. apply prep_load_block_ring in L0.
  destruct r0 as [g1|g1].
  - destruct H1 as (H1 & Hj).
    assert (Hr2 : ring_inv g1) by exact (ring_inv_same Hr1 L0).
    destruct (prep_segment_returns H1 Hr2 Hj) as (g2 & -> & H2).
    eexists. split; [reflexivity|]. exact H2.
  - eexists. split; [reflexivity|]. exact H1.
Qed.

Lemma st_prep_loop_returns (n : nat) (g : globals) :
  prep_inv g -> ring_inv g -> (rounds_left g <= n)%nat ->
  exists g', st_prep_loop cfg pl n g = Some g' /\ prep_inv g'.
Proof.
  intros Hp Hr Hn.
  rewrite (st_prep_loop_fuel cfg pl (n := rounds_left g) (m := n) Hr)
    by lia.
  clear Hn. remember (rounds_left g) as k eqn:Ek.
  assert (Hk : (rounds_left g <= k)%nat) by lia. clear Ek.
  revert g Hp Hr Hk. induction k as [|k IH]; intros g Hp Hr Hk.
  - cbn [st_prep_loop].
    destruct (segment_buffer_tail g =? segment_next_head g) eqn:E.
    + eauto.
    + exfalso. apply Z.eqb_neq in E. apply E.
      unfold rounds_left in Hk. destruct Hr as (Ht & Hh & Hnh).
      assert (R : 0 <= segment_next_head g < SEGMENT_BUFFER_SIZE)
        by (rewrite Hnh; apply Z.mod_pos_bound; reflexivity).
      unfold SEGMENT_BUFFER_SIZE in *.
      assert (M : (segment_buffer_tail g - segment_next_head g) mod 6 = 0)
        by (pose proof (Z.mod_pos_bound
                          (segment_buffer_tail g - segment_next_head g) 6);
            lia).
      apply Z.mod_divide in M; [|lia]. destruct M as [q Hq]. lia.
  - cbn [st_prep_loop].
    destruct (Z.eqb_spec (segment_buffer_tail g) (segment_next_head g))
      as [E|E]; [eauto|].
    destruct (st_prep_round_returns Hp Hr) as (r & R & H1).
    rewrite R. pose proof (st_prep_round_ring cfg pl g R) as R1.
    destruct r as [g1|g1]; [|eauto].
    assert (Hr1 : ring_inv g1) by exact (ring_inv_next Hr R1).
    apply IH; [exact H1 | exact Hr1 |].
    unfold rounds_left in *. unfold ring_of in R1. injection R1 as -> _ ->.
    destruct Hr as (Ht & Hh & Hnh).
    assert (Rn : 0 <= segment_next_head g < SEGMENT_BUFFER_SIZE)
      by (rewrite Hnh; apply Z.mod_pos_bound; reflexivity).
    destruct (next_index_range Rn) as (-> & _).
    unfold SEGMENT_BUFFER_SIZE in *.
    set (t := segment_buffer_tail g) in *.
    set (x := segment_next_head g) in *.
    assert (Hx : x = 0 \/ x = 1 \/ x = 2 \/ x = 3 \/ x = 4 \/ x = 5) by lia.
    assert (Hy : t = 0 \/ t = 1 \/ t = 2 \/ t = 3 \/ t = 4 \/ t = 5) by lia.
    destruct Hx as [Hx|[Hx|[Hx|[Hx|[Hx|Hx]]]]];
      destruct Hy as [Hy|[Hy|[Hy|[Hy|[Hy|Hy]]]]];
      rewrite Hx, Hy in Hk |- *; cbn in Hk |- *; lia.
Qed.

(** [st_prep_buffer] returns: from globals whose ring indices and preparer
    pointers are in order it ends without a fault, and leaves them in
    order. *)
Lemma st_prep_buffer_returns (g : globals) :
  prep_inv g -> ring_inv g ->
  exists g', st_prep_buffer cfg pl g = Some g' /\ prep_inv g' /\ ring_inv g'.
Proof.
  intros Hp Hr. unfold st_prep_buffer.
  assert (L : exists g', st_prep_loop cfg pl (Z.to_nat SEGMENT_BUFFER_SIZE) g
                         = Some g' /\ prep_inv g').
  { apply st_prep_loop_returns; auto. unfold rounds_left.
    pose proof (Z.mod_pos_bound
                  (segment_buffer_tail g - segment_next_head g)
                  SEGMENT_BUFFER_SIZE eq_refl). lia. }
  destruct L as (g' & L & Hp').
  pose proof (st_prep_loop_ring cfg pl _ Hr L) as Hr'.
  destruct (state (sys g)); eauto.
Qed.

End PrepReturns.

(** ** The step events of a block, summed over its segments *)

Section BlockSegments.
Variable cfg : config.

Lemma prep_segment_data_remaining (d : st_data_t) :
  step_events_remaining (prep_segment_data cfg d)
  = steps_remaining (prep_segment_locals cfg d).
Proof.
  unfold prep_segment_data. destruct (prep_data _). reflexivity.
Qed.

(** [n_step] of an emitted segment does not depend on what the slot of the
    ring held before. *)
Lemma prep_segment_emit_n_step (d : st_data_t) (seg : st_segment_t) :
  n_step (prep_segment_emit cfg d seg)
  = if prep_end_of_block cfg d
    then F32.to_uint8 (F32.ceil (step_events_remaining d))
    else F32.to_uint8
           (F32.ceil (step_events_remaining d)
            - F32.ceil (steps_remaining (prep_segment_locals cfg d)))%f32.
Proof.
  unfold prep_segment_emit, prep_end_of_block.
  destruct (F32.ltb F32.zero (steps_remaining (prep_segment_locals cfg d)));
    destruct seg; reflexivity.
Qed.

(** [n_step] is an 8-bit value. *)
Lemma prep_segment_emit_n_step_range (d : st_data_t) (seg : st_segment_t) :
  0 <= n_step (prep_segment_emit cfg d seg) < 256.
Proof.
  rewrite prep_segment_emit_n_step.
  destruct (prep_end_of_block cfg d); unfold F32.to_uint8, to_u8;
    apply Z.mod_pos_bound; reflexivity.
Qed.

(** The segment that ends the block is the last of the list and the only
    one flagged. *)
Lemma prep_block_segments_nonempty (n : nat) (d : st_data_t) tr :
  prep_block_segments cfg n d = Some tr -> tr <> [].
Proof.
  destruct n as [|n]; cbn [prep_block_segments]; [discriminate|].
  destruct (prep_end_of_block cfg d).
  - intros H. injection H as <-. discriminate.
  - destruct (prep_block_segments cfg n _); [|discriminate].
    intros H. injection H as <-. discriminate.
Qed.

Lemma sum_exact_segments (n : nat) (d : st_data_t) tr :
  prep_block_segments cfg n d = Some tr ->
  Forall (n_step_exact cfg) tr ->
  sum_n_step tr = F32.ceilZ (step_events_remaining d).
Proof.
  revert d tr. induction n as [|n IH]; intros d tr; cbn [prep_block_segments];
    [discriminate|].
  destruct (prep_end_of_block cfg d) eqn:E.
  - intros H F. injection H as <-. inversion_clear F as [|? ? X _].
    unfold n_step_exact, segment_step_events in X. cbn [fst snd] in X.
    rewrite E in X. unfold sum_n_step. cbn [fold_right snd]. lia.
  - destruct (prep_block_segments cfg n (prep_segment_data cfg d))
      as [tr'|] eqn:R; [|discriminate].
    intros H F. injection H as <-. inversion_clear F as [|? ? X F'].
    unfold n_step_exact, segment_step_events in X. cbn [fst snd] in X.
    rewrite E in X.
    specialize (IH _ _ R F'). rewrite prep_segment_data_remaining in IH.
    unfold sum_n_step in *. cbn [fold_right snd]. lia.
Qed.

(** A segment whose step events fit [n_step] holds them without loss. *)
Lemma n_step_fits_exact (d : st_data_t) (seg : st_segment_t) :
  n_step_fits cfg d = true ->
  n_step (prep_segment_emit cfg d seg) = segment_step_events cfg d.
Proof.
  unfold n_step_fits. cbv zeta. intros H.
  apply andb_prop in H. destruct H as (H & U).
  apply andb_prop in H. destruct H as (H & L).
  apply andb_prop in H. destruct H as (H & B).
  apply andb_prop in H. destruct H as (Fa & Ba).
  apply Z.ltb_lt in U, Ba. apply Z.leb_le in L.
  rewrite prep_segment_emit_n_step. unfold segment_step_events in *.
  destruct (prep_end_of_block cfg d).
  - rewrite F32Exact.to_uint8_ceil by assumption.
    unfold to_u8. apply Z.mod_small. lia.
  - cbn [orb] in B. apply andb_prop in B. destruct B as (Fb & Bb).
    apply Z.ltb_lt in Bb.
    change (F32.ceil (step_events_remaining d)
            - F32.ceil (steps_remaining (prep_segment_locals cfg d)))%f32
      with (F32.sub (F32.ceil (step_events_remaining d))
              (F32.ceil (steps_remaining (prep_segment_locals cfg d)))).
    rewrite F32Exact.to_uint8_ceil_sub by (assumption || lia).
    unfold to_u8. apply Z.mod_small. lia.
Qed.

Lemma fits_exact_segments (n : nat) (d : st_data_t) tr :
  prep_block_segments cfg n d = Some tr ->
  forallb (fun x => n_step_fits cfg (fst x)) tr = true ->
  Forall (n_step_exact cfg) tr.
Proof.
  revert d tr. induction n as [|n IH]; intros d tr; cbn [prep_block_segments];
    [discriminate|].
  destruct (prep_end_of_block cfg d) eqn:E.
  - intros H F. injection H as <-. cbn [forallb fst] in F.
    apply andb_prop in F. destruct F as (F & _).
    constructor; [|constructor].
    unfold n_step_exact. cbn [fst snd]. apply n_step_fits_exact, F.
  - destruct (prep_block_segments cfg n (prep_segment_data cfg d))
      as [tr'|] eqn:R; [|discriminate].
    intros H F. injection H as <-. cbn [forallb fst] in F.
    apply andb_prop in F. destruct F as (F & F').
    constructor; [|exact (IH _ _ R F')].
    unfold n_step_exact. cbn [fst snd]. apply n_step_fits_exact, F.
Qed.

Lemma prep_block_data_remaining (b : plan_block_t)
    (next : option plan_block_t) (d : st_data_t) :
  step_events_remaining (prep_block_data cfg b next None d)
  = F32.of_Z (step_event_count b).
Proof.
  unfold prep_block_data, prep_profile_in_steps, prep_velocity_profile,
    prep_rates.
  repeat match goal with
         | |- context [if ?c then _ else _] => destruct c
         | |- context [match ?c with Some _ => _ | None => _ end] =>
             destruct c
         end; destruct d; reflexivity.
Qed.

End BlockSegments.

(** ** Buffer underrun and the partial-block query *)

Section Underrun.
Variable cfg : config.
Variable planner : Type.
Variable pl : planner_ops planner.

Local Abbreviation globals := (globals planner).

Lemma isr_underrun_eq (g : globals) :
  busy g = false ->
  load_flag (st g) <> LOAD_NOOP ->
  segment_buffer_head g = segment_buffer_tail g ->
  TIMER2_COMPA_vect cfg pl g
  = Some (upd_sys (fun s => set_execute
                     (bit_true (execute s) (EXEC_CYCLE_STOP cfg)) s)
            (st_go_idle cfg (isr_pulse cfg g))).
Proof.
  intros Hb Hl He. unfold TIMER2_COMPA_vect. rewrite Hb.
  unfold isr_load_segment.
  assert (H1 : load_flag (st (set_busy true (isr_pulse cfg g)))
               = load_flag (st g))
    by (unfold isr_pulse; destruct (execute_step (st g)); reflexivity).
  assert (H2 : segment_buffer_head (set_busy true (isr_pulse cfg g))
               = segment_buffer_head g)
    by (unfold isr_pulse; destruct (execute_step (st g)); reflexivity).
  assert (H3 : segment_buffer_tail (set_busy true (isr_pulse cfg g))
               = segment_buffer_tail g)
    by (unfold isr_pulse; destruct (execute_step (st g)); reflexivity).
  rewrite H1, H2, H3, He, Z.eqb_refl.
  destruct (Z.eqb_spec (load_flag (st g)) LOAD_NOOP) as [E|E];
    [contradiction|].
  reflexivity.
Qed.

Lemma st_go_idle_spec (g : globals) :
  st (st_go_idle cfg g) = st g /\
  sys (st_go_idle cfg g) = sys g /\
  ring_of (st_go_idle cfg g) = ring_of g /\
  segment_buffer (st_go_idle cfg g) = segment_buffer g /\
  busy (st_go_idle cfg g) = false /\
  TIMSK2 (io (st_go_idle cfg g))
  = bit_false (TIMSK2 (io g)) (bit (OCIE2A cfg)) /\
  TCCR2B (io (st_go_idle cfg g)) = 0 /\
  STEPPING_PORT (io (st_go_idle cfg g)) = STEPPING_PORT (io g).
Proof.
  unfold st_go_idle.
  repeat match goal with
         | |- context [if ?c then _ else _] => destruct c
         end; repeat split; reflexivity.
Qed.

Lemma isr_pulse_spec (g : globals) :
  st (isr_pulse cfg g) = set_execute_step false (st g) /\
  sys (isr_pulse cfg g) = sys g /\
  ring_of (isr_pulse cfg g) = ring_of g /\
  segment_buffer (isr_pulse cfg g) = segment_buffer g /\
  TIMSK2 (io (isr_pulse cfg g)) = TIMSK2 (io g).
Proof.
  unfold isr_pulse. destruct (execute_step (st g)) eqn:E.
  - repeat split; reflexivity.
  - repeat split; try reflexivity.
    destruct (st g); cbn in E |- *. rewrite E. reflexivity.
Qed.

(** C8 (as the code has it).  When the interrupt runs with a load pending
    and finds the ring empty, it returns after [st_go_idle] with
    [EXEC_CYCLE_STOP] set in [sys.execute].  [st_go_idle] stops timer 2,
    disables its interrupt, clears [busy] and puts the stepper disable pin
    at the disabling level, unless the idle lock time is 255 and no alarm is
    flagged.  The tick makes no step event: the Bresenham counters, the
    inverse-time counter, the step and phase counts, [out_bits], the load
    flag, the position and the three ring indices are as before, and
    [execute_step] is clear.  [sys.state] is as before too.  Like every
    tick this one begins with the pulse: when the tick before flagged a
    step, the stepping port takes [out_bits] on its step and direction
    pins and Timer0 is started for the pulse; otherwise the stepping port
    and Timer0 are as before.  Nothing else is written. *)
Theorem isr_underrun_goes_idle (g : globals) :
  busy g = false ->
  load_flag (st g) <> LOAD_NOOP ->
  segment_buffer_head g = segment_buffer_tail g ->
  exists g',
    TIMER2_COMPA_vect cfg pl g = Some g' /\
    state (sys g') = state (sys g) /\
    execute (sys g') = bit_true (execute (sys g)) (EXEC_CYCLE_STOP cfg) /\
    position (sys g') = position (sys g) /\
    st g' = set_execute_step false (st g) /\
    ring_of g' = ring_of g /\
    segment_buffer g' = segment_buffer g /\
    busy g' = false /\
    TIMSK2 (io g') = bit_false (TIMSK2 (io g)) (bit (OCIE2A cfg)) /\
    TCCR2B (io g') = 0 /\
    STEPPING_PORT (io g') = STEPPING_PORT (io (isr_pulse cfg g)) /\
    (STEPPING_PORT (io g'), TCNT0 (io g'), TCCR0B (io g'))
    = (if execute_step (st g) then
         (Z.lor (Z.land (STEPPING_PORT (io g))
                        (Z.lnot (Z.lor (DIRECTION_MASK cfg) (STEP_MASK cfg))))
                (out_bits (st g)),
          step_pulse_time (st g), bit (CS21 cfg))
       else (STEPPING_PORT (io g), TCNT0 (io g), TCCR0B (io g))) /\
    STEPPERS_DISABLE_PORT (io g')
    = (if negb (stepper_idle_lock_time (settings g) =? 255)
          || bit_istrue (execute (sys g)) (EXEC_ALARM cfg)
       then
         if bit_istrue (flags (settings g)) (BITFLAG_INVERT_ST_ENABLE cfg)
         then bit_false (STEPPERS_DISABLE_PORT (io g))
                (bit (STEPPERS_DISABLE_BIT cfg))
         else bit_true (STEPPERS_DISABLE_PORT (io g))
                (bit (STEPPERS_DISABLE_BIT cfg))
       else STEPPERS_DISABLE_PORT (io g)) /\
    (SPINDLE_ENABLE_PORT (io g'), TCNT2 (io g'), auto_start (sys g'),
     settings g', plan g', segment_data g')
    = (SPINDLE_ENABLE_PORT (io g), TCNT2 (io g), auto_start (sys g),
       settings g, plan g, segment_data g) /\
    (pl_current_block g', st_current_segment g', st_current_data g',
     pl_prep_block g', st_prep_data g', pl_prep_index g',
     st_data_prep_index g', pl_partial_block_flag g')
    = (pl_current_block g, st_current_segment g, st_current_data g,
       pl_prep_block g, st_prep_data g, pl_prep_index g,
       st_data_prep_index g, pl_partial_block_flag g).
Proof.
  intros Hb Hl He. eexists. split; [exact (isr_underrun_eq g Hb Hl He)|].
  assert (Old :
    let g' := upd_sys (fun s => set_execute
                         (bit_true (execute s) (EXEC_CYCLE_STOP cfg)) s)
                (st_go_idle cfg (isr_pulse cfg g)) in
    state (sys g') = state (sys g) /\
    execute (sys g') = bit_true (execute (sys g)) (EXEC_CYCLE_STOP cfg) /\
    position (sys g') = position (sys g) /\
    st g' = set_execute_step false (st g) /\
    ring_of g' = ring_of g /\
    segment_buffer g' = segment_buffer g /\
    busy g' = false /\
    TIMSK2 (io g') = bit_false (TIMSK2 (io g)) (bit (OCIE2A cfg)) /\
    TCCR2B (io g') = 0 /\
    STEPPING_PORT (io g') = STEPPING_PORT (io (isr_pulse cfg g))).
  { destruct (isr_pulse_spec g) as (P1 & P2 & P3 & P4 & P5).
    destruct (st_go_idle_spec (isr_pulse cfg g))
      as (I1 & I2 & I3 & I4 & I5 & I6 & I7 & I8).
    unfold upd_sys, ring_of in *.
    cbn -[st_go_idle isr_pulse bit_true bit_false].
    rewrite I1, I2, I4, I5, I6, I7, I8, P1, P2, P4, P5.
    injection I3 as -> -> ->. injection P3 as -> -> ->.
    destruct (sys g); repeat split; reflexivity. }
  cbv zeta in Old.
  destruct Old as (O1 & O2 & O3 & O4 & O5 & O6 & O7 & O8 & O9 & O10).
  repeat (split; [assumption|]).
  clear O1 O2 O3 O4 O5 O6 O7 O8 O9 O10 Hb Hl He.
  destruct g as [[cx cy cz cd sc pc ex spt ob lf]
                 sd sb tl hd nh bz cb cs cdt pb pd pi di pf
                 [ys ye ya yp] se [p1 p2 p3 p4 p5 p6 p7 p8] pn].
  unfold isr_pulse, st_go_idle, upd_sys, upd_io, upd_st.
  cbn -[bit_true bit_false bit_istrue bit Z.eqb Z.lor Z.land Z.lnot].
  destruct ex;
    cbn -[bit_true bit_false bit_istrue bit Z.eqb Z.lor Z.land Z.lnot];
    destruct (negb (stepper_idle_lock_time se =? 255)
              || bit_istrue ye (EXEC_ALARM cfg));
    try destruct (bit_istrue (flags se) (BITFLAG_INVERT_ST_ENABLE cfg));
    repeat split; reflexivity.
Qed.

(** The load phase of the interrupt leaves [st.phase_count] as it is:
    [n_phase_tick] of the segment is not read. *)
Lemma isr_load_segment_phase_count (g : globals) (r : isr_load planner) :
  isr_load_segment cfg pl g = Some r ->
  match r with
  | Proceed g' | Leave g' => phase_count (st g') = phase_count (st g)
  end.
Proof.
  unfold isr_load_segment. intros H.
  destruct (negb (load_flag (st g) =? LOAD_NOOP)).
  - destruct (negb (segment_buffer_head g =? segment_buffer_tail g)).
    + cbn [st_current_segment set_st_current_segment] in H.
      destruct (index _ _) as [seg|]; [|discriminate].
      destruct (load_flag _ =? LOAD_BLOCK).
      * destruct (isr_load_block pl _) as [g1|] eqn:L; [|discriminate].
        injection H as <-.
        destruct (isr_load_block_spec _ _ L)
          as (blk & _ & _ & _ & _ & _ & _ & P & _).
        destruct g1 as [s1 ? ? ? ? ? ? ? ? ? ? ? ? ? ? ? ? ? ?].
        destruct g as [s ? ? ? ? ? ? ? ? ? ? ? ? ? ? ? ? ? ?].
        destruct s1, s. cbn in *. exact P.
      * injection H as <-. destruct g as [[]]. reflexivity.
    + injection H as <-. unfold st_go_idle.
      repeat match goal with
             | |- context [if ?c then _ else _] => destruct c
             end; reflexivity.
  - injection H as <-. reflexivity.
Qed.

(** C10.  Called while no planner block is being prepared,
    [st_fetch_partial_block_parameters] returns with both output parameters
    as the caller left them and with all globals unchanged: in particular
    [pl_partial_block_flag] is not set. *)
Theorem st_fetch_partial_without_prep_block (g : globals)
    (block_index : Z) (millimeters_remaining : float) (is_decelerating : Z) :
  pl_prep_block g = None ->
  st_fetch_partial_block_parameters block_index millimeters_remaining
    is_decelerating g
  = Some (g, millimeters_remaining, is_decelerating).
Proof.
  intros H. unfold st_fetch_partial_block_parameters. rewrite H. reflexivity.
Qed.

(** With a block being prepared the function does set the flag and drops
    the block. *)
Lemma st_fetch_partial_with_prep_block (g g' : globals)
    (block_index : Z) (mm mm' : float) (dec dec' : Z) :
  pl_prep_block g <> None ->
  st_fetch_partial_block_parameters block_index mm dec g
  = Some (g', mm', dec') ->
  pl_partial_block_flag g' = true /\ pl_prep_block g' = None.
Proof.
  unfold st_fetch_partial_block_parameters.
  destruct (pl_prep_block g); [|congruence].
  destruct (st_prep_data g) as [i|]; [|discriminate].
  destruct (index _ _); [|discriminate].
  intros _ H. injection H as <- _ _. split; reflexivity.
Qed.

End Underrun.

(** ** The executor never runs past the preparer *)

Section Loaded.
Variable cfg : config.
Variable planner : Type.
Variable pl : planner_ops planner.

Local Abbreviation globals := (globals planner).

Lemma load_flag_set (v : Z) (g : globals) :
  load_flag (st (upd_st (set_load_flag v) g)) = v.
Proof. destruct g as [[]]. reflexivity. Qed.

Lemma isr_load_segment_flag (g : globals) (r : isr_load planner) :
  isr_load_segment cfg pl g = Some r ->
  match r with
  | Proceed g' =>
      load_flag (st g') = LOAD_NOOP /\
      (load_flag (st g) = LOAD_NOOP \/
       segment_buffer_head g <> segment_buffer_tail g)
  | Leave g' => load_flag (st g') <> LOAD_NOOP
  end.
Proof.
  unfold isr_load_segment. intros H.
  destruct (Z.eqb_spec (load_flag (st g)) LOAD_NOOP) as [F|F]; cbn [negb] in H.
  - injection H as <-. auto.
  - destruct (Z.eqb_spec (segment_buffer_head g) (segment_buffer_tail g))
      as [E|E]; cbn [negb] in H.
    + injection H as <-.
      destruct (st_go_idle_spec cfg g) as (S & _).
      unfold upd_sys. cbn [st set_sys]. rewrite S. exact F.
    + split_match H; injection H as <-;
        (split; [apply load_flag_set | right; exact E]).
Qed.

Lemma isr_step_event_flag (b : plan_block_t) (d : st_data_t) (g : globals) :
  load_flag (st (isr_step_event cfg b d g)) = load_flag (st g).
Proof.
  rewrite isr_step_event_eq.
  unfold isr_step_end, isr_step_begin, isr_bresenham_axis.
  destruct g as [s ? ? ? ? ? ? ? ? ? ? ? ? ? ? ? ? ? ?]. destruct s.
  repeat match goal with
         | |- context [if ?c then _ else _] => destruct c
         end; reflexivity.
Qed.

Lemma isr_inverse_time_flag (g g' : globals) :
  isr_inverse_time cfg g = Some g' -> load_flag (st g') = load_flag (st g).
Proof.
  unfold isr_inverse_time. intros H. split_match H; injection H as <-;
    rewrite ?isr_step_event_flag;
    destruct g as [[? ? ? ? ? ? ? ? ? ?] ? ? ? ? ? ? ? ? ? ? ? ? ? ? ? ? ? ?];
    reflexivity.
Qed.

Lemma isr_segment_complete_flag (g g' : globals) :
  isr_segment_complete pl g = Some g' ->
  (ring_of g' = ring_of g /\ load_flag (st g') = load_flag (st g)) \/
  (ring_of g' = (next_index (segment_buffer_tail g), segment_buffer_head g,
                 segment_next_head g) /\
   load_flag (st g') <> LOAD_NOOP).
Proof.
  unfold isr_segment_complete, upd_st.
  destruct g as [s sd sb t h nh bz cb cs cd pb pd pi di pf y se r pln].
  destruct s as [cx cy cz cdist sc pc ex spt ob lf].
  cbn. intros H. split_match H; injection H as <-;
    unfold ring_of, next_index; cbn in *;
    try (left; split; reflexivity);
    right;
    match goal with
    | E : (_ =? SEGMENT_BUFFER_SIZE) = _ |- _ => rewrite E
    end; (split; [reflexivity | discriminate]).
Qed.

Lemma segment_count_next_tail (g g' : globals) :
  ring_inv g ->
  segment_buffer_head g <> segment_buffer_tail g ->
  ring_of g' = (next_index (segment_buffer_tail g), segment_buffer_head g,
                segment_next_head g) ->
  0 < segment_count g /\ segment_count g' = segment_count g - 1.
Proof.
  unfold ring_inv, ring_of, segment_count. intros (Ht & Hh & Hn) Hne E.
  injection E as -> -> _.
  destruct (next_index_range Ht) as (-> & _).
  unfold SEGMENT_BUFFER_SIZE in *.
  set (t := segment_buffer_tail g) in *.
  set (h := segment_buffer_head g) in *.
  assert (Hx : h = 0 \/ h = 1 \/ h = 2 \/ h = 3 \/ h = 4 \/ h = 5) by lia.
  assert (Hy : t = 0 \/ t = 1 \/ t = 2 \/ t = 3 \/ t = 4 \/ t = 5) by lia.
  destruct Hx as [Hx|[Hx|[Hx|[Hx|[Hx|Hx]]]]];
    destruct Hy as [Hy|[Hy|[Hy|[Hy|[Hy|Hy]]]]];
    rewrite Hx, Hy in Hne |- *; cbn; try lia; exfalso; apply Hne; reflexivity.
Qed.

(** A tick of the interrupt consumes at most one segment, and none when
    the ring is empty. *)
Lemma TIMER2_COMPA_vect_consumes (g g' : globals) :
  ring_inv g -> loaded_inv g ->
  TIMER2_COMPA_vect cfg pl g = Some g' ->
  loaded_inv g' /\
  (segment_count g' = segment_count g \/
   0 < segment_count g /\ segment_count g' = segment_count g - 1).
Proof.
  intros Hg Hl. unfold TIMER2_COMPA_vect.
  destruct (busy g); [intros H; injection H as <-; auto|].
  destruct (isr_pulse_spec cfg g) as (P1 & _ & P3 & _).
  assert (Hp : ring_of (set_busy true (isr_pulse cfg g)) = ring_of g)
    by exact P3.
  assert (Hf : load_flag (st (set_busy true (isr_pulse cfg g)))
               = load_flag (st g)).
  { change (st (set_busy true (isr_pulse cfg g))) with (st (isr_pulse cfg g)).
    rewrite P1. destruct (st g); reflexivity. }
  destruct (isr_load_segment cfg pl _) as [[g1|g1]|] eqn:L; try discriminate.
  - pose proof (isr_load_segment_ring _ _ _ L) as R1.
    apply isr_load_segment_flag in L. destruct L as (F1 & N1).
    rewrite Hf in N1. rewrite Hp in R1.
    assert (Hne : segment_buffer_head g <> segment_buffer_tail g).
    { destruct N1 as [N1|N1]; [exact (Hl N1)|].
      unfold ring_of in Hp. injection Hp as <- <- _. exact N1. }
    destruct (isr_inverse_time cfg g1) as [g2|] eqn:I; [|discriminate].
    pose proof (isr_inverse_time_ring _ _ I) as R2.
    apply isr_inverse_time_flag in I.
    destruct (isr_segment_complete pl g2) as [g3|] eqn:C; [|discriminate].
    intros H. injection H as <-.
    apply isr_segment_complete_flag in C.
    assert (R : ring_of g2 = ring_of g) by congruence.
    change (loaded_inv (set_busy false g3)) with (loaded_inv g3).
    change (segment_count (set_busy false g3)) with (segment_count g3).
    unfold ring_of in R. injection R as T2 H2 N2.
    unfold ring_of at 2 in C. rewrite T2, H2, N2 in C.
    destruct C as [(C & F3)|(C & F3)].
    + unfold ring_of in C. injection C as T3 H3 _.
      split.
      * unfold loaded_inv. rewrite T3, H3. intros _. exact Hne.
      * left. unfold segment_count. rewrite T3, H3. reflexivity.
    + split.
      * unfold loaded_inv. intros F. contradiction.
      * right. exact (segment_count_next_tail Hg Hne C).
  - intros H. injection H as <-.
    pose proof (isr_load_segment_ring _ _ _ L) as R1.
    apply isr_load_segment_flag in L. rewrite Hp in R1.
    split.
    + unfold loaded_inv. intros F. contradiction.
    + left. unfold segment_count. unfold ring_of in R1.
      injection R1 as -> -> _. reflexivity.
Qed.

Lemma prep_load_block_st (g : globals) (r : prep_round planner) :
  prep_load_block cfg pl g = Some r ->
  match r with Continue g' | Return g' => st g' = st g end.
Proof.
  unfold prep_load_block. intros H. split_match H;
    injection H as <-; reflexivity.
Qed.

Lemma prep_segment_st (g g' : globals) :
  prep_segment cfg pl g = Some g' -> st g' = st g.
Proof.
  unfold prep_segment. intros H. split_match H;
    injection H as <-; reflexivity.
Qed.

Lemma st_prep_round_st (g : globals) (r : prep_round planner) :
  st_prep_round cfg pl g = Some r ->
  match r with Continue g' | Return g' => st g' = st g end.
Proof.
  unfold st_prep_round. intros H.
  destruct (index (segment_buffer g) (segment_buffer_head g)); [|discriminate].
  destruct (store _ _ _) as [sb|]; [|discriminate].
  destruct (prep_load_block cfg pl (set_segment_buffer sb g)) as [r0|] eqn:L;
    [|discriminate].
  apply prep_load_block_st in L.
  destruct r0 as [g1|g1].
  - destruct (prep_segment cfg pl g1) as [g2|] eqn:S; [|discriminate].
    injection H as <-. apply prep_segment_st in S. rewrite S, L. reflexivity.
  - injection H as <-. exact L.
Qed.

(** The preparer never fills the slot the executor may be working on. *)
Lemma st_prep_loop_loaded (n : nat) (g g' : globals) :
  loaded_inv g -> st_prep_loop cfg pl n g = Some g' -> loaded_inv g'.
Proof.
  revert g. induction n as [|n IH]; intros g Hl; cbn [st_prep_loop];
    destruct (Z.eqb_spec (segment_buffer_tail g) (segment_next_head g))
      as [E|E];
    try (intros H; injection H as <-; exact Hl); try discriminate.
  destruct (st_prep_round cfg pl g) as [[g1|g1]|] eqn:R; try discriminate;
    pose proof (st_prep_round_ring cfg pl g R) as R1;
    apply st_prep_round_st in R; unfold ring_of in R1.
  - apply IH. unfold loaded_inv. injection R1 as -> -> _. auto.
  - intros H. injection H as <-. unfold loaded_inv in *.
    injection R1 as -> -> _. rewrite R. exact Hl.
Qed.

Lemma st_prep_buffer_loaded (g g' : globals) :
  loaded_inv g -> st_prep_buffer cfg pl g = Some g' -> loaded_inv g'.
Proof.
  intros Hl. unfold st_prep_buffer.
  destruct (state (sys g)); try apply (st_prep_loop_loaded _ Hl).
  intros H. injection H as <-. exact Hl.
Qed.

Lemma st_reset_loaded (g : globals) : loaded_inv (st_reset g).
Proof. unfold loaded_inv. cbn. discriminate. Qed.

(** [st_reset] puts the pointers of the preparer in order when the two
    arrays have their declared sizes. *)
Lemma st_reset_prep_inv (g : globals) :
  Z.of_nat (length (segment_buffer g)) = SEGMENT_BUFFER_SIZE ->
  Z.of_nat (length (segment_data g)) = SEGMENT_BUFFER_SIZE - 1 ->
  prep_inv (st_reset g).
Proof.
  intros Lb Ld. unfold prep_inv. cbn. repeat split; try assumption; try lia.
  intros [H|H]; [contradiction H; reflexivity | discriminate H].
Qed.

End Loaded.

(** ** What a round of the preparer publishes *)

Lemma list_set_nth {A : Type} (l l' : list A) (n : nat) (x : A) :
  list_set l n x = Some l' -> nth_error l' n = Some x.
Proof.
  revert l' n. induction l as [|h t IH]; intros l' n; [discriminate|].
  destruct n as [|n]; cbn [list_set].
  - intros H. injection H as <-. reflexivity.
  - destruct (list_set t n x) as [t'|] eqn:E; [|discriminate].
    intros H. injection H as <-. cbn. exact (IH _ _ E).
Qed.

Lemma store_index {A : Type} (l l' : list A) (i : Z) (x : A) :
  store l i x = Some l' -> index l' i = Some x.
Proof.
  unfold store, index. destruct (i <? 0); [discriminate|].
  apply list_set_nth.
Qed.

Section Publish.
Variable cfg : config.
Variable planner : Type.
Variable pl : planner_ops planner.

Local Abbreviation globals := (globals planner).

(** The segment written at [head] is [prep_segment_emit] of the slot of
    the block, and the slot becomes [prep_segment_data] of itself; the
    preparer lets go of the block with the segment that ends it. *)
Lemma prep_segment_publishes (g g' : globals) :
  prep_segment cfg pl g = Some g' ->
  exists j d seg,
    st_prep_data g = Some j /\
    index (segment_data g) j = Some d /\
    index (segment_buffer g) (segment_buffer_head g) = Some seg /\
    index (segment_buffer g') (segment_buffer_head g)
    = Some (prep_segment_emit cfg d
              (set_st_data_index (st_data_prep_index g) seg)) /\
    index (segment_data g') j = Some (prep_segment_data cfg d) /\
    st_prep_data g' = Some j /\
    pl_prep_block g'
    = if prep_end_of_block cfg d then None else pl_prep_block g.
Proof.
  unfold prep_segment, toggle_spindle_enable, upd_io.
  destruct g as [s sd sb t h nh bz cb cs cd pb pd pi di pf y se r pln].
  cbn. intros H.
  destruct (index sb h) as [seg|] eqn:Es; [|discriminate].
  destruct pd as [j|]; [|discriminate].
  destruct (index sd j) as [d|] eqn:Ed; [|discriminate].
  exists j, d, seg. rewrite Ed.
  destruct (prep_end_of_block cfg d); cbn in H;
    (destruct (store sb h _) as [sb'|] eqn:Sb; [|discriminate]);
    (destruct (store sd j _) as [sd'|] eqn:Sd; [|discriminate]);
    apply store_index in Sb; apply store_index in Sd;
    destruct (to_u8 (nh + 1) =? SEGMENT_BUFFER_SIZE);
    injection H as <-; cbn; auto 10.
Qed.

End Publish.

(** ** The tick that loads a block *)

Section LoadTick.
Variable cfg : config.
Variable planner : Type.
Variable pl : planner_ops planner.

Local Abbreviation globals := (globals planner).

Lemma isr_load_block_dist (g0 g : globals) :
  isr_load_block pl g0 = Some g ->
  exists seg d,
    index (segment_buffer g0) (segment_buffer_tail g0) = Some seg /\
    index (segment_data g0) (st_data_index seg) = Some d /\
    counter_dist (st g) = to_i32 (dist_per_step d) /\
    st_current_segment g = st_current_segment g0 /\
    segment_buffer g = segment_buffer g0 /\
    segment_buffer_tail g = segment_buffer_tail g0 /\
    load_flag (st g) = load_flag (st g0).
Proof.
  unfold isr_load_block.
  destruct g0 as [[? ? ? ? ? ? ? ? ? ?] ? ? ? ? ? ? ? ? ? ? ? ? ? ? ? ? ? ?].
  cbn. intros H.
  destruct (index _ _) as [seg|] eqn:Es; [|discriminate]. cbn in H.
  destruct (plan_get_current_block pl _) as [b|]; [|discriminate]. cbn in H.
  destruct (index _ (st_data_index seg)) as [d|] eqn:Ed; [|discriminate].
  injection H as <-. exists seg, d. cbn.
  repeat split; try reflexivity; assumption.
Qed.

Lemma isr_segment_complete_frame (g g' : globals) :
  isr_segment_complete pl g = Some g' ->
  out_bits (st g') = out_bits (st g) /\
  execute_step (st g') = execute_step (st g) /\
  sys g' = sys g.
Proof.
  unfold isr_segment_complete.
  destruct g as [[? ? ? ? ? ? ? ? ? ?] ? ? ? ? ? ? ? ? ? ? ? ? ? ? ? ? ? ?].
  cbn. intros H. split_match H; injection H as <-; cbn; auto.
Qed.

(** When the segment that starts a block has [dist_per_tick] at most the
    [dist_per_step] of the block, the tick that loads it makes no step
    event: it leaves the direction bits of the block in [out_bits], flagged
    for the next tick, and the position as it was. *)
Lemma load_tick_sets_direction (g g' : globals) :
  busy g = false ->
  load_flag (st g) = LOAD_BLOCK ->
  segment_buffer_head g <> segment_buffer_tail g ->
  TIMER2_COMPA_vect cfg pl g = Some g' ->
  exists blk seg d,
    plan_get_current_block pl (plan g) = Some blk /\
    index (segment_buffer g) (segment_buffer_tail g) = Some seg /\
    index (segment_data g) (st_data_index seg) = Some d /\
    (0 <= dist_per_tick seg <= dist_per_step d ->
     dist_per_step d < 2 ^ 31 ->
     out_bits (st g')
     = Z.lxor (direction_bits blk) (invert_mask (settings g)) /\
     execute_step (st g') = true /\
     sys g' = sys g).
Proof.
  intros Hb Hl Hne. unfold TIMER2_COMPA_vect. rewrite Hb.
  destruct (isr_pulse_spec cfg g) as (Ps & Py & Pr & Pb & _).
  assert (Pd : segment_data (isr_pulse cfg g) = segment_data g)
    by (unfold isr_pulse; destruct (execute_step (st g)); reflexivity).
  assert (Pp : plan (isr_pulse cfg g) = plan g)
    by (unfold isr_pulse; destruct (execute_step (st g)); reflexivity).
  assert (Pe : settings (isr_pulse cfg g) = settings g)
    by (unfold isr_pulse; destruct (execute_step (st g)); reflexivity).
  remember (set_busy true (isr_pulse cfg g)) as g1 eqn:E1.
  assert (S1 : st g1 = set_execute_step false (st g)) by (subst g1; exact Ps).
  assert (Y1 : sys g1 = sys g) by (subst g1; exact Py).
  assert (R1 : ring_of g1 = ring_of g) by (subst g1; exact Pr).
  assert (B1 : segment_buffer g1 = segment_buffer g) by (subst g1; exact Pb).
  assert (D1 : segment_data g1 = segment_data g) by (subst g1; exact Pd).
  assert (P1 : plan g1 = plan g) by (subst g1; exact Pp).
  assert (T1 : settings g1 = settings g) by (subst g1; exact Pe).
  clear E1 Ps Py Pr Pb Pd Pp Pe.
  assert (L1 : load_flag (st g1) = LOAD_BLOCK)
    by (rewrite S1; destruct (st g); exact Hl).
  unfold ring_of in R1. injection R1 as Rt Rh Rn.
  unfold isr_load_segment. rewrite L1, Rh, Rt.
  destruct (Z.eqb_spec (segment_buffer_head g) (segment_buffer_tail g));
    [contradiction|].
  cbn [negb Z.eqb LOAD_BLOCK LOAD_NOOP st_current_segment
       set_st_current_segment segment_buffer].
  change (LOAD_BLOCK =? LOAD_NOOP) with false. cbn [negb].
  rewrite B1.
  destruct (index (segment_buffer g) (segment_buffer_tail g)) as [seg|] eqn:Es;
    [|discriminate].
  cbn -[isr_load_block isr_inverse_time isr_segment_complete].
  remember (upd_st (set_step_count (n_step seg))
              (set_st_current_segment (Some (segment_buffer_tail g)) g1))
    as g2 eqn:E2.
  rewrite L1. change (LOAD_BLOCK =? LOAD_BLOCK) with true. cbv iota.
  destruct (isr_load_block pl g2) as [g3|] eqn:E3;
    cbn -[isr_inverse_time isr_segment_complete]; [|discriminate].
  destruct (isr_load_block_spec _ _ E3)
    as (blk & Gb & Cb & _ & Ob & Xb & _ & _ & Yb & Tb).
  destruct (isr_load_block_dist _ E3)
    as (seg' & d & Is & Id & Cd & Cs & Sb & Tl & _).
  assert (X2 : segment_buffer g2 = segment_buffer g)
    by (subst g2; destruct g1 as [[]]; exact B1).
  assert (X3 : segment_buffer_tail g2 = segment_buffer_tail g)
    by (subst g2; destruct g1 as [[]]; exact Rt).
  assert (X4 : segment_data g2 = segment_data g)
    by (subst g2; destruct g1 as [[]]; exact D1).
  assert (X5 : plan g2 = plan g)
    by (subst g2; destruct g1 as [[]]; exact P1).
  assert (X6 : st_current_segment g2 = Some (segment_buffer_tail g))
    by (subst g2; destruct g1 as [[]]; reflexivity).
  assert (X7 : settings g2 = settings g)
    by (subst g2; destruct g1 as [[]]; exact T1).
  assert (X8 : sys g2 = sys g)
    by (subst g2; destruct g1 as [[]]; exact Y1).
  rewrite X2, X3, Es in Is. injection Is as <-.
  rewrite X4 in Id. rewrite X5 in Gb. rewrite X7 in Ob.
  rewrite X6 in Cs. rewrite X2 in Sb. rewrite X8 in Yb.
  clear E2 X2 X3 X4 X5 X6 X7 X8 E3 Tb.
  intros H. exists blk, seg, d.
  split; [assumption|]. split; [reflexivity|]. split; [assumption|].
  intros Ht Hs.
  remember (upd_st (set_load_flag LOAD_NOOP) g3) as g4 eqn:E4.
  assert (A1 : st_current_segment g4 = Some (segment_buffer_tail g))
    by (subst g4; destruct g3 as [[]]; exact Cs).
  assert (A2 : segment_buffer g4 = segment_buffer g)
    by (subst g4; destruct g3 as [[]]; exact Sb).
  assert (A3 : counter_dist (st g4) = to_i32 (dist_per_step d))
    by (subst g4; destruct g3 as [[]]; exact Cd).
  assert (A4 : out_bits (st g4)
               = Z.lxor (direction_bits blk) (invert_mask (settings g)))
    by (subst g4; destruct g3 as [[]]; exact Ob).
  assert (A5 : execute_step (st g4) = true)
    by (subst g4; destruct g3 as [[]]; exact Xb).
  assert (A6 : sys g4 = sys g)
    by (subst g4; destruct g3 as [[]]; exact Yb).
  clear E4 Cs Sb Cd Ob Xb Yb Cb.
  unfold isr_inverse_time in H. rewrite A1 in H.
  cbn -[isr_segment_complete isr_step_event] in H.
  rewrite A2, Es in H. cbn -[isr_segment_complete isr_step_event] in H.
  assert (N : (to_i32 (counter_dist (st g4) - dist_per_tick seg) <? 0)
              = false).
  { rewrite A3.
    rewrite (@to_i32_small (dist_per_step d)) by (unfold int32_range; lia).
    rewrite to_i32_small by (unfold int32_range; lia).
    apply Z.ltb_ge. lia. }
  destruct g4 as [[cx cy cz cdist sc pc ex spt ob lf]
                  ? ? ? ? ? ? ? ? ? ? ? ? ? ? ? ? ? ?].
  cbn -[isr_segment_complete isr_step_event to_i32] in *.
  rewrite N in H.
  destruct (isr_segment_complete pl _) as [g5|] eqn:E5; [|discriminate].
  cbn in H. injection H as <-.
  destruct (isr_segment_complete_frame _ E5) as (F1 & F2 & F3).
  cbn in F1, F2, F3.
  destruct g5 as [[]]. cbn in *. subst. auto.
Qed.

End LoadTick.

(** ** The ring at all observable moments *)

Section Reachable.
Variable cfg : config.
Variable planner : Type.
Variable pl : planner_ops planner.

Local Abbreviation globals := (globals planner).

Lemma prep_inv_same (g g' : globals) :
  prep_inv g -> prep_fields g' = prep_fields g -> prep_inv g'.
Proof.
  unfold prep_inv, prep_fields. intros H E.
  injection E as -> -> -> -> -> ->. exact H.
Qed.

Lemma loaded_inv_same (g g' : globals) :
  loaded_inv g -> ring_of g' = ring_of g ->
  (load_flag (st g') = LOAD_NOOP -> load_flag (st g) = LOAD_NOOP) ->
  loaded_inv g'.
Proof.
  unfold loaded_inv, ring_of. intros H E F N.
  injection E as -> -> _. auto.
Qed.

Lemma isr_pulse_prep (g : globals) :
  prep_fields (isr_pulse cfg g) = prep_fields g.
Proof. unfold isr_pulse. destruct (execute_step (st g)); reflexivity. Qed.

Lemma st_go_idle_prep (g : globals) :
  prep_fields (st_go_idle cfg g) = prep_fields g.
Proof.
  unfold st_go_idle.
  repeat match goal with
         | |- context [if ?c then _ else _] => destruct c
         end; reflexivity.
Qed.

Lemma st_wake_up_frame (g : globals) :
  prep_fields (st_wake_up cfg g) = prep_fields g /\
  ring_of (st_wake_up cfg g) = ring_of g /\
  (load_flag (st (st_wake_up cfg g)) = LOAD_NOOP ->
   load_flag (st g) = LOAD_NOOP).
Proof.
  unfold st_wake_up. cbv zeta.
  destruct (bit_istrue _ _);
    match goal with
    | |- context [match ?y with STATE_CYCLE => _ | _ => _ end] => destruct y
    end;
    (split; [reflexivity|]); (split; [reflexivity|]);
    intros X; first [discriminate X | exact X].
Qed.

Lemma isr_load_block_prep (g g' : globals) :
  isr_load_block pl g = Some g' -> prep_fields g' = prep_fields g.
Proof.
  unfold isr_load_block.
  destruct g as [[? ? ? ? ? ? ? ? ? ?] ? ? ? ? ? ? ? ? ? ? ? ? ? ? ? ? ? ?].
  cbn. intros H. split_match H. injection H as <-. reflexivity.
Qed.

Lemma isr_load_segment_prep (g : globals) (r : isr_load planner) :
  isr_load_segment cfg pl g = Some r ->
  match r with
  | Proceed g' | Leave g' => prep_fields g' = prep_fields g
  end.
Proof.
  unfold isr_load_segment. intros H.
  destruct (negb (load_flag (st g) =? LOAD_NOOP)).
  - destruct (negb (segment_buffer_head g =? segment_buffer_tail g)).
    + cbn [st_current_segment set_st_current_segment] in H.
      destruct (index _ _) as [seg|]; [|discriminate].
      destruct (load_flag _ =? LOAD_BLOCK).
      * destruct (isr_load_block pl _) as [g1|] eqn:L; [|discriminate].
        injection H as <-. apply isr_load_block_prep in L.
        destruct g1 as [[]]. destruct g as [[]]. exact L.
      * injection H as <-. destruct g as [[]]. reflexivity.
    + injection H as <-.
      exact (st_go_idle_prep g).
  - injection H as <-. reflexivity.
Qed.

Lemma isr_bresenham_axis_prep (a : axis) (b : plan_block_t) (g : globals) :
  prep_fields (isr_bresenham_axis cfg a b g) = prep_fields g.
Proof.
  unfold isr_bresenham_axis. cbv zeta.
  repeat match goal with
         | |- context [if ?c then _ else _] => destruct c
         end; reflexivity.
Qed.

Lemma isr_step_event_prep (b : plan_block_t) (d : st_data_t) (g : globals) :
  prep_fields (isr_step_event cfg b d g) = prep_fields g.
Proof.
  unfold isr_step_event. cbv zeta.
  set (g1 := upd_st (set_execute_step true) _).
  assert (E1 : prep_fields g1 = prep_fields g) by reflexivity.
  clearbody g1.
  pose proof (isr_bresenham_axis_prep X_AXIS b g1) as A.
  pose proof (isr_bresenham_axis_prep Y_AXIS b
                (isr_bresenham_axis cfg X_AXIS b g1)) as B.
  pose proof (isr_bresenham_axis_prep Z_AXIS b
                (isr_bresenham_axis cfg Y_AXIS b
                   (isr_bresenham_axis cfg X_AXIS b g1))) as C.
  set (g4 := isr_bresenham_axis cfg Z_AXIS b _) in *.
  clearbody g4. rewrite <- E1, <- A, <- B, <- C. reflexivity.
Qed.

Lemma isr_inverse_time_prep (g g' : globals) :
  isr_inverse_time cfg g = Some g' -> prep_fields g' = prep_fields g.
Proof.
  unfold isr_inverse_time. intros H.
  destruct (st_current_segment g); [|discriminate]. cbv beta iota in H.
  destruct (index _ _) as [seg|]; [|discriminate].
  cbv zeta in H. cbn -[isr_step_event] in H.
  split_match H; injection H as <-;
    [rewrite isr_step_event_prep|..]; reflexivity.
Qed.

Lemma isr_segment_complete_prep (g g' : globals) :
  isr_segment_complete pl g = Some g' -> prep_fields g' = prep_fields g.
Proof.
  unfold isr_segment_complete.
  destruct g as [[? ? ? ? ? ? ? ? ? ?] ? ? ? ? ? ? ? ? ? ? ? ? ? ? ? ? ? ?].
  cbn. intros H. split_match H; injection H as <-; reflexivity.
Qed.

Lemma TIMER2_COMPA_vect_prep (g g' : globals) :
  TIMER2_COMPA_vect cfg pl g = Some g' -> prep_fields g' = prep_fields g.
Proof.
  unfold TIMER2_COMPA_vect. destruct (busy g).
  - intros H. injection H as <-. reflexivity.
  - cbv zeta.
    destruct (isr_load_segment cfg pl _) as [[g1|g1]|] eqn:L;
      [| |discriminate]; apply isr_load_segment_prep in L;
      change (prep_fields (set_busy true (isr_pulse cfg g)))
        with (prep_fields (isr_pulse cfg g)) in L;
      rewrite isr_pulse_prep in L; cbv beta iota.
    + destruct (isr_inverse_time cfg g1) as [g2|] eqn:I; [|discriminate].
      apply isr_inverse_time_prep in I. cbv beta iota.
      destruct (isr_segment_complete pl g2) as [g3|] eqn:C; [|discriminate].
      apply isr_segment_complete_prep in C.
      intros H. injection H as <-.
      change (prep_fields (set_busy false g3)) with (prep_fields g3).
      congruence.
    + intros H. injection H as <-. exact L.
Qed.

Lemma st_wake_up_inv (g : globals) :
  stepper_inv g -> stepper_inv (st_wake_up cfg g).
Proof.
  intros (R & P & L). destruct (st_wake_up_frame g) as (Fp & Fr & Fl).
  split; [exact (ring_inv_same R Fr)|].
  split; [exact (prep_inv_same P Fp)|].
  exact (loaded_inv_same L Fr Fl).
Qed.

Lemma st_prep_buffer_inv (g g' : globals) :
  stepper_inv g -> st_prep_buffer cfg pl g = Some g' -> stepper_inv g'.
Proof.
  intros (R & P & L) H.
  destruct (st_prep_buffer_returns cfg pl P R) as (g1 & H1 & P1 & R1).
  rewrite H in H1. injection H1 as <-.
  split; [exact R1|]. split; [exact P1|].
  exact (st_prep_buffer_loaded cfg pl L H).
Qed.

(** Every operation keeps the ring and the pointers into it in order. *)
Lemma run_op_inv (o : stepper_op planner) (g g' : globals) :
  stepper_inv g -> run_op cfg pl o g = Some g' -> stepper_inv g'.
Proof.
  intros I. pose proof I as (R & P & L).
  destruct o; cbn [run_op]; intros H.
  - injection H as <-. destruct P as (Lb & Ld & _).
    split; [apply st_reset_ring|].
    split; [apply st_reset_prep_inv; assumption | apply st_reset_loaded].
  - injection H as <-. apply st_wake_up_inv, I.
  - injection H as <-.
    destruct (st_go_idle_spec cfg g) as (Gs & _ & Gr & _).
    split; [exact (ring_inv_same R Gr)|].
    split; [exact (prep_inv_same P (st_go_idle_prep g))|].
    apply (loaded_inv_same L Gr). rewrite Gs. auto.
  - split; [exact (TIMER2_COMPA_vect_ring cfg pl R H)|].
    split; [exact (prep_inv_same P (TIMER2_COMPA_vect_prep _ H))|].
    exact (proj1 (TIMER2_COMPA_vect_consumes cfg pl R L H)).
  - injection H as <-. exact I.
  - unfold st_cycle_start in H. destruct (state (sys g));
      try (injection H as <-; exact I).
    destruct (st_prep_buffer cfg pl _) as [g1|] eqn:B; [|discriminate].
    cbv beta iota in H. injection H as <-.
    apply st_wake_up_inv.
    exact (@st_prep_buffer_inv (upd_sys (set_state STATE_CYCLE) g) g1 I B).
  - injection H as <-. unfold st_feed_hold.
    destruct (state (sys g)); exact I.
  - injection H as <-. exact I.
  - exact (st_prep_buffer_inv I H).
  - unfold st_fetch_partial_block_parameters in H.
    destruct (pl_prep_block g) eqn:B.
    + destruct (st_prep_data g) as [i|] eqn:D; [|discriminate].
      cbv beta iota in H.
      destruct (index (segment_data g) i) as [d|]; [|discriminate].
      cbn in H. injection H as <-.
      split; [exact R|]. split; [|exact L].
      destruct P as (Lb & Ld & Li & Lp).
      split; [exact Lb|]. split; [exact Ld|]. split; [exact Li|].
      intros _. cbn [st_prep_data set_pl_prep_block set_pl_partial_block_flag].
      apply Lp. left. rewrite B. discriminate.
    + cbn in H. injection H as <-. exact I.
  - injection H as <-. exact I.
Qed.

Lemma reachable_inv (g : globals) : reachable cfg pl g -> stepper_inv g.
Proof.
  induction 1 as [g Lb Ld|o g g' _ IH H].
  - split; [apply st_reset_ring|].
    split; [apply st_reset_prep_inv; assumption | apply st_reset_loaded].
  - exact (run_op_inv o IH H).
Qed.

End Reachable.

(** ** Properties of the specification *)

(** C6.  For a fresh planner block that keeps the planner's contract
    (positive length, entry and exit speed not above the nominal speed), the
    slot the preparer fills has [step_per_mm = step_event_count/millimeters]
    and [accelerate_until], [decelerate_after] and [maximum_rate] equal to
    the entries of the row of the profile table that applies, each
    multiplied by [step_per_mm].  No row applies only when the intersection
    distance or the deceleration distance is not a number. *)
Theorem prep_profile_matches_table (cfg : config) (b : plan_block_t)
    (next : option plan_block_t) (d : st_data_t) :
  planner_contract b (prep_exit_speed_sqr next) ->
  let d' := prep_block_data cfg b next None d in
  let vesq := prep_exit_speed_sqr next in
  step_per_mm d' = (F32.of_Z (step_event_count b) / millimeters b)%f32 /\
  match profile_table b vesq with
  | Some p =>
      accelerate_until d' = (row_accelerate_until p * step_per_mm d')%f32 /\
      decelerate_after d' = (row_decelerate_after p * step_per_mm d')%f32 /\
      maximum_rate d' = (row_maximum_rate p * step_per_mm d')%f32
  | None =>
      F32.is_nan (table_intersection b vesq) = true \/
      F32.is_nan ((nominal_speed_sqr b - vesq)
                  / (F32.two * block_acceleration b))%f32 = true
  end.
Proof.
  intros C d' vesq. subst d'. unfold prep_block_data.
  set (d1 := prep_rates b next (prep_new_block_data cfg b d)).
  destruct (prep_profile_in_steps_fields (prep_velocity_profile b vesq d1))
    as (S & A & D & M).
  pose proof (prep_velocity_profile_step_per_mm b vesq d1) as S1.
  pose proof (prep_fresh_step_per_mm cfg b next d) as S2. fold d1 in S2.
  pose proof (prep_velocity_profile_row d1 C) as R. fold vesq in R.
  fold vesq. cbv zeta in S, A, D, M.
  split; [congruence|].
  destruct (profile_table b vesq) as [p|]; [|exact R].
  destruct R as (Ra & Rd & Rm).
  rewrite A, D, M, S, S1, Ra, Rd, Rm. auto.
Qed.

(** The block of three axes is a trapezoid: 28 mm, 2 mm and 20 mm/s, at 10
    steps per millimeter. *)
Example trapezoid_block_profile :
  option_map shape (profile_table trapezoid_block (prep_exit_speed_sqr None))
  = Some Trapezoid /\
  let d' := prep_block_data grbl_config trapezoid_block None None zero_data in
  (accelerate_until d', decelerate_after d', maximum_rate d')
  = (F32.of_Z 280, F32.of_Z 20, F32.of_Z 200).
Proof. vm_compute. split; reflexivity. Qed.

(** The trapezoid block and its row of the table. *)
Lemma prep_profile_matches_table_witness :
  planner_contract trapezoid_block (prep_exit_speed_sqr None) /\
  let d' := prep_block_data grbl_config trapezoid_block None None zero_data in
  step_per_mm d' = F32.of_Z 10 /\
  accelerate_until d' = (F32.of_Z 28 * step_per_mm d')%f32 /\
  decelerate_after d' = (F32.of_Z 2 * step_per_mm d')%f32 /\
  maximum_rate d' = (F32.of_Z 20 * step_per_mm d')%f32.
Proof.
  assert (C : planner_contract trapezoid_block (prep_exit_speed_sqr None))
    by (vm_compute; auto).
  split; [exact C|].
  exact (prep_profile_matches_table grbl_config None zero_data C).
Defined.

(** The sum of [n_step] over a block that ends.  For a fresh planner
    block, whose [step_events_remaining] starts from [step_event_count],
    let the preparer reach the segment that ends the block, and let every
    segment up to it fit the 8-bit [n_step]: its step counts are finite and
    below [2^24] in magnitude, and their ceilings differ by a number from 0
    to 255.  Then each segment but the last has [n_step =
    ceil(step_events_remaining) - ceil(steps_remaining)], the last has
    [n_step = ceil(step_events_remaining)], and the [n_step] add up to the
    ceiling of [step_event_count] as a [float], which is [step_event_count]
    itself below [2^24]. *)
Theorem sum_n_step_block_exact (cfg : config) (b : plan_block_t)
    (next : option plan_block_t) (d : st_data_t) (n : nat)
    (tr : list (st_data_t * st_segment_t)) :
  prep_block_segments cfg n (prep_block_data cfg b next None d) = Some tr ->
  forallb (fun x => n_step_fits cfg (fst x)) tr = true ->
  Forall (n_step_exact cfg) tr /\
  sum_n_step tr = F32.ceilZ (F32.of_Z (step_event_count b)) /\
  (Z.abs (step_event_count b) < 2 ^ 24 ->
   sum_n_step tr = step_event_count b).
Proof.
  intros R F. pose proof (@fits_exact_segments _ _ _ _ R F) as X.
  assert (S : sum_n_step tr = F32.ceilZ (F32.of_Z (step_event_count b))).
  { rewrite (sum_exact_segments _ _ R X).
    rewrite prep_block_data_remaining. reflexivity. }
  split; [exact X|]. split; [exact S|].
  intros B. rewrite S. apply F32Exact.ceilZ_of_Z, B.
Qed.

(** The cruise of 100 step events takes 30 segments of 3 or 4 steps. *)
Lemma sum_n_step_block_exact_witness :
  exists tr,
    prep_block_segments grbl_config 40
      (prep_block_data grbl_config cruise_block (Some cruise_block) None
         zero_data)
    = Some tr /\
    length tr = 30%nat /\
    forallb (fun x => n_step_fits grbl_config (fst x)) tr = true /\
    Forall (n_step_exact grbl_config) tr /\
    sum_n_step tr = 100.
Proof.
  destruct (prep_block_segments grbl_config 40
              (prep_block_data grbl_config cruise_block (Some cruise_block)
                 None zero_data)) as [tr|] eqn:R;
    [|vm_compute in R; discriminate].
  exists tr. split; [reflexivity|].
  assert (B : length tr = 30%nat /\
              forallb (fun x => n_step_fits grbl_config (fst x)) tr = true).
  { vm_compute in R. injection R as <-. vm_compute. split; reflexivity. }
  destruct B as (L & B). split; [exact L|]. split; [exact B|].
  destruct (@sum_n_step_block_exact grbl_config cruise_block
              (Some cruise_block) zero_data 40 tr R B) as (X & _ & S).
  split; [exact X|]. apply S. vm_compute. reflexivity.
Defined.

(** C1.  The preparer does not keep the sum of [n_step] at
    [step_event_count].  The second scenario of the design document keeps
    the planner's contract and its rates are far below the interrupt rate,
    and its 300 step events start exactly in [step_events_remaining].  The
    deceleration to rest brings [current_rate] below zero while step events
    remain, and from there on [step_events_remaining] grows: the first 342
    segments hold 299 step events, the next stands for -1 step event,
    which the 8-bit [n_step] holds as 255, and none of the first 3000
    segments ends the block. *)
Theorem sum_n_step_misses_step_event_count :
  let b := scenario_s2_block in
  let d := prep_block_data grbl_config b None None zero_data in
  planner_contract b (prep_exit_speed_sqr None) /\
  step_events_remaining d = F32.of_Z (step_event_count b) /\
  F32.ceilZ (step_events_remaining d) = 300 /\
  (maximum_rate d <? ISR_TICKS_PER_SECOND grbl_config)%f32 = true /\
  prep_block_segments grbl_config 3000 d = None /\
  sum_n_step (prep_block_prefix grbl_config 342 d) = 299 /\
  exists x,
    nth_error (prep_block_prefix grbl_config 343 d) 342 = Some x /\
    (F32.zero <? step_events_remaining (fst x))%f32 = true /\
    (current_rate (fst x) <? F32.zero)%f32 = true /\
    (step_events_remaining (fst x)
     <? step_events_remaining (prep_segment_data grbl_config (fst x)))%f32
    = true /\
    segment_step_events grbl_config (fst x) = -1 /\
    n_step (snd x) = 255 /\
    flag (snd x) = SEGMENT_NOOP.
Proof.
  cbv zeta. split; [vm_compute; auto|].
  split; [vm_compute; reflexivity|].
  split; [vm_compute; reflexivity|].
  split; [vm_compute; reflexivity|].
  split; [vm_compute; reflexivity|].
  split; [vm_compute; reflexivity|].
  eexists. split; [vm_compute; reflexivity|].
  vm_compute. repeat split; reflexivity.
Qed.

(** The pin map of the machine: six distinct bits of the stepping port. *)
Lemma grbl_config_pins : pin_map_ok grbl_config.
Proof.
  unfold pin_map_ok. split; [|split; [|split]].
  - intros []; vm_compute; (split; [discriminate | reflexivity]).
  - intros []; vm_compute; (split; [discriminate | reflexivity]).
  - intros [] []; vm_compute; discriminate.
  - intros [] [] H; vm_compute; try discriminate; contradiction.
Qed.

(** The 100 X steps of the cruise block, from the started machine. *)
Lemma bresenham_steps_exact_witness :
  exists g d,
    isr_load_block queue_ops (started_machine [cruise_block; cruise_block])
    = Some g /\
    step_pulses grbl_config cruise_block d X_AXIS 100 g = 100 /\
    get_axis X_AXIS
      (position (sys (isr_step_events grbl_config cruise_block d 100 g)))
    = 100.
Proof.
  destruct (isr_load_block queue_ops
              (started_machine [cruise_block; cruise_block]))
    as [g|] eqn:L; [|vm_compute in L; discriminate].
  exists g, zero_data. split; [reflexivity|].
  assert (P : position (sys g) = {| at_x := 0; at_y := 0; at_z := 0 |}).
  { vm_compute in L. injection L as <-. reflexivity. }
  assert (H := bresenham_steps_exact (b := cruise_block) grbl_config_pins
                 queue_ops X_AXIS zero_data
                 (started_machine [cruise_block; cruise_block]) L).
  rewrite P in H. apply H; vm_compute; try reflexivity;
    split; congruence.
Defined.

(** C7.  At every moment between operations, from [st_reset] on, [head]
    and [tail] are indices of the ring and [next_head] is
    [(head + 1) mod SEGMENT_BUFFER_SIZE]; the ring holds between 0 and
    [SEGMENT_BUFFER_SIZE - 1] segments, none exactly when [head = tail] and
    [SEGMENT_BUFFER_SIZE - 1] exactly when [next_head = tail];
    [st_prep_buffer] returns and leaves at most [SEGMENT_BUFFER_SIZE - 1]
    segments in the ring; a tick of the stepper interrupt takes one segment
    out of a ring that holds one, or none; and [st_reset] leaves
    [head = tail = 0] and [next_head = 1]. *)
Theorem segment_ring_invariant (cfg : config) (planner : Type)
    (pl : planner_ops planner) (g : globals planner) :
  reachable cfg pl g ->
  ring_inv g /\
  0 <= segment_count g <= SEGMENT_BUFFER_SIZE - 1 /\
  (ring_empty g = true <-> segment_count g = 0) /\
  (ring_full g = true <-> segment_count g = SEGMENT_BUFFER_SIZE - 1) /\
  (exists g', st_prep_buffer cfg pl g = Some g' /\
              0 <= segment_count g' <= SEGMENT_BUFFER_SIZE - 1) /\
  (forall g', TIMER2_COMPA_vect cfg pl g = Some g' ->
              segment_count g' = segment_count g \/
              0 < segment_count g /\
              segment_count g' = segment_count g - 1) /\
  ring_of (st_reset g) = (0, 0, 1).
Proof.
  intros H. destruct (reachable_inv H) as (R & P & L).
  destruct (segment_count_empty_full R) as (C & E & F).
  repeat (split; [assumption|]). split; [|split].
  - destruct (st_prep_buffer_returns cfg pl P R) as (g' & B & _ & R').
    exists g'. split; [exact B|]. apply (segment_count_empty_full R').
  - intros g' T. exact (proj2 (TIMER2_COMPA_vect_consumes cfg pl R L T)).
  - reflexivity.
Qed.

(** The ring after [st_reset] and [st_prep_buffer] on a queue of two
    cruise blocks is full: five segments. *)
Lemma segment_ring_invariant_witness :
  let g0 := st_reset (power_on {| blocks := [cruise_block; cruise_block];
                                  current := 0 |} plain_settings in_cycle) in
  exists g, st_prep_buffer grbl_config queue_ops g0 = Some g /\
            reachable grbl_config queue_ops g /\
            ring_inv g /\ segment_count g = 5 /\ ring_full g = true.
Proof.
  intros g0.
  destruct (st_prep_buffer grbl_config queue_ops g0) as [g|] eqn:B;
    [|vm_compute in B; discriminate].
  assert (H0 : reachable grbl_config queue_ops g0)
    by (apply reachable_reset; reflexivity).
  assert (H : reachable grbl_config queue_ops g)
    by exact (reachable_op Op_st_prep_buffer H0 B).
  exists g. split; [reflexivity|]. split; [exact H|].
  split; [exact (proj1 (segment_ring_invariant H))|].
  vm_compute in B. injection B as <-. vm_compute. split; reflexivity.
Defined.

(** C3, on the code.  The first two segments of the cruise block have
    [n_step = 3], and [n_phase_tick = 24] and [48].  The tick that loads the
    first leaves [st.phase_count] at 0; [tail] still points at the segment
    after eight ticks, and the ninth tick, which makes the third step,
    advances [tail] at once and leaves [st.phase_count] at 255, one below 0
    in 8 bits.  The tenth tick loads the second segment and leaves
    [st.phase_count] at 255; tick 18 makes its third step, and [tail]
    advances 255 ticks later, in tick 273. *)
Theorem isr_load_ignores_n_phase_tick :
  let q := [cruise_block; cruise_block] in
  let observe g :=
    (step_count (st g), phase_count (st g), segment_buffer_tail g) in
  option_map (fun g => map (fun s => (n_step s, n_phase_tick s))
                         (firstn 2 (segment_buffer g))) (started q)
  = Some [(3, 24); (3, 48)] /\
  option_map observe (started_then 1 q) = Some (3, 0, 0) /\
  option_map observe (started_then 8 q) = Some (1, 0, 0) /\
  option_map observe (started_then 9 q) = Some (0, 255, 1) /\
  option_map observe (started_then 10 q) = Some (3, 255, 1) /\
  option_map observe (started_then 18 q) = Some (0, 254, 1) /\
  option_map observe (started_then 272 q) = Some (0, 0, 1) /\
  option_map observe (started_then 273 q) = Some (0, 255, 2).
Proof. vm_compute. repeat split; reflexivity. Qed.

(** C4, on the code.  Of a block run at 10 steps per second the preparer
    publishes five segments, each with [n_step = 0], which is below
    [MINIMUM_STEPS_PER_SEGMENT]. *)
Theorem prep_emits_segments_without_steps :
  let q := [slow_block; slow_block] in
  option_map (fun g => (segment_buffer_tail g, segment_buffer_head g,
                        map n_step (firstn 5 (segment_buffer g))))
             (started q)
  = Some (0, 5, [0; 0; 0; 0; 0]) /\
  0 < MINIMUM_STEPS_PER_SEGMENT.
Proof. vm_compute. split; reflexivity. Qed.

(** C5, on the code.  [DT_SEGMENT] is the quotient of
    [ACCELERATION_TICKS_PER_SECOND] by [ISR_TICKS_PER_SECOND]; with 100 and
    30000 ticks per second it is [100/30000], less than one hundredth. *)
Theorem DT_SEGMENT_is_rate_quotient :
  (forall c, DT_SEGMENT c
             = (ACCELERATION_TICKS_PER_SECOND c / ISR_TICKS_PER_SECOND c)%f32)
  /\
  DT_SEGMENT grbl_config = (F32.of_Z 100 / F32.of_Z 30000)%f32 /\
  (DT_SEGMENT grbl_config <? F32.of_Z 1 / F32.of_Z 100)%f32 = true /\
  (DT_SEGMENT grbl_config
   =? ISR_TICKS_PER_SECOND grbl_config
      / ACCELERATION_TICKS_PER_SECOND grbl_config
      / ISR_TICKS_PER_SECOND grbl_config)%f32 = false.
Proof. split; [reflexivity|]. vm_compute. repeat split; reflexivity. Qed.

(** C9, on the code.  The block of 250 steps per millimeter has its X
    direction bit set.  After the tick that loads it the port is still as
    before, and [out_bits] already holds the direction bit together with
    the step bit of the first step; the next tick writes both to the port
    at once. *)
Theorem direction_and_step_latched_together :
  let q := [fine_block; fine_block] in
  let dir := bit (X_DIRECTION_BIT grbl_config) in
  let step := bit (X_STEP_BIT grbl_config) in
  direction_bits fine_block = dir /\
  option_map (fun g => map (fun s => (dist_per_tick s))
                         (firstn 1 (segment_buffer g))) (started q)
  = Some [333333] /\
  option_map (fun g => map dist_per_step (firstn 1 (skipn 1 (segment_data g))))
             (started q)
  = Some [40000] /\
  option_map (fun g => STEPPING_PORT (io g)) (started q) = Some 0 /\
  option_map (fun g => (STEPPING_PORT (io g), out_bits (st g),
                        execute_step (st g))) (started_then 1 q)
  = Some (0, Z.lor dir step, true) /\
  option_map (fun g => STEPPING_PORT (io g)) (started_then 2 q)
  = Some (Z.lor dir step).
Proof. vm_compute. repeat split; reflexivity. Qed.

(** C8, as stated, fails on a queue of one block of one step.  After 150
    ticks the step has been made and flagged, the block is discarded, a
    block load is pending and the ring is empty.  The next tick goes idle
    and flags [EXEC_CYCLE_STOP]; it leaves [sys.state] at [STATE_CYCLE],
    and it puts the pulse of the flagged step on the stepping port (the
    step pin of X is bit 2) and the stepper disable pin at its disabling
    level. *)
Lemma isr_underrun_keeps_sys_state :
  let q := [single_step_block] in
  option_map (fun g => (busy g, load_flag (st g), segment_buffer_head g,
                        segment_buffer_tail g, state (sys g)))
             (started_then 150 q)
  = Some (false, LOAD_BLOCK, 1, 1, STATE_CYCLE) /\
  option_map (fun g => (execute_step (st g), STEPPING_PORT (io g),
                        STEPPERS_DISABLE_PORT (io g)))
             (started_then 150 q)
  = Some (true, 0, 0) /\
  option_map (fun g => (state (sys g), execute (sys g), TCCR2B (io g)))
             (started_then 151 q)
  = Some (STATE_CYCLE, EXEC_CYCLE_STOP grbl_config, 0) /\
  option_map (fun g => (execute_step (st g), STEPPING_PORT (io g),
                        STEPPERS_DISABLE_PORT (io g)))
             (started_then 151 q)
  = Some (false, bit (X_STEP_BIT grbl_config), 1) /\
  STATE_CYCLE <> STATE_IDLE.
Proof. vm_compute. repeat split; try reflexivity. discriminate. Qed.

(** The tick that follows the only step of a queue of one block. *)
Lemma isr_underrun_goes_idle_witness :
  let g := at_tick 150 [single_step_block] in
  busy g = false /\ load_flag (st g) <> LOAD_NOOP /\
  segment_buffer_head g = segment_buffer_tail g /\
  exists g',
    TIMER2_COMPA_vect grbl_config queue_ops g = Some g' /\
    state (sys g') = STATE_CYCLE /\
    execute (sys g') = EXEC_CYCLE_STOP grbl_config /\
    st g' = set_execute_step false (st g) /\
    (STEPPING_PORT (io g), STEPPING_PORT (io g')) = (0, 4) /\
    (STEPPERS_DISABLE_PORT (io g), STEPPERS_DISABLE_PORT (io g')) = (0, 1) /\
    at_x (position (sys g')) = 1.
Proof.
  intros g.
  assert (Hb : busy g = false) by (vm_compute; reflexivity).
  assert (Hl : load_flag (st g) <> LOAD_NOOP) by (vm_compute; discriminate).
  assert (He : segment_buffer_head g = segment_buffer_tail g)
    by (vm_compute; reflexivity).
  repeat (split; [assumption|]).
  assert (F : state (sys g) = STATE_CYCLE /\ execute (sys g) = 0 /\
              execute_step (st g) = true /\
              STEPPING_PORT (io g) = 0 /\ out_bits (st g) = 4 /\
              STEPPERS_DISABLE_PORT (io g) = 0 /\
              stepper_idle_lock_time (settings g) = 25 /\
              flags (settings g) = 0 /\
              at_x (position (sys g)) = 1)
    by (vm_compute; repeat split; reflexivity).
  destruct F as (F1 & F2 & F3 & F4 & F5 & F6 & F7 & F8 & F9).
  clearbody g.
  destruct (isr_underrun_goes_idle grbl_config queue_ops g Hb Hl He)
    as (g' & R & S & X & P & T & _ & _ & _ & _ & _ & _ & L & D & _).
  exists g'. split; [exact R|].
  split; [rewrite S; exact F1|].
  split; [rewrite X, F2; reflexivity|].
  split; [exact T|].
  rewrite F3 in L. injection L as L _ _. rewrite F4, F5 in L.
  split; [rewrite F4, L; reflexivity|].
  split; [rewrite D, F2, F6, F7, F8; reflexivity|].
  rewrite P. exact F9.
Defined.

(** The query on the started machine with an empty planner queue, where
    no block is being prepared. *)
Lemma st_fetch_partial_without_prep_block_witness :
  let g := started_machine [] in
  pl_prep_block g = None /\
  st_fetch_partial_block_parameters 0 (F32.of_Z 7) 1 g
  = Some (g, F32.of_Z 7, 1).
Proof.
  intros g.
  assert (H : pl_prep_block g = None) by reflexivity.
  split; [exact H|].
  exact (st_fetch_partial_without_prep_block g 0 (F32.of_Z 7) 1 H).
Defined.

(** * Further properties of the code *)

(** ** Writes to the ports *)

Lemma testbit_mask_write (p m v i : Z) :
  Z.testbit (Z.lor (Z.land p (Z.lnot m)) v) i
  = (Z.testbit p i && negb (Z.testbit m i)) || Z.testbit v i.
Proof.
  destruct (Z.neg_nonneg_cases i) as [N|N].
  - rewrite !Z.testbit_neg_r by assumption. reflexivity.
  - rewrite Z.lor_spec, Z.land_spec, Z.lnot_spec by assumption. reflexivity.
Qed.

Lemma testbit_bit_true (x n i : Z) :
  0 <= n ->
  Z.testbit (bit_true x (bit n)) i = (n =? i) || Z.testbit x i.
Proof.
  intros H. unfold bit_true. rewrite Z.lor_spec, testbit_bit by assumption.
  apply Bool.orb_comm.
Qed.

Lemma testbit_bit_false (x n i : Z) :
  0 <= n ->
  Z.testbit (bit_false x (bit n)) i = negb (n =? i) && Z.testbit x i.
Proof.
  intros H. unfold bit_false.
  destruct (Z.neg_nonneg_cases i) as [N|N].
  - rewrite !Z.testbit_neg_r by assumption. apply eq_sym, Bool.andb_false_r.
  - rewrite Z.land_spec, Z.lnot_spec, testbit_bit by assumption.
    apply Bool.andb_comm.
Qed.

Lemma testbit_STEP_MASK (cfg : config) (i : Z) :
  pin_map_ok cfg ->
  Z.testbit (STEP_MASK cfg) i
  = (X_STEP_BIT cfg =? i) || (Y_STEP_BIT cfg =? i) || (Z_STEP_BIT cfg =? i).
Proof.
  intros (S & _). unfold STEP_MASK.
  pose proof (S X_AXIS). pose proof (S Y_AXIS). pose proof (S Z_AXIS).
  cbn [step_bit_of] in *.
  rewrite !Z.lor_spec, !testbit_bit by lia. reflexivity.
Qed.

Lemma testbit_DIRECTION_MASK (cfg : config) (i : Z) :
  pin_map_ok cfg ->
  Z.testbit (DIRECTION_MASK cfg) i
  = (X_DIRECTION_BIT cfg =? i) || (Y_DIRECTION_BIT cfg =? i)
    || (Z_DIRECTION_BIT cfg =? i).
Proof.
  intros (_ & D & _). unfold DIRECTION_MASK.
  pose proof (D X_AXIS). pose proof (D Y_AXIS). pose proof (D Z_AXIS).
  cbn [direction_bit_of] in *.
  rewrite !Z.lor_spec, !testbit_bit by lia. reflexivity.
Qed.

Lemma STEP_MASK_step_bit (cfg : config) (a : axis) :
  pin_map_ok cfg -> Z.testbit (STEP_MASK cfg) (step_bit_of cfg a) = true.
Proof.
  intros P. rewrite testbit_STEP_MASK by assumption.
  destruct a; cbn [step_bit_of];
    rewrite Z.eqb_refl, ?Bool.orb_true_r; reflexivity.
Qed.

Lemma STEP_MASK_other (cfg : config) (i : Z) :
  pin_map_ok cfg -> (forall a, i <> step_bit_of cfg a) ->
  Z.testbit (STEP_MASK cfg) i = false.
Proof.
  intros P H. rewrite testbit_STEP_MASK by assumption.
  pose proof (H X_AXIS). pose proof (H Y_AXIS). pose proof (H Z_AXIS).
  cbn [step_bit_of] in *.
  repeat match goal with
         | |- context [?x =? i] => destruct (Z.eqb_spec x i); [lia|]
         end.
  reflexivity.
Qed.

Lemma DIRECTION_MASK_direction_bit (cfg : config) (a : axis) :
  pin_map_ok cfg ->
  Z.testbit (DIRECTION_MASK cfg) (direction_bit_of cfg a) = true.
Proof.
  intros P. rewrite testbit_DIRECTION_MASK by assumption.
  destruct a; cbn [direction_bit_of];
    rewrite Z.eqb_refl, ?Bool.orb_true_r; reflexivity.
Qed.

(** X1.  [ISR(TIMER0_OVF_vect)] ends the step pulse: it puts every step
    pin at the level the invert mask gives it, leaves every other bit of
    the stepping port, the direction pins among them, as it is, and stops
    Timer0.  It writes nothing else. *)
Theorem TIMER0_OVF_vect_ends_pulse (cfg : config) (planner : Type)
    (g : globals planner) :
  pin_map_ok cfg ->
  let g' := TIMER0_OVF_vect cfg g in
  (forall a, Z.testbit (STEPPING_PORT (io g')) (step_bit_of cfg a)
             = Z.testbit (invert_mask (settings g)) (step_bit_of cfg a)) /\
  (forall i, (forall a, i <> step_bit_of cfg a) ->
             Z.testbit (STEPPING_PORT (io g')) i
             = Z.testbit (STEPPING_PORT (io g)) i) /\
  TCCR0B (io g') = 0 /\
  (st g', sys g', ring_of g', prep_fields g', plan g',
   (STEPPERS_DISABLE_PORT (io g'), SPINDLE_ENABLE_PORT (io g'),
    TIMSK2 (io g'), TCCR2B (io g'), TCNT2 (io g'), TCNT0 (io g')))
  = (st g, sys g, ring_of g, prep_fields g, plan g,
     (STEPPERS_DISABLE_PORT (io g), SPINDLE_ENABLE_PORT (io g),
      TIMSK2 (io g), TCCR2B (io g), TCNT2 (io g), TCNT0 (io g))).
Proof.
  intros P g'. subst g'. unfold TIMER0_OVF_vect. cbv zeta.
  cbn [io upd_io set_io STEPPING_PORT set_TCCR0B set_STEPPING_PORT TCCR0B
       settings].
  split; [|split; [|split; reflexivity]].
  - intros a. rewrite testbit_mask_write, Z.land_spec.
    rewrite (STEP_MASK_step_bit a P). cbn [negb].
    rewrite Bool.andb_false_r, Bool.andb_true_r. reflexivity.
  - intros i H. rewrite testbit_mask_write, Z.land_spec.
    rewrite (STEP_MASK_other P H). cbn [negb].
    rewrite Bool.andb_false_r, Bool.andb_true_r, Bool.orb_false_r.
    reflexivity.
Qed.

(** After a pulse on the X and Z pins of a machine whose invert mask
    holds the Y step pin, the port shows the Y pin alone among the step
    pins, with the direction pin it had. *)
Lemma TIMER0_OVF_vect_ends_pulse_witness :
  let g := upd_io (set_STEPPING_PORT (Z.lor (bit 2) (Z.lor (bit 4) (bit 6))))
             (power_on {| blocks := []; current := 0 |}
                {| invert_mask := bit 3; flags := 0;
                   stepper_idle_lock_time := 25; pulse_microseconds := 10 |}
                in_cycle) in
  pin_map_ok grbl_config /\
  STEPPING_PORT (io (TIMER0_OVF_vect grbl_config g))
  = Z.lor (bit 3) (bit 6) /\
  forall a,
    Z.testbit (STEPPING_PORT (io (TIMER0_OVF_vect grbl_config g)))
      (step_bit_of grbl_config a)
    = Z.testbit (invert_mask (settings g)) (step_bit_of grbl_config a).
Proof.
  intros g. split; [exact grbl_config_pins|]. split; [reflexivity|].
  exact (proj1 (TIMER0_OVF_vect_ends_pulse g grbl_config_pins)).
Defined.

(** ** What the phases of the stepper interrupt leave alone *)

Lemma quiet_fields_eq (planner : Type) (g g' : globals planner) :
  quiet_fields g' = quiet_fields g ->
  io g' = io g /\ plan g' = plan g /\ settings g' = settings g /\
  segment_buffer_tail g' = segment_buffer_tail g /\
  segment_buffer_head g' = segment_buffer_head g.
Proof.
  unfold quiet_fields, ring_of. intros H. injection H. intros.
  repeat split; assumption.
Qed.

Section ExecFrame.
Variable cfg : config.
Variable planner : Type.
Variable pl : planner_ops planner.

Local Abbreviation globals := (globals planner).

Lemma isr_load_block_quiet (g g' : globals) :
  isr_load_block pl g = Some g' ->
  quiet_fields g' = quiet_fields g /\ sys g' = sys g.
Proof.
  unfold isr_load_block.
  destruct g as [[? ? ? ? ? ? ? ? ? ?] ? ? ? ? ? ? ? ? ? ? ? ? ? ? ? ? ? ?].
  cbn. intros H. split_match H. injection H as <-. split; reflexivity.
Qed.

Lemma isr_bresenham_axis_quiet (a : axis) (b : plan_block_t) (g : globals) :
  quiet_fields (isr_bresenham_axis cfg a b g) = quiet_fields g.
Proof.
  unfold isr_bresenham_axis. cbv zeta.
  repeat match goal with
         | |- context [if ?c then _ else _] => destruct c
         end; reflexivity.
Qed.

Lemma isr_step_event_quiet (b : plan_block_t) (d : st_data_t) (g : globals) :
  quiet_fields (isr_step_event cfg b d g) = quiet_fields g.
Proof.
  unfold isr_step_event. cbv zeta.
  set (g1 := upd_st (set_execute_step true) _).
  assert (E1 : quiet_fields g1 = quiet_fields g) by reflexivity.
  clearbody g1.
  pose proof (isr_bresenham_axis_quiet X_AXIS b g1) as A.
  pose proof (isr_bresenham_axis_quiet Y_AXIS b
                (isr_bresenham_axis cfg X_AXIS b g1)) as B.
  pose proof (isr_bresenham_axis_quiet Z_AXIS b
                (isr_bresenham_axis cfg Y_AXIS b
                   (isr_bresenham_axis cfg X_AXIS b g1))) as C.
  set (g4 := isr_bresenham_axis cfg Z_AXIS b _) in *.
  clearbody g4. rewrite <- E1, <- A, <- B, <- C. reflexivity.
Qed.

Lemma isr_inverse_time_quiet (g g' : globals) :
  isr_inverse_time cfg g = Some g' -> quiet_fields g' = quiet_fields g.
Proof.
  unfold isr_inverse_time. intros H.
  destruct (st_current_segment g); [|discriminate]. cbv beta iota in H.
  destruct (index _ _) as [seg|]; [|discriminate].
  cbv zeta in H. cbn -[isr_step_event] in H.
  split_match H; injection H as <-;
    [rewrite isr_step_event_quiet|..]; reflexivity.
Qed.

(** The end of a segment: the planner block is discarded exactly when the
    segment is flagged as the last of its block, and only in a tick that
    advances [tail]. *)
Lemma isr_segment_complete_plan (g g' : globals) :
  isr_segment_complete pl g = Some g' ->
  io g' = io g /\ sys g' = sys g /\ settings g' = settings g /\
  segment_buffer_head g' = segment_buffer_head g /\
  (plan g' = plan g /\
   (segment_buffer_tail g' = segment_buffer_tail g \/
    exists i seg, st_current_segment g = Some i /\
                  index (segment_buffer g) i = Some seg /\
                  Z.land (flag seg) SEGMENT_END_OF_BLOCK = 0 /\
                  load_flag (st g') = LOAD_SEGMENT /\
                  segment_buffer_tail g'
                  = next_index (segment_buffer_tail g))
   \/
   exists i seg, st_current_segment g = Some i /\
                 index (segment_buffer g) i = Some seg /\
                 Z.land (flag seg) SEGMENT_END_OF_BLOCK <> 0 /\
                 plan g' = plan_discard_current_block pl (plan g) /\
                 load_flag (st g') = LOAD_BLOCK /\
                 segment_buffer_tail g'
                 = next_index (segment_buffer_tail g)).
Proof.
  unfold isr_segment_complete, next_index.
  destruct g as [[cx cy cz cd sc pc ex spt ob lf]
                 sd sb tl hd nh bz cb cs cdt pb pd pi di pf y se r pn].
  cbn. intros H.
  destruct (sc =? 0); [|injection H as <-; cbn; auto 10].
  destruct (pc =? 0); [|injection H as <-; cbn; auto 10].
  destruct cs as [i|]; [|discriminate]. cbn in H.
  destruct (index sb i) as [seg|] eqn:Es; [|discriminate].
  cbn in H.
  destruct (Z.eqb_spec (Z.land (flag seg) SEGMENT_END_OF_BLOCK) 0) as [E|E];
    cbn in H;
    destruct (to_u8 (tl + 1) =? SEGMENT_BUFFER_SIZE);
    injection H as <-; cbn; repeat (split; [reflexivity|]).
  - left. split; [reflexivity|]. right. exists i, seg. auto.
  - left. split; [reflexivity|]. right. exists i, seg. auto.
  - right. exists i, seg. auto 10.
  - right. exists i, seg. auto 10.
Qed.

Lemma st_go_idle_latch (g : globals) :
  latch_fields (st_go_idle cfg g) = latch_fields g /\
  plan (st_go_idle cfg g) = plan g /\
  settings (st_go_idle cfg g) = settings g.
Proof.
  unfold st_go_idle.
  repeat match goal with
         | |- context [if ?c then _ else _] => destruct c
         end; repeat split; reflexivity.
Qed.

Lemma isr_load_segment_quiet (g : globals) (r : isr_load planner) :
  isr_load_segment cfg pl g = Some r ->
  match r with
  | Proceed g' => quiet_fields g' = quiet_fields g /\ sys g' = sys g
  | Leave g' =>
      latch_fields g' = latch_fields g /\ plan g' = plan g /\
      settings g' = settings g /\ position (sys g') = position (sys g) /\
      ring_of g' = ring_of g
  end.
Proof.
  unfold isr_load_segment. intros H.
  destruct (negb (load_flag (st g) =? LOAD_NOOP)).
  - destruct (negb (segment_buffer_head g =? segment_buffer_tail g)).
    + cbn [st_current_segment set_st_current_segment] in H.
      destruct (index _ _) as [seg|]; [|discriminate].
      destruct (load_flag _ =? LOAD_BLOCK).
      * destruct (isr_load_block pl _) as [g1|] eqn:L; [|discriminate].
        injection H as <-. apply isr_load_block_quiet in L.
        destruct g1 as [[]]. destruct g as [[]]. exact L.
      * injection H as <-. destruct g as [[]]. split; reflexivity.
    + injection H as <-.
      destruct (st_go_idle_latch g) as (A & B & C).
      destruct (st_go_idle_spec cfg g) as (_ & D & E & _).
      unfold upd_sys.
      change (latch_fields (set_sys ?y ?x)) with (latch_fields x).
      change (ring_of (set_sys ?y ?x)) with (ring_of x).
      cbn [plan settings sys set_sys position set_execute].
      rewrite D. auto.
  - injection H as <-. split; reflexivity.
Qed.

(** A tick of the interrupt, phase by phase. *)
Lemma TIMER2_COMPA_vect_phases (g g' : globals) :
  busy g = false ->
  TIMER2_COMPA_vect cfg pl g = Some g' ->
  (exists g1,
     isr_load_segment cfg pl (set_busy true (isr_pulse cfg g))
     = Some (Leave g1) /\ g' = g1) \/
  (exists g1 g2 g3,
     isr_load_segment cfg pl (set_busy true (isr_pulse cfg g))
     = Some (Proceed g1) /\
     isr_inverse_time cfg g1 = Some g2 /\
     isr_segment_complete pl g2 = Some g3 /\
     g' = set_busy false g3).
Proof.
  intros Hb. unfold TIMER2_COMPA_vect. rewrite Hb. cbv zeta.
  destruct (isr_load_segment cfg pl _) as [[g1|g1]|]; [| |discriminate].
  - destruct (isr_inverse_time cfg g1) as [g2|] eqn:I; [|discriminate].
    destruct (isr_segment_complete pl g2) as [g3|] eqn:C; [|discriminate].
    intros H. injection H as <-. right. exists g1, g2, g3. auto.
  - intros H. injection H as <-. left. exists g1. auto.
Qed.

End ExecFrame.

Section ExecPort.
Variable cfg : config.
Variable planner : Type.
Variable pl : planner_ops planner.

Local Abbreviation globals := (globals planner).

Lemma TIMER2_COMPA_vect_latch (g g' : globals) :
  busy g = false ->
  TIMER2_COMPA_vect cfg pl g = Some g' ->
  latch_fields g' = latch_fields (isr_pulse cfg g).
Proof.
  intros Hb H.
  destruct (@TIMER2_COMPA_vect_phases cfg planner pl g g' Hb H)
    as [(g1 & L & ->)|(g1 & g2 & g3 & L & I & C & ->)].
  - apply isr_load_segment_quiet in L. destruct L as (L & _). exact L.
  - apply isr_load_segment_quiet in L. destruct L as (L & _).
    apply quiet_fields_eq in L. destruct L as (L & _).
    apply isr_inverse_time_quiet, quiet_fields_eq in I.
    destruct I as (I & _).
    apply isr_segment_complete_plan in C. destruct C as (C & _).
    unfold latch_fields. cbn [io set_busy] in *. rewrite C, I, L.
    reflexivity.
Qed.

(** X2.  A tick of [ISR(TIMER2_COMPA_vect)] writes the stepping port at
    most once, at its start, and only when the tick before flagged
    [execute_step]: then every step and direction pin takes its bit of
    [out_bits], no other bit of the port is cleared, and Timer0 is loaded
    with [step_pulse_time] and started.  Otherwise the port and Timer0 are
    left as they are, and a tick that finds [busy] set changes nothing at
    all. *)
Theorem TIMER2_COMPA_vect_writes_port_once (g g' : globals) :
  pin_map_ok cfg ->
  TIMER2_COMPA_vect cfg pl g = Some g' ->
  (busy g = true -> g' = g) /\
  (busy g = false -> execute_step (st g) = false ->
   latch_fields g' = latch_fields g) /\
  (busy g = false -> execute_step (st g) = true ->
   (forall a, Z.testbit (STEPPING_PORT (io g')) (step_bit_of cfg a)
              = Z.testbit (out_bits (st g)) (step_bit_of cfg a)) /\
   (forall a, Z.testbit (STEPPING_PORT (io g')) (direction_bit_of cfg a)
              = Z.testbit (out_bits (st g)) (direction_bit_of cfg a)) /\
   (forall i, Z.testbit (STEPPING_PORT (io g)) i = true ->
              (forall a, i <> step_bit_of cfg a) ->
              (forall a, i <> direction_bit_of cfg a) ->
              Z.testbit (STEPPING_PORT (io g')) i = true) /\
   TCNT0 (io g') = step_pulse_time (st g) /\
   TCCR0B (io g') = bit (CS21 cfg)).
Proof.
  intros P H. split; [|split].
  - intros Hb. unfold TIMER2_COMPA_vect in H. rewrite Hb in H.
    injection H as <-. reflexivity.
  - intros Hb Hx. rewrite (@TIMER2_COMPA_vect_latch g g' Hb H).
    unfold isr_pulse. rewrite Hx. reflexivity.
  - intros Hb Hx. pose proof (@TIMER2_COMPA_vect_latch g g' Hb H) as L.
    unfold isr_pulse in L. rewrite Hx in L. unfold latch_fields in L.
    cbn in L. injection L as Lp Lt Lc _ _. rewrite Lp, Lt, Lc.
    split; [|split; [|split; [|split; reflexivity]]].
    + intros a. rewrite testbit_mask_write, Z.lor_spec.
      rewrite (STEP_MASK_step_bit a P), Bool.orb_true_r. cbn [negb].
      rewrite Bool.andb_false_r. reflexivity.
    + intros a. rewrite testbit_mask_write, Z.lor_spec.
      rewrite (DIRECTION_MASK_direction_bit a P). cbn [negb orb].
      rewrite Bool.andb_false_r. reflexivity.
    + intros i Hi Hs Hd. rewrite testbit_mask_write, Z.lor_spec, Hi.
      rewrite (STEP_MASK_other P Hs).
      rewrite testbit_DIRECTION_MASK by assumption.
      pose proof (Hd X_AXIS). pose proof (Hd Y_AXIS). pose proof (Hd Z_AXIS).
      cbn [direction_bit_of] in *.
      repeat match goal with
             | |- context [?x =? i] => destruct (Z.eqb_spec x i); [lia|]
             end.
      reflexivity.
Qed.

(** X3.  A tick of [ISR(TIMER2_COMPA_vect)] calls
    [plan_discard_current_block] at most once, and exactly when it
    advances [tail] over a segment flagged [SEGMENT_END_OF_BLOCK]; it then
    asks for a block load.  A tick that advances [tail] over another
    segment asks for a segment load and leaves the planner alone, and a
    tick that does not advance [tail] leaves the planner alone too. *)
Theorem TIMER2_COMPA_vect_discards_block (g g' : globals) :
  TIMER2_COMPA_vect cfg pl g = Some g' ->
  (plan g' = plan g /\ segment_buffer_tail g' = segment_buffer_tail g) \/
  (exists i seg,
     st_current_segment g' = Some i /\
     index (segment_buffer g') i = Some seg /\
     segment_buffer_tail g' = next_index (segment_buffer_tail g) /\
     (Z.land (flag seg) SEGMENT_END_OF_BLOCK = 0 /\
      plan g' = plan g /\ load_flag (st g') = LOAD_SEGMENT
      \/
      Z.land (flag seg) SEGMENT_END_OF_BLOCK <> 0 /\
      plan g' = plan_discard_current_block pl (plan g) /\
      load_flag (st g') = LOAD_BLOCK)).
Proof.
  intros H. destruct (busy g) eqn:Hb.
  - unfold TIMER2_COMPA_vect in H. rewrite Hb in H. injection H as <-.
    left. split; reflexivity.
  - assert (Pp : plan (isr_pulse cfg g) = plan g)
      by (unfold isr_pulse; destruct (execute_step (st g)); reflexivity).
    destruct (isr_pulse_spec cfg g) as (_ & _ & Pr & _).
    destruct (@TIMER2_COMPA_vect_phases cfg planner pl g g' Hb H)
      as [(g1 & L & ->)|(g1 & g2 & g3 & L & I & C & ->)].
    + apply isr_load_segment_quiet in L.
      destruct L as (_ & L & _ & _ & R). left.
      cbn [plan set_busy] in L.
      change (ring_of (set_busy true (isr_pulse cfg g)))
        with (ring_of (isr_pulse cfg g)) in R.
      rewrite Pr in R. unfold ring_of in R. injection R as R _ _.
      split; congruence.
    + apply isr_load_segment_quiet in L. destruct L as (L & _).
      apply quiet_fields_eq in L. destruct L as (_ & Lp & _ & Lt & _).
      apply isr_inverse_time_quiet, quiet_fields_eq in I.
      destruct I as (_ & Ip & _ & It & _).
      cbn [plan set_busy segment_buffer_tail] in Lp, Lt.
      unfold ring_of in Pr. injection Pr as Pt _ _.
      assert (T2 : segment_buffer_tail g2 = segment_buffer_tail g)
        by congruence.
      assert (P2 : plan g2 = plan g) by congruence.
      assert (F : st_current_segment g3 = st_current_segment g2 /\
                  segment_buffer g3 = segment_buffer g2).
      { clear - C. unfold isr_segment_complete in C.
        destruct g2 as [[cx cy cz cd sc pc ex spt ob lf]
                        sd sb tl hd nh bz cb cs cdt pb pd pi di pf y se r pn].
        cbn in C. split_match C; injection C as <-; split; reflexivity. }
      destruct F as (F1 & F2).
      apply isr_segment_complete_plan in C.
      destruct C as (_ & _ & _ & _ & [(Cp & [Ct|Cx])|Cx]).
      * left. cbn [plan set_busy segment_buffer_tail]. split; congruence.
      * destruct Cx as (i & seg & Ci & Cs & Cf & Cl & Ct).
        right. exists i, seg.
        cbn [st_current_segment segment_buffer set_busy plan st
             segment_buffer_tail].
        rewrite F1, F2, Ct, T2.
        split; [exact Ci|]. split; [exact Cs|]. split; [reflexivity|].
        left. split; [exact Cf|]. split; [congruence | exact Cl].
      * destruct Cx as (i & seg & Ci & Cs & Cf & Cp & Cl & Ct).
        right. exists i, seg.
        cbn [st_current_segment segment_buffer set_busy plan st
             segment_buffer_tail].
        rewrite F1, F2, Ct, T2.
        split; [exact Ci|]. split; [exact Cs|]. split; [reflexivity|].
        right. split; [exact Cf|]. split; [congruence | exact Cl].
Qed.

End ExecPort.

(** The second tick of the block of 250 steps per millimeter puts the X
    direction and step pins on the port and starts a pulse of 16 counts of
    Timer0. *)
Lemma TIMER2_COMPA_vect_writes_port_once_witness :
  let g := at_tick 1 [fine_block; fine_block] in
  exists g',
    TIMER2_COMPA_vect grbl_config queue_ops g = Some g' /\
    busy g = false /\ execute_step (st g) = true /\
    Z.testbit (STEPPING_PORT (io g')) (step_bit_of grbl_config X_AXIS)
    = true /\
    Z.testbit (STEPPING_PORT (io g')) (direction_bit_of grbl_config X_AXIS)
    = true /\
    Z.testbit (STEPPING_PORT (io g')) (step_bit_of grbl_config Y_AXIS)
    = false /\
    TCNT0 (io g') = 240.
Proof.
  intros g.
  destruct (TIMER2_COMPA_vect grbl_config queue_ops g) as [g'|] eqn:T;
    [|vm_compute in T; discriminate].
  exists g'. split; [reflexivity|].
  assert (Hb : busy g = false) by reflexivity.
  assert (Hx : execute_step (st g) = true) by reflexivity.
  split; [exact Hb|]. split; [exact Hx|].
  destruct (@TIMER2_COMPA_vect_writes_port_once grbl_config queue queue_ops
              g g' grbl_config_pins T) as (_ & _ & W).
  destruct (W Hb Hx) as (Ws & Wd & _ & Wt & _).
  rewrite (Ws X_AXIS), (Wd X_AXIS), (Ws Y_AXIS), Wt.
  vm_compute. repeat split; reflexivity.
Defined.

(** The ninth tick of the cruise block makes the third step of the first
    segment and advances [tail] over it; the segment is not the last of its
    block and the planner keeps the block. *)
Lemma TIMER2_COMPA_vect_discards_block_witness :
  let g := at_tick 8 [cruise_block; cruise_block] in
  exists g',
    TIMER2_COMPA_vect grbl_config queue_ops g = Some g' /\
    segment_buffer_tail g = 0 /\ segment_buffer_tail g' = 1 /\
    plan g' = plan g /\ load_flag (st g') = LOAD_SEGMENT.
Proof.
  intros g.
  destruct (TIMER2_COMPA_vect grbl_config queue_ops g) as [g'|] eqn:T;
    [|vm_compute in T; discriminate].
  exists g'. split; [reflexivity|]. split; [reflexivity|].
  assert (T1 : segment_buffer_tail g' = 1)
    by (vm_compute in T; injection T as <-; reflexivity).
  split; [exact T1|].
  destruct (@TIMER2_COMPA_vect_discards_block grbl_config queue queue_ops
              g g' T) as [(_ & E)|(i & seg & Ci & Cs & _ & [C|C])].
  - rewrite T1 in E. vm_compute in E. discriminate E.
  - destruct C as (_ & Cp & Cl). split; assumption.
  - exfalso. destruct C as (Cf & _).
    vm_compute in T. injection T as <-.
    vm_compute in Ci. injection Ci as <-.
    vm_compute in Cs. injection Cs as <-.
    apply Cf. reflexivity.
Defined.

(** ** Waking up and going idle *)

Section WakeIdle.
Variable cfg : config.
Variable planner : Type.

Local Abbreviation globals := (globals planner).

Lemma st_wake_up_outside (g : globals) :
  settings (st_wake_up cfg g) = settings g /\
  sys (st_wake_up cfg g) = sys g /\
  STEPPING_PORT (io (st_wake_up cfg g)) = STEPPING_PORT (io g) /\
  TCCR0B (io (st_wake_up cfg g)) = TCCR0B (io g) /\
  busy (st_wake_up cfg g) = busy g /\
  (state (sys g) <> STATE_CYCLE -> st (st_wake_up cfg g) = st g).
Proof.
  unfold st_wake_up. cbv zeta.
  destruct (bit_istrue _ _);
    match goal with
    | |- context [match ?y with STATE_CYCLE => _ | _ => _ end] =>
        destruct y eqn:E
    end;
    repeat (split; [reflexivity|]); intros N;
    first [reflexivity | contradiction N; exact E].
Qed.

Lemma st_wake_up_pin (g : globals) :
  STEPPERS_DISABLE_PORT (io (st_wake_up cfg g))
  = if bit_istrue (flags (settings g)) (BITFLAG_INVERT_ST_ENABLE cfg)
    then bit_true (STEPPERS_DISABLE_PORT (io g))
           (bit (STEPPERS_DISABLE_BIT cfg))
    else bit_false (STEPPERS_DISABLE_PORT (io g))
           (bit (STEPPERS_DISABLE_BIT cfg)).
Proof.
  unfold st_wake_up. cbv zeta.
  destruct (bit_istrue _ _);
    match goal with
    | |- context [match ?y with STATE_CYCLE => _ | _ => _ end] => destruct y
    end; reflexivity.
Qed.

Lemma st_go_idle_pin (g : globals) :
  STEPPERS_DISABLE_PORT (io (st_go_idle cfg g))
  = if negb (stepper_idle_lock_time (settings g) =? 255)
       || bit_istrue (execute (sys g)) (EXEC_ALARM cfg)
    then
      if bit_istrue (flags (settings g)) (BITFLAG_INVERT_ST_ENABLE cfg)
      then bit_false (STEPPERS_DISABLE_PORT (io g))
             (bit (STEPPERS_DISABLE_BIT cfg))
      else bit_true (STEPPERS_DISABLE_PORT (io g))
             (bit (STEPPERS_DISABLE_BIT cfg))
    else STEPPERS_DISABLE_PORT (io g).
Proof.
  unfold st_go_idle. cbv zeta.
  cbn [settings sys set_busy upd_io set_io].
  destruct (negb _ || _); [destruct (bit_istrue _ _)|]; reflexivity.
Qed.

(** X4.  The stepper enable pin.  [st_wake_up] puts the pin at the level
    that enables the drivers: high when [BITFLAG_INVERT_ST_ENABLE] is set
    in the settings, low otherwise.  [st_go_idle] puts it at the opposite
    level, except when the idle lock time is 255 and no alarm is flagged:
    then it leaves the pin as it is, so that the drivers stay enabled after
    [st_wake_up].  Neither function changes another bit of the port. *)
Theorem stepper_enable_pin (g : globals) :
  0 <= STEPPERS_DISABLE_BIT cfg ->
  let pin := STEPPERS_DISABLE_BIT cfg in
  let port (x : globals) := STEPPERS_DISABLE_PORT (io x) in
  let inverted :=
    bit_istrue (flags (settings g)) (BITFLAG_INVERT_ST_ENABLE cfg) in
  let keep :=
    (stepper_idle_lock_time (settings g) =? 255)
    && negb (bit_istrue (execute (sys g)) (EXEC_ALARM cfg)) in
  Z.testbit (port (st_wake_up cfg g)) pin = inverted /\
  Z.testbit (port (st_go_idle cfg g)) pin
  = (if keep then Z.testbit (port g) pin else negb inverted) /\
  Z.testbit (port (st_go_idle cfg (st_wake_up cfg g))) pin
  = (if keep then inverted else negb inverted) /\
  (forall i, i <> pin ->
     Z.testbit (port (st_wake_up cfg g)) i = Z.testbit (port g) i /\
     Z.testbit (port (st_go_idle cfg g)) i = Z.testbit (port g) i).
Proof.
  intros Hp pin port inverted keep.
  destruct (st_wake_up_outside g) as (Ws & Wy & _).
  assert (W : forall i,
             Z.testbit (port (st_wake_up cfg g)) i
             = if pin =? i then inverted else Z.testbit (port g) i).
  { intros i. unfold port. rewrite st_wake_up_pin. fold inverted.
    destruct inverted;
      [rewrite testbit_bit_true | rewrite testbit_bit_false];
      try assumption; fold pin; destruct (pin =? i); reflexivity. }
  assert (I : forall x : globals,
             settings x = settings g -> sys x = sys g ->
             forall i,
               Z.testbit (port (st_go_idle cfg x)) i
               = if keep then Z.testbit (port x) i
                 else if pin =? i then negb inverted
                      else Z.testbit (port x) i).
  { intros x Es Ey i. unfold port. rewrite st_go_idle_pin, Es, Ey.
    fold inverted. unfold keep.
    destruct (stepper_idle_lock_time (settings g) =? 255);
      destruct (bit_istrue (execute (sys g)) (EXEC_ALARM cfg));
      cbn [negb orb andb]; try reflexivity;
      (destruct inverted;
       [rewrite testbit_bit_false | rewrite testbit_bit_true];
       try assumption; fold pin; destruct (pin =? i); reflexivity). }
  split; [rewrite W, Z.eqb_refl; reflexivity|].
  split; [rewrite (I g eq_refl eq_refl), Z.eqb_refl; reflexivity|].
  split.
  - rewrite (I _ Ws Wy), W, Z.eqb_refl. reflexivity.
  - intros i Hi. rewrite W, (I g eq_refl eq_refl).
    destruct (Z.eqb_spec pin i) as [E|_]; [symmetry in E; contradiction|].
    destruct keep; split; reflexivity.
Qed.

(** X5.  The length of the step pulse.  In [STATE_CYCLE], [st_wake_up]
    sets [step_pulse_time] so that Timer0, loaded with it, overflows after
    [((pulse_microseconds - 2) * TICKS_PER_MICROSECOND) >> 3] counts when
    that number lies between 1 and 255; when it is 0 or another multiple of
    256, [step_pulse_time] is 0 and Timer0 runs through all 256 counts. *)
Theorem step_pulse_time_counts (g : globals) :
  state (sys g) = STATE_CYCLE ->
  let k := Z.shiftr ((pulse_microseconds (settings g) - 2)
                     * TICKS_PER_MICROSECOND cfg) 3 in
  let t := step_pulse_time (st (st_wake_up cfg g)) in
  0 <= t < 256 /\
  (t + k) mod 256 = 0 /\
  (0 < k < 256 -> 256 - t = k) /\
  (k mod 256 = 0 -> t = 0).
Proof.
  intros Hs k t.
  assert (E : t = to_u8 (- k)).
  { unfold t, st_wake_up. cbv zeta.
    destruct (bit_istrue _ _);
      cbn [sys upd_io set_io state]; rewrite Hs; reflexivity. }
  rewrite E. unfold to_u8. clearbody k. clear E t.
  pose proof (Z.mod_pos_bound (- k) 256 eq_refl) as B.
  split; [exact B|]. split; [|split].
  - rewrite Z.add_mod_idemp_l by lia. rewrite Z.add_opp_diag_l.
    reflexivity.
  - intros Hk. rewrite Z.mod_opp_l_nz by (rewrite ?Z.mod_small; lia).
    rewrite Z.mod_small by lia. lia.
  - intros Hk. apply Z.mod_opp_l_z; [lia | exact Hk].
Qed.

End WakeIdle.

(** With the idle lock time at 255 the drivers of the started machine stay
    enabled when it goes idle. *)
Lemma stepper_enable_pin_witness :
  let g := upd_sys (set_state STATE_CYCLE)
             (power_on {| blocks := []; current := 0 |}
                {| invert_mask := 0; flags := bit 2;
                   stepper_idle_lock_time := 255;
                   pulse_microseconds := 10 |} in_cycle) in
  0 <= STEPPERS_DISABLE_BIT grbl_config /\
  Z.testbit (STEPPERS_DISABLE_PORT (io (st_wake_up grbl_config g))) 0
  = true /\
  Z.testbit (STEPPERS_DISABLE_PORT
               (io (st_go_idle grbl_config (st_wake_up grbl_config g)))) 0
  = true.
Proof.
  intros g.
  assert (H : 0 <= STEPPERS_DISABLE_BIT grbl_config)
    by (vm_compute; discriminate).
  split; [exact H|].
  destruct (@stepper_enable_pin grbl_config queue g H) as (A & _ & B & _).
  split; [exact A | exact B].
Defined.

(** A pulse of 10 microseconds at 16 ticks per microsecond: 16 counts. *)
Lemma step_pulse_time_counts_witness :
  let g := power_on {| blocks := []; current := 0 |} plain_settings
             in_cycle in
  state (sys g) = STATE_CYCLE /\
  256 - step_pulse_time (st (st_wake_up grbl_config g)) = 16.
Proof.
  intros g. assert (H : state (sys g) = STATE_CYCLE) by reflexivity.
  split; [exact H|].
  destruct (@step_pulse_time_counts grbl_config queue g H) as (_ & _ & K & _).
  apply K. vm_compute. split; reflexivity.
Defined.

(** ** [st_init] *)

Section InitFacts.
Variable cfg : config.
Variable ic : init_config.
Variable planner : Type.

Local Abbreviation globals := (globals planner).

(** X6.  [st_init] leaves the stepper idle whatever [sys.state] is: the
    Timer2 compare interrupt is disabled and Timer2 and Timer0 are stopped,
    even in [STATE_CYCLE], where the [st_wake_up] it calls starts Timer2
    and [st_go_idle] stops it again; [busy] is clear, the Timer0 overflow
    interrupt is enabled, the pins of [STEPPING_MASK] are outputs at the
    levels of the invert mask, and the ring, the preparer and [sys] are as
    before.  Outside [STATE_CYCLE] the stepper state [st] is as before
    too. *)
Theorem st_init_leaves_stepper_idle (r : init_regs) (g : globals) :
  0 <= OCIE2A cfg -> 0 <= TOIE0 ic ->
  let r' := fst (st_init cfg ic r g) in
  let g' := snd (st_init cfg ic r g) in
  Z.testbit (TIMSK2 (io g')) (OCIE2A cfg) = false /\
  TCCR2B (io g') = 0 /\ TCCR0B (io g') = 0 /\ busy g' = false /\
  Z.testbit (TIMSK0 r') (TOIE0 ic) = true /\
  (forall i, Z.testbit (STEPPING_MASK ic) i = true ->
             Z.testbit (STEPPING_DDR r') i = true /\
             Z.testbit (STEPPING_PORT (io g')) i
             = Z.testbit (invert_mask (settings g)) i) /\
  ring_of g' = ring_of g /\ prep_fields g' = prep_fields g /\
  sys g' = sys g /\ settings g' = settings g /\
  (state (sys g) <> STATE_CYCLE -> st g' = st g).
Proof.
  intros Ho Ht r' g'. subst r' g'. unfold st_init. cbv zeta. cbn [fst snd].
  set (g0 := upd_io (set_TCCR0B 0) _).
  assert (E0 : settings g0 = settings g /\ sys g0 = sys g /\
               st g0 = st g /\ ring_of g0 = ring_of g /\
               prep_fields g0 = prep_fields g /\
               STEPPING_PORT (io g0)
               = Z.lor (Z.land (STEPPING_PORT (io g))
                               (Z.lnot (STEPPING_MASK ic)))
                       (invert_mask (settings g)) /\
               TCCR0B (io g0) = 0)
    by (repeat split; reflexivity).
  clearbody g0. destruct E0 as (Es & Ey & Et & Er & Ep & Eport & Ec).
  destruct (st_wake_up_outside cfg g0) as (Ws & Wy & Wp & Wc & Wb & Wst).
  destruct (st_wake_up_frame cfg g0) as (Wf & Wr & _).
  destruct (st_go_idle_spec cfg (st_wake_up cfg g0))
    as (Is & Iy & Ir & _ & Ib & Im & Ic & Ip).
  destruct (st_go_idle_latch cfg (st_wake_up cfg g0)) as (Il & _ & Ise).
  pose proof (st_go_idle_prep cfg (st_wake_up cfg g0)) as Ipr.
  unfold latch_fields in Il. injection Il as _ _ Il0 _ _.
  split; [rewrite Im, testbit_bit_false, Z.eqb_refl by assumption;
          reflexivity|].
  split; [exact Ic|].
  split; [rewrite Il0, Wc; exact Ec|].
  split; [exact Ib|].
  split; [cbn [TIMSK0]; rewrite testbit_bit_true, Z.eqb_refl by assumption;
          reflexivity|].
  split.
  { intros i Hi. cbn [STEPPING_DDR]. split.
    - rewrite Z.lor_spec, Hi. apply Bool.orb_true_r.
    - rewrite Ip, Wp, Eport, testbit_mask_write, Hi. cbn [negb].
      rewrite Bool.andb_false_r. reflexivity. }
  split; [rewrite Ir, Wr; exact Er|].
  split; [rewrite Ipr, Wf; exact Ep|].
  split; [rewrite Iy, Wy; exact Ey|].
  split; [rewrite Ise, Ws; exact Es|].
  intros N. rewrite Is, Wst; [exact Et|]. rewrite Ey. exact N.
Qed.

End InitFacts.

(** [st_init] on a machine in [STATE_CYCLE] with a running Timer2. *)
Lemma st_init_leaves_stepper_idle_witness :
  let g := upd_io (set_TCCR2B 2)
             (upd_io (set_TIMSK2 2)
                (power_on {| blocks := []; current := 0 |} plain_settings
                   in_cycle)) in
  let r := Build_init_regs 0 0 0 0 0 0 in
  0 <= OCIE2A grbl_config /\ 0 <= TOIE0 grbl_init_config /\
  state (sys g) = STATE_CYCLE /\
  TIMSK2 (io (snd (st_init grbl_config grbl_init_config r g))) = 0 /\
  TCCR2B (io (snd (st_init grbl_config grbl_init_config r g))) = 0 /\
  OCR2A (fst (st_init grbl_config grbl_init_config r g)) = 65 /\
  Z.testbit (TIMSK2 (io (snd (st_init grbl_config grbl_init_config r g))))
    (OCIE2A grbl_config) = false.
Proof.
  intros g r.
  assert (H1 : 0 <= OCIE2A grbl_config) by (vm_compute; discriminate).
  assert (H2 : 0 <= TOIE0 grbl_init_config) by (vm_compute; discriminate).
  split; [exact H1|]. split; [exact H2|].
  repeat (split; [reflexivity|]).
  exact (proj1 (@st_init_leaves_stepper_idle grbl_config grbl_init_config
                  queue r g H1 H2)).
Defined.

(** ** The preparer and the ring *)

Lemma list_set_nth_other {A : Type} (l l' : list A) (n m : nat) (x : A) :
  list_set l n x = Some l' -> m <> n -> nth_error l' m = nth_error l m.
Proof.
  revert l' n m. induction l as [|h t IH]; intros l' n m; [discriminate|].
  destruct n as [|n]; cbn [list_set].
  - intros H N. injection H as <-. destruct m; [contradiction|reflexivity].
  - destruct (list_set t n x) as [t'|] eqn:E; [|discriminate].
    intros H N. injection H as <-. destruct m as [|m]; [reflexivity|].
    cbn. apply (IH t' n m E). lia.
Qed.

Lemma store_index_other {A : Type} (l l' : list A) (i j : Z) (x : A) :
  store l i x = Some l' -> j <> i -> index l' j = index l j.
Proof.
  unfold store, index. destruct (Z.ltb_spec i 0) as [Hi|Hi]; [discriminate|].
  intros S N. destruct (Z.ltb_spec j 0) as [Hj|Hj]; [reflexivity|].
  apply (@list_set_nth_other A l l' (Z.to_nat i) (Z.to_nat j) x S). lia.
Qed.

Lemma list_set_same {A : Type} (l : list A) (n : nat) (x : A) :
  nth_error l n = Some x -> list_set l n x = Some l.
Proof.
  revert n. induction l as [|h t IH]; intros [|n]; cbn; try discriminate.
  - intros H. injection H as ->. reflexivity.
  - intros H. rewrite (IH _ H). reflexivity.
Qed.

Lemma store_same {A : Type} (l : list A) (i : Z) (x : A) :
  index l i = Some x -> store l i x = Some l.
Proof.
  unfold store, index. destruct (i <? 0); [discriminate|].
  apply list_set_same.
Qed.

Section PrepFacts.
Variable cfg : config.
Variable planner : Type.
Variable pl : planner_ops planner.

Local Abbreviation globals := (globals planner).

Lemma prep_load_block_exec (g : globals) (r : prep_round planner) :
  prep_load_block cfg pl g = Some r ->
  match r with
  | Continue g' | Return g' => executor_fields g' = executor_fields g
  end.
Proof.
  unfold prep_load_block. intros H. split_match H;
    injection H as <-; reflexivity.
Qed.

Lemma prep_segment_exec (g g' : globals) :
  prep_segment cfg pl g = Some g' -> executor_fields g' = executor_fields g.
Proof.
  unfold prep_segment. intros H. split_match H;
    injection H as <-; reflexivity.
Qed.

Lemma st_prep_round_exec (g : globals) (r : prep_round planner) :
  st_prep_round cfg pl g = Some r ->
  match r with
  | Continue g' | Return g' => executor_fields g' = executor_fields g
  end.
Proof.
  unfold st_prep_round. intros H.
  destruct (index (segment_buffer g) (segment_buffer_head g)); [|discriminate].
  destruct (store _ _ _) as [sb|]; [|discriminate].
  destruct (prep_load_block cfg pl (set_segment_buffer sb g)) as [r0|] eqn:L;
    [|discriminate].
  apply prep_load_block_exec in L.
  change (executor_fields (set_segment_buffer sb g))
    with (executor_fields g) in L.
  destruct r0 as [g1|g1].
  - destruct (prep_segment cfg pl g1) as [g2|] eqn:S; [|discriminate].
    injection H as <-. apply prep_segment_exec in S. congruence.
  - injection H as <-. exact L.
Qed.

Lemma st_prep_loop_exec (n : nat) (g g' : globals) :
  st_prep_loop cfg pl n g = Some g' -> executor_fields g' = executor_fields g.
Proof.
  revert g. induction n as [|n IH]; intros g; cbn [st_prep_loop];
    destruct (segment_buffer_tail g =? segment_next_head g);
    try (intros H; injection H as <-; reflexivity); try discriminate.
  destruct (st_prep_round cfg pl g) as [[g1|g1]|] eqn:R; try discriminate;
    apply st_prep_round_exec in R.
  - intros H. apply IH in H. congruence.
  - intros H. injection H as <-. exact R.
Qed.

Lemma st_prep_buffer_exec (g g' : globals) :
  st_prep_buffer cfg pl g = Some g' ->
  executor_fields g' = executor_fields g.
Proof.
  unfold st_prep_buffer.
  destruct (state (sys g)); try apply st_prep_loop_exec.
  intros H. injection H as <-. reflexivity.
Qed.

(** X7.  [st_prep_buffer] never writes what the executor works with: the
    stepper state [st], [tail], [busy], the pointers to the block, segment
    and data being executed, [sys] (the position with it), the settings,
    the planner queue, the stepping and the enable port and the timers. *)
Theorem st_prep_buffer_leaves_executor (g g' : globals) :
  st_prep_buffer cfg pl g = Some g' ->
  executor_fields g' = executor_fields g.
Proof. exact (@st_prep_buffer_exec g g'). Qed.

(** *** A preparer with nothing to prepare *)

Lemma prep_idle_round (g : globals) :
  prep_idle pl g -> st_prep_round cfg pl g = Some (Return g).
Proof.
  intros ((Hb & Hq) & seg & Hs & Hf). unfold st_prep_round.
  rewrite Hs. cbv beta iota.
  assert (E : set_flag SEGMENT_NOOP seg = seg)
    by (destruct seg; cbn in Hf; subst; reflexivity).
  rewrite E, (store_same _ _ Hs). cbv beta iota.
  assert (G : set_segment_buffer (segment_buffer g) g = g)
    by (destruct g; reflexivity).
  rewrite G. unfold prep_load_block. rewrite Hb.
  cbn [pl_prep_block set_pl_prep_block plan pl_prep_index]. rewrite Hq.
  destruct g; cbn in *; subst; reflexivity.
Qed.

Lemma st_prep_round_Return (g g' : globals) :
  st_prep_round cfg pl g = Some (Return g') ->
  prep_idle pl g' /\ ring_of g' = ring_of g /\
  segment_data g' = segment_data g /\
  (st_data_prep_index g', pl_partial_block_flag g', st_prep_data g',
   pl_prep_index g')
  = (st_data_prep_index g, pl_partial_block_flag g, st_prep_data g,
     pl_prep_index g) /\
  exists seg,
    index (segment_buffer g) (segment_buffer_head g) = Some seg /\
    store (segment_buffer g) (segment_buffer_head g)
      (set_flag SEGMENT_NOOP seg) = Some (segment_buffer g') /\
    pl_prep_block g = None.
Proof.
  unfold st_prep_round. intros H.
  destruct (index (segment_buffer g) (segment_buffer_head g)) as [seg|] eqn:Es;
    [|discriminate].
  destruct (store _ _ _) as [sb|] eqn:Sb; [|discriminate].
  cbv beta iota in H.
  destruct (prep_load_block cfg pl (set_segment_buffer sb g)) as [r0|] eqn:L;
    [|discriminate].
  destruct r0 as [g1|g1];
    [destruct (prep_segment cfg pl g1); discriminate|].
  injection H as <-.
  unfold prep_load_block in L.
  cbn [pl_prep_block set_segment_buffer plan pl_prep_index
       set_pl_prep_block] in L.
  destruct (pl_prep_block g) eqn:Hb; [discriminate|].
  destruct (plan_get_block_by_index pl (plan g) (pl_prep_index g)) eqn:Hq.
  - split_match L; discriminate.
  - injection L as <-. unfold prep_idle, nothing_to_prepare.
    cbn. rewrite Hq. repeat split; try reflexivity.
    + exists (set_flag SEGMENT_NOOP seg). split; [|reflexivity].
      exact (store_index _ _ _ Sb).
    + exists seg. auto.
Qed.

(** The loop ends on a full ring or on a preparer at rest. *)
Lemma st_prep_loop_ends (n : nat) (g g' : globals) :
  st_prep_loop cfg pl n g = Some g' ->
  ring_full g' = true \/ prep_idle pl g'.
Proof.
  revert g. induction n as [|n IH]; intros g; cbn [st_prep_loop];
    destruct (segment_buffer_tail g =? segment_next_head g) eqn:F;
    try (intros H; injection H as <-; left; exact F); try discriminate.
  destruct (st_prep_round cfg pl g) as [[g1|g1]|] eqn:R; try discriminate.
  - apply IH.
  - intros H. injection H as <-. right.
    exact (proj1 (st_prep_round_Return _ R)).
Qed.

(** X8.  Calling [st_prep_buffer] again when nothing has happened in
    between changes nothing: the state it returns is a fixed point. *)
Theorem st_prep_buffer_idempotent (g g' : globals) :
  st_prep_buffer cfg pl g = Some g' ->
  st_prep_buffer cfg pl g' = Some g'.
Proof.
  intros H.
  assert (Y : sys g' = sys g).
  { apply st_prep_buffer_exec in H. unfold executor_fields in H.
    injection H. auto. }
  unfold st_prep_buffer in *. rewrite Y.
  destruct (state (sys g));
    try (injection H as <-; reflexivity);
    (apply st_prep_loop_ends in H;
     change (Z.to_nat SEGMENT_BUFFER_SIZE) with 6%nat;
     cbn [st_prep_loop];
     destruct H as [F|I];
     [unfold ring_full in F; rewrite F; reflexivity|];
     destruct (segment_buffer_tail g' =? segment_next_head g');
     [reflexivity|]; rewrite (prep_idle_round I); reflexivity).
Qed.

(** X9.  With no block in preparation and none to get from the planner,
    [st_prep_buffer] adds no segment: the indices of the ring, the shared
    data and the pointers of the preparer are as before, it still has
    nothing to prepare, and the segment buffer is as before or differs by
    the cleared flag of the free slot at [head]. *)
Theorem st_prep_buffer_nothing_to_prepare (g g' : globals) :
  nothing_to_prepare pl g ->
  st_prep_buffer cfg pl g = Some g' ->
  ring_of g' = ring_of g /\
  segment_data g' = segment_data g /\
  (st_data_prep_index g', pl_partial_block_flag g', st_prep_data g',
   pl_prep_index g')
  = (st_data_prep_index g, pl_partial_block_flag g, st_prep_data g,
     pl_prep_index g) /\
  nothing_to_prepare pl g' /\
  (segment_buffer g' = segment_buffer g \/
   exists seg,
     index (segment_buffer g) (segment_buffer_head g) = Some seg /\
     store (segment_buffer g) (segment_buffer_head g)
       (set_flag SEGMENT_NOOP seg) = Some (segment_buffer g')).
Proof.
  intros N. unfold st_prep_buffer.
  assert (Same : Some g = Some g' ->
                 ring_of g' = ring_of g /\
                 segment_data g' = segment_data g /\
                 (st_data_prep_index g', pl_partial_block_flag g',
                  st_prep_data g', pl_prep_index g')
                 = (st_data_prep_index g, pl_partial_block_flag g,
                    st_prep_data g, pl_prep_index g) /\
                 nothing_to_prepare pl g' /\
                 (segment_buffer g' = segment_buffer g \/
                  exists seg,
                    index (segment_buffer g) (segment_buffer_head g)
                    = Some seg /\
                    store (segment_buffer g) (segment_buffer_head g)
                      (set_flag SEGMENT_NOOP seg)
                    = Some (segment_buffer g')))
    by (intros H; injection H as <-; auto 10).
  destruct (state (sys g)); try exact Same;
    (change (Z.to_nat SEGMENT_BUFFER_SIZE) with 6%nat;
     cbn [st_prep_loop];
     destruct (segment_buffer_tail g =? segment_next_head g);
     [exact Same|];
     destruct (st_prep_round cfg pl g) as [[g1|g1]|] eqn:R;
     [|
      |discriminate]).
  all: try (intros H; injection H as <-;
            destruct (st_prep_round_Return _ R)
              as ((I & _) & Rr & Rd & Rp & seg & Rs & Rst & _);
            repeat (split; [assumption|]); right; exists seg; auto).
  all: exfalso; clear Same; unfold st_prep_round in R;
    destruct (index (segment_buffer g) (segment_buffer_head g));
      [|discriminate];
    destruct (store _ _ _) as [sb|]; [|discriminate];
    cbv beta iota in R;
    destruct (prep_load_block cfg pl (set_segment_buffer sb g))
      as [[g2|g2]|] eqn:L; try discriminate;
    unfold prep_load_block in L; destruct N as (Nb & Nq);
    cbn [pl_prep_block set_segment_buffer plan pl_prep_index
         set_pl_prep_block] in L;
    rewrite Nb, Nq in L; discriminate.
Qed.

End PrepFacts.

Section PrepSlots.
Variable cfg : config.
Variable planner : Type.
Variable pl : planner_ops planner.

Local Abbreviation globals := (globals planner).

Lemma prep_load_block_buffer (g : globals) (r : prep_round planner) :
  prep_load_block cfg pl g = Some r ->
  match r with
  | Continue g' | Return g' => segment_buffer g' = segment_buffer g
  end.
Proof.
  unfold prep_load_block. intros H. split_match H;
    injection H as <-; reflexivity.
Qed.

Lemma prep_segment_slots (g g' : globals) (j : Z) :
  prep_segment cfg pl g = Some g' ->
  j <> segment_buffer_head g ->
  index (segment_buffer g') j = index (segment_buffer g) j.
Proof.
  unfold prep_segment, toggle_spindle_enable, upd_io.
  destruct g as [s sd sb t h nh bz cb cs cd pb pd pi di pf y se r pln].
  cbn. intros H N.
  destruct (index sb h) as [seg|]; [|discriminate].
  destruct pd as [k|]; [|discriminate].
  destruct (index sd k) as [d|]; [|discriminate].
  destruct (prep_end_of_block cfg d); cbn in H;
    (destruct (store sb h _) as [sb'|] eqn:Sb; [|discriminate]);
    (destruct (store sd k _) as [sd'|]; [|discriminate]);
    destruct (to_u8 (nh + 1) =? SEGMENT_BUFFER_SIZE);
    injection H as <-; cbn; exact (store_index_other _ _ Sb N).
Qed.

(** A round of the loop writes no slot of the ring but the one at
    [head]. *)
Lemma st_prep_round_slots (g : globals) (r : prep_round planner) (j : Z) :
  st_prep_round cfg pl g = Some r ->
  j <> segment_buffer_head g ->
  match r with
  | Continue g' | Return g' =>
      index (segment_buffer g') j = index (segment_buffer g) j
  end.
Proof.
  unfold st_prep_round. intros H N.
  destruct (index (segment_buffer g) (segment_buffer_head g)); [|discriminate].
  destruct (store _ _ _) as [sb|] eqn:Sb; [|discriminate].
  cbv beta iota in H.
  destruct (prep_load_block cfg pl (set_segment_buffer sb g)) as [r0|] eqn:L;
    [|discriminate].
  pose proof (prep_load_block_buffer _ L) as B.
  pose proof (prep_load_block_ring cfg pl _ L) as R.
  pose proof (store_index_other _ _ Sb N) as E.
  destruct r0 as [g1|g1]; cbn [segment_buffer set_segment_buffer] in B;
    unfold ring_of in R; cbn in R; injection R as _ Rh _.
  - destruct (prep_segment cfg pl g1) as [g2|] eqn:S; [|discriminate].
    injection H as <-.
    rewrite (@prep_segment_slots g1 g2 j S) by (rewrite Rh; exact N).
    rewrite B. exact E.
  - injection H as <-. rewrite B. exact E.
Qed.

Lemma occupied_next (g g' : globals) (j : Z) :
  ring_inv g ->
  segment_buffer_tail g <> segment_next_head g ->
  ring_of g' = (segment_buffer_tail g, segment_next_head g,
                next_index (segment_next_head g)) ->
  occupied g j ->
  j <> segment_buffer_head g /\ occupied g' j.
Proof.
  unfold ring_inv, ring_of, occupied, segment_count, SEGMENT_BUFFER_SIZE.
  intros (Ht & Hh & Hn) F E (Hj & O). injection E as -> -> _.
  rewrite Hn in *.
  set (t := segment_buffer_tail g) in *.
  set (h := segment_buffer_head g) in *.
  assert (Hx : h = 0 \/ h = 1 \/ h = 2 \/ h = 3 \/ h = 4 \/ h = 5) by lia.
  assert (Hy : t = 0 \/ t = 1 \/ t = 2 \/ t = 3 \/ t = 4 \/ t = 5) by lia.
  assert (Hz : j = 0 \/ j = 1 \/ j = 2 \/ j = 3 \/ j = 4 \/ j = 5) by lia.
  destruct Hx as [->|[->|[->|[->|[->| ->]]]]];
    destruct Hy as [->|[->|[->|[->|[->| ->]]]]];
    destruct Hz as [->|[->|[->|[->|[->| ->]]]]];
    cbn in *; try lia.
Qed.

Lemma st_prep_loop_occupied (n : nat) (g g' : globals) (j : Z) :
  ring_inv g ->
  st_prep_loop cfg pl n g = Some g' ->
  occupied g j ->
  index (segment_buffer g') j = index (segment_buffer g) j /\ occupied g' j.
Proof.
  revert g. induction n as [|n IH]; intros g Hg; cbn [st_prep_loop];
    destruct (Z.eqb_spec (segment_buffer_tail g) (segment_next_head g))
      as [F|F];
    try (intros H; injection H as <-; auto); try discriminate.
  destruct (st_prep_round cfg pl g) as [[g1|g1]|] eqn:R; try discriminate.
  - intros H O.
    pose proof (st_prep_round_ring cfg pl _ R) as Rr.
    destruct (occupied_next Hg F Rr O) as (N & O1).
    pose proof (@st_prep_round_slots g _ j R N) as S.
    destruct (IH g1 (ring_inv_next Hg Rr) H O1) as (E & O2).
    split; [congruence | exact O2].
  - intros H O. injection H as <-.
    pose proof (st_prep_round_ring cfg pl _ R) as Rr.
    assert (N : j <> segment_buffer_head g).
    { intros ->. unfold occupied in O. destruct O as (_ & O).
      unfold segment_count in O. lia. }
    pose proof (@st_prep_round_slots g _ j R N) as S.
    split; [exact S|].
    unfold occupied, segment_count, ring_of in *.
    injection Rr as -> -> _. exact O.
Qed.

Lemma st_prep_buffer_occupied (g g' : globals) (j : Z) :
  ring_inv g ->
  st_prep_buffer cfg pl g = Some g' ->
  occupied g j ->
  index (segment_buffer g') j = index (segment_buffer g) j /\ occupied g' j.
Proof.
  intros Hg. unfold st_prep_buffer.
  destruct (state (sys g)); try apply (st_prep_loop_occupied _ Hg).
  intros H. injection H as <-. auto.
Qed.

(** X10.  [st_prep_buffer] never overwrites a segment the executor has
    not finished: every slot from [tail] up to [head] holds after the call
    what it held before, and is still among the slots from [tail] up to the
    new [head]. *)
Theorem st_prep_buffer_keeps_segments (g g' : globals) (j : Z) :
  ring_inv g ->
  st_prep_buffer cfg pl g = Some g' ->
  occupied g j ->
  index (segment_buffer g') j = index (segment_buffer g) j /\ occupied g' j.
Proof. exact (@st_prep_buffer_occupied g g' j). Qed.

End PrepSlots.

(** ** The segment the executor works on *)

Section Current.
Variable cfg : config.
Variable planner : Type.
Variable pl : planner_ops planner.

Local Abbreviation globals := (globals planner).

(** What depends neither on [st] nor on [sys] is the same after a step
    event. *)
Lemma isr_bresenham_axis_ignored {A : Type} (f : globals -> A)
    (a : axis) (b : plan_block_t) (g : globals) :
  (forall s x, f (set_st s x) = f x) ->
  (forall y x, f (set_sys y x) = f x) ->
  f (isr_bresenham_axis cfg a b g) = f g.
Proof.
  intros Hs Hy. unfold isr_bresenham_axis, upd_st, upd_sys. cbv zeta.
  repeat match goal with
         | |- context [if ?c then _ else _] => destruct c
         end; rewrite ?Hy, ?Hs; reflexivity.
Qed.

Lemma isr_step_event_ignored {A : Type} (f : globals -> A)
    (b : plan_block_t) (d : st_data_t) (g : globals) :
  (forall s x, f (set_st s x) = f x) ->
  (forall y x, f (set_sys y x) = f x) ->
  f (isr_step_event cfg b d g) = f g.
Proof.
  intros Hs Hy. unfold isr_step_event, upd_st. cbv zeta.
  rewrite !Hs, !(isr_bresenham_axis_ignored f _ _ _ Hs Hy), !Hs.
  reflexivity.
Qed.

Lemma isr_inverse_time_ignored {A : Type} (f : globals -> A)
    (g g' : globals) :
  (forall s x, f (set_st s x) = f x) ->
  (forall y x, f (set_sys y x) = f x) ->
  isr_inverse_time cfg g = Some g' -> f g' = f g.
Proof.
  intros Hs Hy. unfold isr_inverse_time, upd_st. intros H.
  destruct (st_current_segment g); [|discriminate]. cbv beta iota in H.
  destruct (index _ _) as [seg|]; [|discriminate].
  cbv zeta in H. cbn -[isr_step_event] in H.
  split_match H; injection H as <-;
    rewrite ?(isr_step_event_ignored f _ _ _ Hs Hy), ?Hs; reflexivity.
Qed.

Lemma isr_load_segment_current (g : globals) (r : isr_load planner) :
  isr_load_segment cfg pl g = Some r ->
  match r with
  | Proceed g' =>
      segment_buffer_tail g' = segment_buffer_tail g /\
      st_current_segment g'
      = (if load_flag (st g) =? LOAD_NOOP then st_current_segment g
         else Some (segment_buffer_tail g))
  | Leave g' => True
  end.
Proof.
  unfold isr_load_segment. intros H.
  destruct (load_flag (st g) =? LOAD_NOOP); cbn [negb] in H.
  - injection H as <-. split; reflexivity.
  - destruct (negb (segment_buffer_head g =? segment_buffer_tail g));
      [|injection H as <-; exact I].
    cbn [st_current_segment set_st_current_segment] in H.
    destruct (index _ _) as [seg|]; [|discriminate].
    destruct (load_flag _ =? LOAD_BLOCK).
    + destruct (isr_load_block pl _) as [g1|] eqn:L; [|discriminate].
      injection H as <-.
      destruct (@isr_load_block_dist planner pl _ _ L)
        as (_ & _ & _ & _ & _ & Cs & _ & T & _).
      destruct g1 as [[]]. destruct g as [[]]. cbn in *. auto.
    + injection H as <-. destruct g as [[]]. split; reflexivity.
Qed.

Lemma isr_segment_complete_current (g g' : globals) :
  isr_segment_complete pl g = Some g' ->
  st_current_segment g' = st_current_segment g /\
  segment_buffer g' = segment_buffer g.
Proof.
  unfold isr_segment_complete.
  destruct g as [[cx cy cz cd sc pc ex spt ob lf]
                 sd sb tl hd nh bz cb cs cdt pb pd pi di pf y se r pn].
  cbn. intros C. split_match C; injection C as <-; split; reflexivity.
Qed.

Lemma TIMER2_COMPA_vect_current (g g' : globals) :
  current_inv g -> TIMER2_COMPA_vect cfg pl g = Some g' -> current_inv g'.
Proof.
  intros I H. destruct (busy g) eqn:Hb.
  - unfold TIMER2_COMPA_vect in H. rewrite Hb in H. injection H as <-.
    exact I.
  - destruct (isr_pulse_spec cfg g) as (Ps & _ & Pr & _).
    assert (Pc : st_current_segment (isr_pulse cfg g) = st_current_segment g)
      by (unfold isr_pulse; destruct (execute_step (st g)); reflexivity).
    unfold ring_of in Pr. injection Pr as Pt _ _.
    destruct (@TIMER2_COMPA_vect_phases cfg planner pl g g' Hb H)
      as [(g1 & L & ->)|(g1 & g2 & g3 & L & T & C & ->)].
    + apply isr_load_segment_flag in L. intros F. contradiction.
    + pose proof (isr_load_segment_flag cfg pl _ L) as (F1 & _).
      apply isr_load_segment_current in L. destruct L as (Lt & Lc).
      cbn [segment_buffer_tail st_current_segment st set_busy] in Lt, Lc.
      rewrite Ps, Pt, Pc in *.
      assert (C1 : st_current_segment g1 = Some (segment_buffer_tail g)).
      { rewrite Lc.
        replace (load_flag (set_execute_step false (st g)))
          with (load_flag (st g)) by (destruct (st g); reflexivity).
        destruct (Z.eqb_spec (load_flag (st g)) LOAD_NOOP) as [E|E];
          [exact (I E) | reflexivity]. }
      pose proof (isr_inverse_time_flag cfg _ T) as F2.
      pose proof (@isr_inverse_time_quiet cfg planner g1 g2 T) as Q.
      apply quiet_fields_eq in Q. destruct Q as (_ & _ & _ & Tt & _).
      pose proof (@isr_inverse_time_ignored _ (@st_current_segment planner)
                    g1 g2 (fun _ _ => eq_refl) (fun _ _ => eq_refl) T) as C2.
      destruct (@isr_segment_complete_current g2 g3 C) as (C3 & _).
      apply isr_segment_complete_flag in C.
      unfold current_inv.
      cbn [st set_busy st_current_segment segment_buffer_tail].
      destruct C as [(Cr & Cf)|(_ & Cf)]; [|intros F; contradiction].
      unfold ring_of in Cr. injection Cr as Ct _ _. intros _.
      congruence.
Qed.

Lemma st_wake_up_current (g : globals) :
  st_current_segment (st_wake_up cfg g) = st_current_segment g.
Proof.
  unfold st_wake_up. cbv zeta.
  destruct (bit_istrue _ _);
    match goal with
    | |- context [match ?y with STATE_CYCLE => _ | _ => _ end] => destruct y
    end; reflexivity.
Qed.

Lemma st_go_idle_current (g : globals) :
  st_current_segment (st_go_idle cfg g) = st_current_segment g.
Proof.
  unfold st_go_idle.
  repeat match goal with
         | |- context [if ?c then _ else _] => destruct c
         end; reflexivity.
Qed.

Lemma current_inv_same (g g' : globals) :
  current_inv g ->
  (load_flag (st g') = LOAD_NOOP -> load_flag (st g) = LOAD_NOOP) ->
  st_current_segment g' = st_current_segment g ->
  segment_buffer_tail g' = segment_buffer_tail g ->
  current_inv g'.
Proof. unfold current_inv. intros I F -> ->. auto. Qed.

Lemma st_wake_up_current_inv (g : globals) :
  current_inv g -> current_inv (st_wake_up cfg g).
Proof.
  intros I. destruct (st_wake_up_frame cfg g) as (_ & Fr & Fl).
  unfold ring_of in Fr. injection Fr as Ft _ _.
  exact (@current_inv_same g _ I Fl (st_wake_up_current g) Ft).
Qed.

Lemma st_prep_buffer_current_inv (g g' : globals) :
  current_inv g -> st_prep_buffer cfg pl g = Some g' -> current_inv g'.
Proof.
  intros I H. apply (@st_prep_buffer_exec cfg planner pl) in H.
  unfold executor_fields in H. injection H. intros.
  apply (@current_inv_same g g' I); congruence.
Qed.

Lemma run_op_current (o : stepper_op planner) (g g' : globals) :
  current_inv g -> run_op cfg pl o g = Some g' -> current_inv g'.
Proof.
  intros I. destruct o; cbn [run_op]; intros H.
  - injection H as <-. intros F. discriminate F.
  - injection H as <-. apply st_wake_up_current_inv, I.
  - injection H as <-.
    destruct (st_go_idle_spec cfg g) as (Gs & _ & Gr & _).
    unfold ring_of in Gr. injection Gr as Gt _ _.
    apply (@current_inv_same g _ I); [rewrite Gs; auto| |exact Gt].
    apply st_go_idle_current.
  - exact (TIMER2_COMPA_vect_current I H).
  - injection H as <-. exact I.
  - unfold st_cycle_start in H. destruct (state (sys g));
      try (injection H as <-; exact I).
    destruct (st_prep_buffer cfg pl _) as [g1|] eqn:B; [|discriminate].
    cbv beta iota in H. injection H as <-.
    apply st_wake_up_current_inv.
    exact (@st_prep_buffer_current_inv (upd_sys (set_state STATE_CYCLE) g)
             g1 I B).
  - injection H as <-. unfold st_feed_hold.
    destruct (state (sys g)); exact I.
  - injection H as <-. exact I.
  - exact (st_prep_buffer_current_inv I H).
  - unfold st_fetch_partial_block_parameters in H.
    destruct (pl_prep_block g).
    + destruct (st_prep_data g) as [i|]; [|discriminate].
      cbv beta iota in H.
      destruct (index (segment_data g) i) as [d|]; [|discriminate].
      cbn in H. injection H as <-. exact I.
    + cbn in H. injection H as <-. exact I.
  - injection H as <-. exact I.
Qed.

Lemma reachable_current (g : globals) :
  reachable cfg pl g -> current_inv g.
Proof.
  induction 1 as [g Lb Ld|o g g' _ IH H].
  - intros F. discriminate F.
  - exact (run_op_current o IH H).
Qed.

(** X11.  At every moment between operations, from [st_reset] on, a
    loaded segment is the one at [tail]: [st_current_segment] points at
    slot [tail], the slot lies in the array, and it is one of the slots the
    ring holds, which [st_prep_buffer] does not write. *)
Theorem executor_works_at_tail (g : globals) :
  reachable cfg pl g ->
  load_flag (st g) = LOAD_NOOP ->
  st_current_segment g = Some (segment_buffer_tail g) /\
  occupied g (segment_buffer_tail g) /\
  (exists seg,
     index (segment_buffer g) (segment_buffer_tail g) = Some seg) /\
  forall g', st_prep_buffer cfg pl g = Some g' ->
             index (segment_buffer g') (segment_buffer_tail g)
             = index (segment_buffer g) (segment_buffer_tail g).
Proof.
  intros R F. pose proof (reachable_current R F) as C.
  destruct (reachable_inv R) as (Ri & (Lb & _) & L).
  assert (O : occupied g (segment_buffer_tail g)).
  { specialize (L F). destruct (segment_count_empty_full Ri) as (Cn & E & _).
    destruct Ri as (Ht & _). split; [exact Ht|].
    rewrite Z.sub_diag. cbn.
    destruct (Z.eq_dec (segment_count g) 0) as [Z0|Z0]; [|lia].
    apply E in Z0. unfold ring_empty in Z0. apply Z.eqb_eq in Z0.
    contradiction. }
  split; [exact C|]. split; [exact O|]. split.
  - destruct Ri as (Ht & _). unfold index.
    destruct (Z.ltb_spec (segment_buffer_tail g) 0); [lia|].
    destruct (nth_error (segment_buffer g)
                (Z.to_nat (segment_buffer_tail g))) as [seg|] eqn:E;
      [eauto|].
    apply nth_error_None in E. unfold SEGMENT_BUFFER_SIZE in *. lia.
  - intros g' H.
    exact (proj1 (@st_prep_buffer_occupied cfg planner pl g g' _
                    Ri H O)).
Qed.

End Current.

(** *** The preparer on the machine *)

(** Filling the ring of the started machine after nine ticks: the
    executor has finished one segment, the preparer adds one. *)
Lemma st_prep_buffer_leaves_executor_witness :
  let g := at_tick 9 [cruise_block; cruise_block] in
  exists g',
    st_prep_buffer grbl_config queue_ops g = Some g' /\
    ring_of g = (1, 5, 0) /\ ring_of g' = (1, 0, 1) /\
    st g' = st g /\ sys g' = sys g /\ plan g' = plan g.
Proof.
  intros g.
  destruct (st_prep_buffer grbl_config queue_ops g) as [g'|] eqn:B;
    [|vm_compute in B; discriminate].
  exists g'. split; [reflexivity|]. split; [vm_compute; reflexivity|].
  split; [vm_compute in B; injection B as <-; reflexivity|].
  clearbody g.
  pose proof (@st_prep_buffer_leaves_executor grbl_config queue queue_ops
                g g' B) as E.
  unfold executor_fields in E. injection E. intros. auto.
Defined.

Lemma st_prep_buffer_idempotent_witness :
  let g := at_tick 9 [cruise_block; cruise_block] in
  exists g',
    st_prep_buffer grbl_config queue_ops g = Some g' /\
    g' <> g /\
    st_prep_buffer grbl_config queue_ops g' = Some g'.
Proof.
  intros g.
  destruct (st_prep_buffer grbl_config queue_ops g) as [g'|] eqn:B;
    [|vm_compute in B; discriminate].
  exists g'. split; [reflexivity|]. split.
  - intros E. rewrite E in B. vm_compute in B. discriminate B.
  - exact (@st_prep_buffer_idempotent grbl_config queue queue_ops g g' B).
Defined.

(** [st_reset], then [st_prep_buffer] with an empty planner queue: no
    segment. *)
Lemma st_prep_buffer_nothing_to_prepare_witness :
  let g := st_reset (power_on {| blocks := []; current := 0 |}
                       plain_settings in_cycle) in
  nothing_to_prepare queue_ops g /\
  exists g',
    st_prep_buffer grbl_config queue_ops g = Some g' /\
    ring_of g' = (0, 0, 1) /\ segment_count g' = 0.
Proof.
  intros g.
  assert (N : nothing_to_prepare queue_ops g) by (split; reflexivity).
  split; [exact N|].
  destruct (st_prep_buffer grbl_config queue_ops g) as [g'|] eqn:B;
    [|vm_compute in B; discriminate].
  exists g'. split; [reflexivity|].
  destruct (@st_prep_buffer_nothing_to_prepare grbl_config queue queue_ops
              g g' N B) as (R & _).
  split; [rewrite R; reflexivity|].
  unfold segment_count. unfold ring_of in R. injection R as -> -> _.
  reflexivity.
Defined.

(** The four segments that the ring holds after nine ticks are still
    there when the preparer has added the fifth. *)
Lemma st_prep_buffer_keeps_segments_witness :
  let g := at_tick 9 [cruise_block; cruise_block] in
  ring_inv g /\ occupied g 4 /\
  exists g',
    st_prep_buffer grbl_config queue_ops g = Some g' /\
    index (segment_buffer g') 4 = index (segment_buffer g) 4 /\
    occupied g' 4.
Proof.
  intros g.
  assert (R : ring_inv g) by (vm_compute; repeat split; discriminate).
  assert (O : occupied g 4) by (vm_compute; repeat split; discriminate).
  split; [exact R|]. split; [exact O|].
  destruct (st_prep_buffer grbl_config queue_ops g) as [g'|] eqn:B;
    [|vm_compute in B; discriminate].
  exists g'. split; [reflexivity|].
  exact (@st_prep_buffer_keeps_segments grbl_config queue queue_ops g g' 4
           R B O).
Defined.

(** The started machine after its first tick. *)
Lemma executor_works_at_tail_witness :
  let g := at_tick 1 [cruise_block; cruise_block] in
  reachable grbl_config queue_ops g /\
  load_flag (st g) = LOAD_NOOP /\
  st_current_segment g = Some 0 /\ occupied g 0.
Proof.
  intros g.
  set (g0 := st_reset (power_on {| blocks := [cruise_block; cruise_block];
                                   current := 0 |} plain_settings
                         {| state := STATE_QUEUED; execute := 0;
                            auto_start := true;
                            position := {| at_x := 0; at_y := 0;
                                           at_z := 0 |} |})).
  assert (R0 : reachable grbl_config queue_ops g0)
    by (apply reachable_reset; reflexivity).
  destruct (st_cycle_start grbl_config queue_ops g0) as [g1|] eqn:S;
    [|vm_compute in S; discriminate].
  assert (R1 : reachable grbl_config queue_ops g1)
    by exact (reachable_op Op_st_cycle_start R0 S).
  destruct (TIMER2_COMPA_vect grbl_config queue_ops g1) as [g2|] eqn:T;
    [|vm_compute in S; injection S as <-; vm_compute in T; discriminate].
  assert (R2 : reachable grbl_config queue_ops g2)
    by exact (reachable_op Op_TIMER2_COMPA_vect R1 T).
  assert (E : g = g2).
  { unfold g, at_tick, started_then, started. fold g0. rewrite S.
    cbn [ticks]. rewrite T. reflexivity. }
  rewrite E. split; [exact R2|].
  assert (F : load_flag (st g2) = LOAD_NOOP)
    by (rewrite <- E; vm_compute; reflexivity).
  split; [exact F|].
  destruct (@executor_works_at_tail grbl_config queue queue_ops g2 R2 F)
    as (C & O & _).
  replace (segment_buffer_tail g2) with 0 in C, O
    by (rewrite <- E; vm_compute; reflexivity).
  split; [exact C | exact O].
Defined.

(** ** The line the Bresenham counters follow *)

Section Line.
Variable cfg : config.
Variable planner : Type.
Variable pl : planner_ops planner.
Variable b : plan_block_t.
Hypothesis pins : pin_map_ok cfg.

Local Abbreviation globals := (globals planner).

(** X12.  The pulses of an axis follow the straight line: after any
    number [n] of step events of a block, counted from its load, the axis
    has made the number of pulses nearest to [n * steps[axis] /
    step_event_count]; the two differ by half a pulse at most. *)
Theorem bresenham_pulses_follow_line (a : axis) (d : st_data_t)
    (g0 g : globals) (n : nat) :
  isr_load_block pl g0 = Some g ->
  plan_get_current_block pl (plan g0) = Some b ->
  Z.testbit (direction_bits b) (step_bit_of cfg a) = false ->
  0 <= get_axis a (steps b) <= step_event_count b ->
  0 < step_event_count b < 2 ^ 31 ->
  let w := step_pulses cfg b d a n g in
  let E := step_event_count b in
  - (E / 2) <= w * E - Z.of_nat n * get_axis a (steps b) < E - E / 2.
Proof.
  intros Hload Hcur Hdirs Hs HE w E.
  destruct (isr_load_block_spec pl g0 Hload) as (b' & Hcur' & _ & Hc & _).
  assert (Hb : b' = b) by (rewrite Hcur in Hcur'; injection Hcur'; auto).
  subst b'. specialize (Hc a).
  assert (Hc0 : get_counter a (st g) = E / 2).
  { rewrite Hc, Z.shiftr_div_pow2 by lia. reflexivity. }
  assert (Hr : 0 <= E / 2 < E).
  { split; [apply Z.div_pos; lia | apply Z.div_lt; lia]. }
  assert (Hc1 : 0 <= get_counter a (st g) < step_event_count b)
    by (rewrite Hc0; exact Hr).
  destruct (@step_events_axis cfg planner b pins a d n Hdirs Hs
              (proj2 HE) g Hc1) as (_ & Hr' & He & _).
  cbv zeta in Hr', He. fold w in He. fold E in Hr', He.
  rewrite Hc0 in He. lia.
Qed.

End Line.

(** Halfway through the three-axis block the Y axis, of 200 steps in 300
    step events, has made 100 pulses. *)
Lemma bresenham_pulses_follow_line_witness :
  let q := [trapezoid_block; trapezoid_block] in
  exists g,
    isr_load_block queue_ops (started_machine q) = Some g /\
    step_pulses grbl_config trapezoid_block zero_data Y_AXIS 150 g = 100.
Proof.
  intros q.
  destruct (isr_load_block queue_ops (started_machine q)) as [g|] eqn:L;
    [|vm_compute in L; discriminate].
  exists g. split; [reflexivity|].
  assert (C : plan_get_current_block queue_ops (plan (started_machine q))
              = Some trapezoid_block) by (vm_compute; reflexivity).
  pose proof (@bresenham_pulses_follow_line grbl_config queue queue_ops
                trapezoid_block grbl_config_pins Y_AXIS zero_data
                (started_machine q) g 150 L C) as H.
  cbv zeta in H.
  assert (H' := H eq_refl
                  ltac:(vm_compute; split; discriminate)
                  ltac:(vm_compute; split; reflexivity)).
  clear H. change (step_event_count trapezoid_block) with 300 in H'.
  change (get_axis Y_AXIS (steps trapezoid_block)) with 200 in H'.
  change (Z.of_nat 150) with 150 in H'. change (300 / 2) with 150 in H'.
  lia.
Defined.

(** ** A fresh block, and a block that is taken up again *)

Section BlockEnd.
Variable cfg : config.

(** X14.  A fresh block starts with its step event count held without
    loss in [step_events_remaining] when the count is below [2^24] in
    magnitude: the ceiling that the preparer takes of it is the count.
    The bound cannot be raised: [2^24 + 1] step events are taken for
    [2^24]. *)
Theorem fresh_block_count_exact (b : plan_block_t)
    (next : option plan_block_t) (d : st_data_t) :
  Z.abs (step_event_count b) < 2 ^ 24 ->
  F32.ceilZ (step_events_remaining (prep_block_data cfg b next None d))
  = step_event_count b /\
  F32.int_val (step_events_remaining (prep_block_data cfg b next None d))
    (step_event_count b) /\
  F32.ceilZ (F32.of_Z (2 ^ 24 + 1)) = 2 ^ 24.
Proof.
  intros H. rewrite prep_block_data_remaining.
  split; [exact (@F32Exact.ceilZ_of_Z _ H)|].
  split; [exact (@F32Exact.of_Z_int _ H)|].
  vm_compute. reflexivity.
Qed.

End BlockEnd.

(** Ten million step events, the number the source names as the limit. *)
Lemma fresh_block_count_exact_witness :
  let b := x_block 0 10000000 10000 10000 100 in
  Z.abs (step_event_count b) < 2 ^ 24 /\
  F32.ceilZ (step_events_remaining
               (prep_block_data grbl_config b None None zero_data))
  = 10000000.
Proof.
  intros b.
  assert (H : Z.abs (step_event_count b) < 2 ^ 24) by reflexivity.
  split; [exact H|].
  exact (proj1 (@fresh_block_count_exact grbl_config b None zero_data H)).
Defined.

Section Partial.
Variable cfg : config.
Variable planner : Type.
Variable pl : planner_ops planner.

Local Abbreviation globals := (globals planner).

(** The step data of a slot come through the computation of the
    profile. *)
Lemma prep_block_data_carried (b : plan_block_t)
    (next : option plan_block_t) (l d : st_data_t) :
  let d' := prep_block_data cfg b next (Some l) d in
  step_events_remaining d' = step_events_remaining l /\
  dist_per_step d' = dist_per_step l /\
  step_per_mm d' = step_per_mm l /\
  acceleration d' = acceleration l.
Proof.
  unfold prep_block_data, prep_profile_in_steps, prep_velocity_profile,
    prep_rates, prep_partial_block_data.
  cbv zeta.
  repeat match goal with
         | |- context [if ?c then _ else _] => destruct c
         | |- context [match ?c with Some _ => _ | None => _ end] =>
             destruct c
         end; destruct d; repeat split; reflexivity.
Qed.

(** X15.  A block that the planner has recomputed is taken up where the
    preparer left it.  [st_fetch_partial_block_parameters], called while a
    block is being prepared, reports the millimeters that remain of it and
    whether it is decelerating; the round of [st_prep_buffer] that follows
    asks the planner for the block again, moves on to the next slot of the
    shared data, and copies into it the step events remaining, the
    distance per step, the steps per millimeter and the acceleration of the
    slot it leaves, instead of starting again from [step_event_count]. *)
Theorem partial_block_carries_over (g g1 : globals)
    (block_index : Z) (mm mm' : float) (dec dec' : Z)
    (b : plan_block_t) (j : Z) (l : st_data_t) (r : prep_round planner) :
  pl_prep_block g <> None ->
  st_prep_data g = Some j ->
  index (segment_data g) j = Some l ->
  plan_get_block_by_index pl (plan g) (pl_prep_index g) = Some b ->
  st_fetch_partial_block_parameters block_index mm dec g
  = Some (g1, mm', dec') ->
  prep_load_block cfg pl g1 = Some r ->
  mm' = (step_events_remaining l / step_per_mm l)%f32 /\
  dec' = (if (step_events_remaining l <? decelerate_after l)%f32
          then 1 else 0) /\
  exists g2 d',
    r = Continue g2 /\
    pl_prep_block g2 = Some b /\
    pl_partial_block_flag g2 = false /\
    pl_prep_index g2 = pl_prep_index g /\
    st_data_prep_index g2
    = (if to_u8 (st_data_prep_index g + 1) =? SEGMENT_BUFFER_SIZE - 1
       then 0 else to_u8 (st_data_prep_index g + 1)) /\
    st_prep_data g2 = Some (st_data_prep_index g2) /\
    index (segment_data g2) (st_data_prep_index g2) = Some d' /\
    step_events_remaining d' = step_events_remaining l /\
    dist_per_step d' = dist_per_step l /\
    step_per_mm d' = step_per_mm l /\
    acceleration d' = acceleration l.
Proof.
  unfold st_fetch_partial_block_parameters, prep_load_block,
    toggle_spindle_enable, upd_io.
  destruct g as [s sd sb t h nh bz cb cs cd pb pd pi di pf y se io0 pln].
  cbn. intros Hb -> Hl Hq F L.
  destruct pb as [b0|]; [|contradiction]. rewrite Hl in F.
  injection F as <- <- <-. cbn in L. rewrite Hq in L. cbn in L.
  split; [reflexivity|]. split; [reflexivity|].
  destruct (to_u8 (di + 1) =? 5); cbn in L;
    rewrite Hl in L; cbn in L;
    match type of L with
    | context [index sd ?i] =>
        destruct (index sd i) as [d0|]; [|discriminate]
    end;
    match type of L with
    | context [store sd ?i ?x] =>
        destruct (store sd i x) as [sd'|] eqn:St; [|discriminate];
        apply store_index in St;
        destruct (prep_block_data_carried b
                    (plan_get_block_by_index pl pln
                       (plan_next_block_index pl pln pi))
                    l d0) as (C1 & C2 & C3 & C4)
    end;
    injection L as <-;
    eexists; eexists; (split; [reflexivity|]);
    cbn; repeat (split; [reflexivity|]);
    (split; [exact St|]); auto.
Qed.

End Partial.

(** The cruise block, taken up again after five segments of 16 step
    events in all: 84 remain. *)
Lemma partial_block_carries_over_witness :
  let g := started_machine [cruise_block; cruise_block] in
  exists g1 mm' dec' r l g2 d',
    st_fetch_partial_block_parameters 0 F32.zero 0 g = Some (g1, mm', dec') /\
    prep_load_block grbl_config queue_ops g1 = Some r /\
    index (segment_data g) 1 = Some l /\
    F32.ceilZ (step_events_remaining l) = 84 /\
    r = Continue g2 /\
    index (segment_data g2) 2 = Some d' /\
    step_events_remaining d' = step_events_remaining l.
Proof.
  intros g.
  destruct (st_fetch_partial_block_parameters 0 F32.zero 0 g)
    as [[[g1 mm'] dec']|] eqn:F; [|vm_compute in F; discriminate].
  destruct (prep_load_block grbl_config queue_ops g1) as [r|] eqn:L;
    [|vm_compute in F; injection F as <- _ _; vm_compute in L; discriminate].
  destruct (index (segment_data g) 1) as [l|] eqn:Il;
    [|vm_compute in Il; discriminate].
  assert (Hb : pl_prep_block g <> None) by (vm_compute; discriminate).
  assert (Hj : st_prep_data g = Some 1) by (vm_compute; reflexivity).
  assert (Hq : plan_get_block_by_index queue_ops (plan g) (pl_prep_index g)
               = Some cruise_block) by (vm_compute; reflexivity).
  assert (Hi : st_data_prep_index g = 1) by (vm_compute; reflexivity).
  assert (Hc : F32.ceilZ (step_events_remaining l) = 84)
    by (vm_compute in Il; injection Il as <-; vm_compute; reflexivity).
  clearbody g.
  destruct (@partial_block_carries_over grbl_config queue queue_ops g g1 0
              F32.zero mm' 0 dec' cruise_block 1 l r Hb Hj Il Hq F L)
    as (_ & _ & g2 & d' & Er & _ & _ & _ & Ei & _ & Id & Es & _).
  rewrite Ei, Hi in Id. change (to_u8 (1 + 1)) with 2 in Id.
  change (2 =? SEGMENT_BUFFER_SIZE - 1) with false in Id. cbv iota in Id.
  exists g1, mm', dec', r, l, g2, d'. auto 10.
Defined.

(** ** An idle stepper *)

Lemma bit_true_idem (x m : Z) : bit_true (bit_true x m) m = bit_true x m.
Proof.
  unfold bit_true. rewrite <- Z.lor_assoc, Z.lor_diag. reflexivity.
Qed.

Lemma bit_false_idem (x m : Z) : bit_false (bit_false x m) m = bit_false x m.
Proof.
  unfold bit_false. rewrite <- Z.land_assoc, Z.land_diag. reflexivity.
Qed.

Lemma bit_istrue_other (x m a : Z) :
  Z.land m a = 0 -> bit_istrue (bit_true x m) a = bit_istrue x a.
Proof.
  intros H. unfold bit_istrue, bit_true.
  rewrite Z.land_lor_distr_l, H, Z.lor_0_r. reflexivity.
Qed.

Section Idle.
Variable cfg : config.
Variable planner : Type.
Variable pl : planner_ops planner.

Local Abbreviation globals := (globals planner).

Lemma isr_cycle_stop_idem (g : globals) :
  Z.land (EXEC_CYCLE_STOP cfg) (EXEC_ALARM cfg) = 0 ->
  isr_cycle_stop cfg (isr_cycle_stop cfg g) = isr_cycle_stop cfg g.
Proof.
  intros D.
  destruct g as [s sd sb t h nh bz cb cs cd pb pd pi di pf
                   [ys ye ya yp] se [p1 p2 p3 p4 p5 p6 p7 p8] pln].
  unfold isr_cycle_stop, st_go_idle, upd_sys, upd_io.
  cbn -[bit_true bit_false bit_istrue bit Z.eqb].
  rewrite (@bit_istrue_other _ _ _ D).
  destruct (negb (stepper_idle_lock_time se =? 255)
            || bit_istrue ye (EXEC_ALARM cfg)) eqn:A;
    [destruct (bit_istrue (flags se) (BITFLAG_INVERT_ST_ENABLE cfg)) eqn:B|];
    cbn -[bit_true bit_false bit_istrue bit Z.eqb];
    rewrite ?A, ?B;
    cbv [set_sys set_io set_busy set_TCCR2B set_TIMSK2
         set_STEPPERS_DISABLE_PORT set_execute
         st segment_data segment_buffer segment_buffer_tail
         segment_buffer_head segment_next_head busy pl_current_block
         st_current_segment st_current_data pl_prep_block st_prep_data
         pl_prep_index st_data_prep_index pl_partial_block_flag sys settings
         io plan state execute auto_start position
         STEPPING_PORT STEPPERS_DISABLE_PORT SPINDLE_ENABLE_PORT TIMSK2
         TCCR2B TCNT2 TCNT0 TCCR0B];
    rewrite ?bit_true_idem, ?bit_false_idem; reflexivity.
Qed.

(** X16.  A stepper that has gone idle on an empty ring stays as it is:
    as long as the ring is empty and a load is pending, every further tick
    of the interrupt returns the state the first one left, with
    [EXEC_CYCLE_STOP] still set, the port untouched and no step flagged.
    [EXEC_CYCLE_STOP] and [EXEC_ALARM] are different bits of
    [sys.execute]. *)
Theorem isr_underrun_stays_idle (g g' : globals) :
  Z.land (EXEC_CYCLE_STOP cfg) (EXEC_ALARM cfg) = 0 ->
  busy g = false ->
  load_flag (st g) <> LOAD_NOOP ->
  segment_buffer_head g = segment_buffer_tail g ->
  TIMER2_COMPA_vect cfg pl g = Some g' ->
  TIMER2_COMPA_vect cfg pl g' = Some g' /\
  execute_step (st g') = false /\
  bit_istrue (execute (sys g')) (EXEC_CYCLE_STOP cfg)
  = negb (EXEC_CYCLE_STOP cfg =? 0).
Proof.
  intros D Hb Hl He H.
  rewrite (isr_underrun_eq cfg pl g Hb Hl He) in H. injection H as <-.
  fold (isr_cycle_stop cfg (isr_pulse cfg g)).
  set (p := isr_pulse cfg g).
  destruct (isr_pulse_spec cfg g) as (Ps & _ & Pr & _). fold p in Ps, Pr.
  destruct (st_go_idle_spec cfg p) as (Is & Iy & Ir & _ & Ib & _).
  assert (S1 : st (isr_cycle_stop cfg p) = set_execute_step false (st g))
    by (unfold isr_cycle_stop, upd_sys; cbn [st set_sys]; rewrite Is;
        exact Ps).
  assert (R1 : ring_of (isr_cycle_stop cfg p) = ring_of g)
    by (unfold isr_cycle_stop, upd_sys;
        change (ring_of (set_sys ?y ?x)) with (ring_of x);
        rewrite Ir; exact Pr).
  assert (B1 : busy (isr_cycle_stop cfg p) = false)
    by (unfold isr_cycle_stop, upd_sys; cbn [busy set_sys]; exact Ib).
  assert (X1 : execute_step (st (isr_cycle_stop cfg p)) = false)
    by (rewrite S1; destruct (st g); reflexivity).
  assert (L1 : load_flag (st (isr_cycle_stop cfg p)) <> LOAD_NOOP)
    by (rewrite S1; destruct (st g); exact Hl).
  assert (E1 : segment_buffer_head (isr_cycle_stop cfg p)
               = segment_buffer_tail (isr_cycle_stop cfg p)).
  { unfold ring_of in R1. injection R1 as Rt Rh _.
    change (segment_buffer_head (st_go_idle cfg p)
            = segment_buffer_tail (st_go_idle cfg p)).
    congruence. }
  split; [|split; [exact X1|]].
  - rewrite (isr_underrun_eq cfg pl (isr_cycle_stop cfg p) B1 L1 E1).
    assert (P1 : isr_pulse cfg (isr_cycle_stop cfg p)
                 = isr_cycle_stop cfg p)
      by (unfold isr_pulse; rewrite X1; reflexivity).
    rewrite P1. fold (isr_cycle_stop cfg (isr_cycle_stop cfg p)).
    rewrite (isr_cycle_stop_idem p D). reflexivity.
  - unfold isr_cycle_stop, upd_sys. cbn [sys set_sys execute set_execute].
    unfold bit_istrue, bit_true.
    rewrite Z.land_lor_distr_l, Z.land_diag.
    destruct (Z.eqb_spec (EXEC_CYCLE_STOP cfg) 0) as [Z0|Z0].
    + rewrite Z0, Z.land_0_r. reflexivity.
    + cbn [negb]. apply Bool.negb_true_iff, Z.eqb_neq. intros N.
      apply Z0. apply Z.bits_inj'. intros i Hi. rewrite Z.bits_0.
      apply (f_equal (fun z => Z.testbit z i)) in N.
      rewrite Z.lor_spec, Z.bits_0 in N.
      apply Bool.orb_false_iff in N. exact (proj2 N).
Qed.

End Idle.

(** The machine started on an empty planner queue: the first tick goes
    idle, and so does the second. *)
Lemma isr_underrun_stays_idle_witness :
  let g := started_machine [] in
  exists g',
    TIMER2_COMPA_vect grbl_config queue_ops g = Some g' /\
    TIMER2_COMPA_vect grbl_config queue_ops g' = Some g' /\
    execute (sys g') = 4 /\ TCCR2B (io g) = 2 /\ TCCR2B (io g') = 0.
Proof.
  intros g.
  destruct (TIMER2_COMPA_vect grbl_config queue_ops g) as [g'|] eqn:T;
    [|vm_compute in T; discriminate].
  exists g'. split; [reflexivity|].
  assert (D : Z.land (EXEC_CYCLE_STOP grbl_config) (EXEC_ALARM grbl_config)
              = 0) by reflexivity.
  assert (Hb : busy g = false) by reflexivity.
  assert (Hl : load_flag (st g) <> LOAD_NOOP) by (vm_compute; discriminate).
  assert (He : segment_buffer_head g = segment_buffer_tail g)
    by reflexivity.
  split.
  - exact (proj1 (@isr_underrun_stays_idle grbl_config queue queue_ops g g'
                    D Hb Hl He T)).
  - vm_compute in T. injection T as <-. vm_compute. repeat split.
Defined.

(** ** The position and the pulses *)

Section Position.
Variable cfg : config.
Variable planner : Type.
Variable pl : planner_ops planner.
Hypothesis pins : pin_map_ok cfg.

Local Abbreviation globals := (globals planner).

Lemma isr_bresenham_axis_execute_step (a : axis) (b : plan_block_t)
    (g : globals) :
  execute_step (st (isr_bresenham_axis cfg a b g)) = execute_step (st g).
Proof.
  unfold isr_bresenham_axis, upd_st, upd_sys. cbv zeta.
  destruct g as [[cx cy cz cd sc pc ex spt ob lf]
                 sd sb tl hd nh bz cb cs cdt pb pd pi di pf y se r pn].
  destruct a; cbn;
    repeat match goal with
           | |- context [if ?c then _ else _] => destruct c
           end; reflexivity.
Qed.

Lemma isr_step_event_execute_step (b : plan_block_t) (d : st_data_t)
    (g : globals) :
  execute_step (st (isr_step_event cfg b d g)) = true.
Proof.
  rewrite isr_step_event_eq.
  assert (E : forall x : globals,
             execute_step (st (isr_step_end x)) = execute_step (st x))
    by (intros x; destruct x as [[]]; reflexivity).
  rewrite E, !isr_bresenham_axis_execute_step.
  destruct g as [[]]. reflexivity.
Qed.

(** The load phase, seen from the step flag: either nothing is flagged, or
    a block was loaded and its direction bits are the output bits. *)
Lemma isr_load_segment_flag_bits (g g1 : globals) :
  execute_step (st g) = false ->
  isr_load_segment cfg pl g = Some (Proceed g1) ->
  sys g1 = sys g /\ settings g1 = settings g /\
  (execute_step (st g1) = false \/
   exists blk, pl_current_block g1 = Some blk /\
               out_bits (st g1)
               = Z.lxor (direction_bits blk) (invert_mask (settings g))).
Proof.
  unfold isr_load_segment. intros X H.
  destruct (negb (load_flag (st g) =? LOAD_NOOP)).
  - destruct (negb (segment_buffer_head g =? segment_buffer_tail g));
      [|discriminate].
    cbn [st_current_segment set_st_current_segment] in H.
    destruct (index _ _) as [seg|]; [|discriminate].
    destruct (load_flag _ =? LOAD_BLOCK).
    + destruct (isr_load_block pl _) as [g2|] eqn:L; [|discriminate].
      injection H as <-.
      destruct (isr_load_block_spec pl _ L)
        as (blk & _ & Hc & _ & Ho & _ & _ & _ & Hy & Hs).
      destruct g2 as [[]]. destruct g as [[]]. cbn in *.
      repeat split; try assumption. right. exists blk. auto.
    + injection H as <-. destruct g as [[]]. cbn in *. auto.
  - injection H as <-. auto.
Qed.

Lemma isr_inverse_time_cases (g g' : globals) :
  isr_inverse_time cfg g = Some g' ->
  (execute_step (st g') = execute_step (st g) /\
   out_bits (st g') = out_bits (st g) /\
   pl_current_block g' = pl_current_block g /\
   sys g' = sys g /\ settings g' = settings g) \/
  exists b d g0,
    pl_current_block g0 = Some b /\ sys g0 = sys g /\
    settings g0 = settings g /\ g' = isr_step_event cfg b d g0.
Proof.
  unfold isr_inverse_time. intros H.
  destruct (st_current_segment g); [|discriminate]. cbv beta iota in H.
  destruct (index _ _) as [seg|]; [|discriminate].
  cbv zeta in H.
  set (g0 := upd_st _ g) in H.
  assert (G0 : execute_step (st g0) = execute_step (st g) /\
               out_bits (st g0) = out_bits (st g) /\
               pl_current_block g0 = pl_current_block g /\
               sys g0 = sys g /\ settings g0 = settings g)
    by (subst g0; destruct g as [[]]; cbn; auto).
  destruct (counter_dist (st g0) <? 0); [|injection H as <-; left; exact G0].
  destruct (step_count (st g0) >? 0); [|injection H as <-; left; exact G0].
  destruct G0 as (_ & _ & Gb & Gy & Gs).
  destruct (st_current_data g0) as [j|]; [|discriminate].
  cbv beta iota in H.
  destruct (index (segment_data g0) j) as [d|]; [|discriminate].
  cbv beta iota in H.
  destruct (pl_current_block g0) as [b|] eqn:B; [|discriminate].
  injection H as <-. right. exists b, d, g0. auto.
Qed.

Lemma isr_segment_complete_flag_bits (g g' : globals) :
  isr_segment_complete pl g = Some g' ->
  execute_step (st g') = execute_step (st g) /\
  out_bits (st g') = out_bits (st g) /\
  pl_current_block g' = pl_current_block g /\
  sys g' = sys g /\ settings g' = settings g.
Proof.
  unfold isr_segment_complete.
  destruct g as [[cx cy cz cd sc pc ex spt ob lf]
                 sd sb tl hd nh bz cb cs cdt pb pd pi di pf y se r pn].
  cbn. intros C. split_match C; injection C as <-; repeat split; reflexivity.
Qed.

(** X17.  [sys.position] follows the pulses.  In a tick of the interrupt
    the position of an axis either stays, and then no step of the axis is
    flagged for the next tick, or it moves by exactly one count in the
    direction of the current block, and then the step bit of the axis is
    raised in [out_bits] with [execute_step] set, so that the next tick puts
    the pulse on the port.  The pins are distinct bits, and the direction
    bits of the block contain no step bit. *)
Theorem position_follows_pulses (o : axis) (g g' : globals) :
  busy g = false ->
  TIMER2_COMPA_vect cfg pl g = Some g' ->
  (forall b, pl_current_block g' = Some b ->
             Z.testbit (direction_bits b) (step_bit_of cfg o) = false) ->
  (execute_step (st g') && step_bit_raised cfg o g' = false /\
   get_axis o (position (sys g')) = get_axis o (position (sys g))) \/
  (execute_step (st g') && step_bit_raised cfg o g' = true /\
   exists b, pl_current_block g' = Some b /\
             get_axis o (position (sys g'))
             = to_i32 (get_axis o (position (sys g))
                       + direction_sign cfg b o)).
Proof.
  intros Hb H Hd.
  destruct (isr_pulse_spec cfg g) as (Ps & Py & _).
  assert (Pe : settings (isr_pulse cfg g) = settings g)
    by (unfold isr_pulse; destruct (execute_step (st g)); reflexivity).
  assert (Px : execute_step (st (set_busy true (isr_pulse cfg g))) = false)
    by (cbn [st set_busy]; rewrite Ps; destruct (st g); reflexivity).
  destruct (@TIMER2_COMPA_vect_phases cfg planner pl g g' Hb H)
    as [(g1 & L & ->)|(g1 & g2 & g3 & L & T & C & ->)].
  - left.
    pose proof (@isr_load_segment_quiet cfg planner pl _ _ L)
      as (_ & _ & _ & Pp & _). cbn beta iota in Pp.
    assert (X1 : execute_step (st g1) = false).
    { unfold isr_load_segment in L.
      destruct (negb (load_flag _ =? LOAD_NOOP)); [|discriminate].
      destruct (negb (segment_buffer_head _ =? segment_buffer_tail _)).
      - cbn [st_current_segment set_st_current_segment] in L.
        split_match L.
      - injection L as <-. unfold upd_sys. cbn [st set_sys].
        destruct (st_go_idle_spec cfg (set_busy true (isr_pulse cfg g)))
          as (Is & _). rewrite Is. exact Px. }
    rewrite X1. split; [reflexivity|].
    rewrite Pp. cbn [sys set_busy]. rewrite Py. reflexivity.
  - destruct (isr_load_segment_flag_bits _ Px L) as (Ly & Ls & Lx).
    cbn [sys settings set_busy] in Ly, Ls, Lx. rewrite Py in Ly.
    rewrite Pe in Ls, Lx.
    destruct (isr_segment_complete_flag_bits _ C) as (Cx & Co & Cb & Cy & Cs).
    cbn [st sys settings pl_current_block set_busy] in Hd |- *.
    unfold step_bit_raised. cbn [st settings set_busy].
    rewrite Cx, Co, Cy, Cs. rewrite Cb in Hd.
    destruct (isr_inverse_time_cases _ T)
      as [(Tx & To & Tb & Ty & Te)|(b & d & g0 & Tb & Ty & Te & ->)].
    + left. rewrite Tx, To, Ty, Te, Ly, Ls. rewrite Tb in Hd.
      split; [|reflexivity].
      destruct Lx as [Lx|(blk & Lb & Lo)]; [rewrite Lx; reflexivity|].
      rewrite Lo, Z.lxor_assoc, Z.lxor_nilpotent, Z.lxor_0_r.
      rewrite (Hd blk Lb). apply Bool.andb_false_r.
    + assert (Hb' : pl_current_block (isr_step_event cfg b d g0) = Some b).
      { rewrite (@isr_step_event_ignored cfg planner _
                   (@pl_current_block planner) b d g0) by reflexivity.
        exact Tb. }
      destruct (@isr_step_event_axis cfg planner b pins o d g0 (Hd b Hb'))
        as (Se & Sr & _ & Sp).
      unfold step_bit_raised in Sr.
      rewrite isr_step_event_execute_step, Sr, Sp, Ty, Ly. cbn [andb].
      destruct (axis_wraps b o g0).
      * right. split; [reflexivity|]. exists b.
        split; [rewrite Cb; exact Hb'|]. reflexivity.
      * left. split; reflexivity.
Qed.

End Position.

(** The fourth tick of a cruise along X makes the first step: the position
    goes from 0 to 1 and the pulse is flagged. *)
Lemma position_follows_pulses_witness :
  let g := at_tick 3 [cruise_block] in
  exists g',
    TIMER2_COMPA_vect grbl_config queue_ops g = Some g' /\
    ((execute_step (st g') && step_bit_raised grbl_config X_AXIS g' = false /\
      get_axis X_AXIS (position (sys g'))
      = get_axis X_AXIS (position (sys g))) \/
     (execute_step (st g') && step_bit_raised grbl_config X_AXIS g' = true /\
      exists b, pl_current_block g' = Some b /\
                get_axis X_AXIS (position (sys g'))
                = to_i32 (get_axis X_AXIS (position (sys g))
                          + direction_sign grbl_config b X_AXIS))) /\
    at_x (position (sys g)) = 0 /\ at_x (position (sys g')) = 1 /\
    execute_step (st g') = true.
Proof.
  intros g.
  destruct (TIMER2_COMPA_vect grbl_config queue_ops g) as [g'|] eqn:T;
    [|vm_compute in T; discriminate].
  exists g'. split; [reflexivity|].
  assert (Hb : busy g = false) by (vm_compute; reflexivity).
  assert (F : pl_current_block g' = Some cruise_block /\
              at_x (position (sys g)) = 0 /\ at_x (position (sys g')) = 1 /\
              execute_step (st g') = true).
  { pose proof T as T'. vm_compute in T'. injection T' as <-.
    vm_compute. repeat split. }
  destruct F as (B & F).
  assert (Hd : forall b, pl_current_block g' = Some b ->
               Z.testbit (direction_bits b) (step_bit_of grbl_config X_AXIS)
               = false).
  { intros b E. rewrite B in E. injection E as <-. reflexivity. }
  clearbody g.
  split; [|exact F].
  exact (@position_follows_pulses grbl_config queue queue_ops
           grbl_config_pins X_AXIS g g' Hb T Hd).
Defined.

(** ** Starting a cycle *)

Section CycleStart.
Variable cfg : config.
Variable planner : Type.
Variable pl : planner_ops planner.

Local Abbreviation globals := (globals planner).

(** [st_wake_up] in a cycle: the interrupt is armed. *)
Lemma st_wake_up_cycle (g : globals) :
  state (sys g) = STATE_CYCLE ->
  let g' := st_wake_up cfg g in
  load_flag (st g') = LOAD_BLOCK /\ execute_step (st g') = false /\
  out_bits (st g') = invert_mask (settings g) /\
  TIMSK2 (io g') = bit_true (TIMSK2 (io g)) (bit (OCIE2A cfg)) /\
  TCCR2B (io g') = bit (CS21 cfg) /\ TCNT2 (io g') = 0 /\
  sys g' = sys g /\ plan g' = plan g /\ pl_prep_index g' = pl_prep_index g.
Proof.
  intros Hc. unfold st_wake_up. cbv zeta.
  destruct (bit_istrue _ _);
    cbn [sys upd_io set_io]; rewrite Hc;
    destruct g as [[]]; cbn; repeat split.
Qed.

(** X18.  [st_cycle_start] on a queued machine starts the cycle: it
    returns, [sys.state] is [STATE_CYCLE], the segment ring has been filled
    (it is full, or the preparer has nothing left to prepare), and the
    stepper interrupt is armed (compare interrupt enabled, prescaler set,
    counter at zero) to load a block at its first tick, with no pulse
    flagged.  The indices of the ring and the pointers of the preparer are
    in order when it is called. *)
Theorem st_cycle_start_starts_cycle (g : globals) :
  0 <= OCIE2A cfg ->
  state (sys g) = STATE_QUEUED ->
  prep_inv g -> ring_inv g ->
  exists g',
    st_cycle_start cfg pl g = Some g' /\
    state (sys g') = STATE_CYCLE /\
    (ring_full g' = true \/ prep_idle pl g') /\
    ring_inv g' /\ prep_inv g' /\
    segment_buffer_tail g' = segment_buffer_tail g /\
    load_flag (st g') = LOAD_BLOCK /\ execute_step (st g') = false /\
    Z.testbit (TIMSK2 (io g')) (OCIE2A cfg) = true /\
    TCCR2B (io g') = bit (CS21 cfg) /\ TCNT2 (io g') = 0.
Proof.
  intros Ho Hq Hp Hr. unfold st_cycle_start. rewrite Hq. cbv zeta.
  set (g0 := upd_sys (set_state STATE_CYCLE) g).
  assert (P0 : prep_inv g0) by exact Hp.
  assert (R0 : ring_inv g0) by exact Hr.
  destruct (@st_prep_buffer_returns cfg planner pl g0 P0 R0)
    as (g1 & B & P1 & R1).
  rewrite B. cbv beta iota. exists (st_wake_up cfg g1).
  split; [reflexivity|].
  pose proof (@st_prep_buffer_exec cfg planner pl g0 g1 B) as X.
  assert (Y : sys g1 = sys g0 /\
              segment_buffer_tail g1 = segment_buffer_tail g0)
    by (unfold executor_fields in X; injection X; auto).
  destruct Y as (Y & T).
  assert (C1 : state (sys g1) = STATE_CYCLE) by (rewrite Y; reflexivity).
  assert (E : ring_full g1 = true \/ prep_idle pl g1).
  { unfold st_prep_buffer in B. cbn [sys upd_sys set_sys state set_state] in B.
    subst g0. unfold upd_sys in B. cbn [sys set_sys state set_state] in B.
    exact (@st_prep_loop_ends cfg planner pl _ _ _ B). }
  destruct (st_wake_up_cycle g1 C1)
    as (Wl & Wx & _ & Wm & Wc & Wt & Wy & Wp & Wi).
  destruct (@st_wake_up_frame cfg planner g1) as (Fp & Fr & _).
  split; [rewrite Wy; exact C1|].
  split.
  { destruct E as [E|((N1 & N2) & seg & S1 & S2)].
    - left. unfold ring_full, ring_of in *. injection Fr as -> _ ->. exact E.
    - right. unfold prep_idle, nothing_to_prepare.
      unfold prep_fields in Fp. unfold ring_of in Fr.
      injection Fp as -> _ _ -> _ _. injection Fr as _ -> _.
      rewrite Wp, Wi. split; [split; assumption|]. exists seg. auto. }
  split; [exact (@ring_inv_same planner _ _ R1 Fr)|].
  split; [exact (@prep_inv_same planner _ _ P1 Fp)|].
  split; [unfold ring_of in Fr; injection Fr as -> _ _; exact T|].
  split; [exact Wl|]. split; [exact Wx|].
  split; [|split; assumption].
  rewrite Wm, testbit_bit_true by assumption.
  rewrite Z.eqb_refl. reflexivity.
Qed.

End CycleStart.

(** A queued machine with one block of 100 steps: the cycle starts on a
    full ring of five segments. *)
Lemma st_cycle_start_starts_cycle_witness :
  let y := {| state := STATE_QUEUED; execute := 0; auto_start := true;
              position := {| at_x := 0; at_y := 0; at_z := 0 |} |} in
  let g := st_reset (power_on {| blocks := [cruise_block]; current := 0 |}
                       plain_settings y) in
  exists g',
    st_cycle_start grbl_config queue_ops g = Some g' /\
    state (sys g') = STATE_CYCLE /\ ring_full g' = true /\
    segment_count g' = 5 /\ TCCR2B (io g') = 2.
Proof.
  intros y g.
  assert (Ho : 0 <= OCIE2A grbl_config) by (vm_compute; discriminate).
  assert (Hq : state (sys g) = STATE_QUEUED) by reflexivity.
  assert (Hp : prep_inv g)
    by (apply st_reset_prep_inv; reflexivity).
  assert (Hr : ring_inv g) by apply st_reset_ring.
  destruct (@st_cycle_start_starts_cycle grbl_config queue queue_ops g
              Ho Hq Hp Hr) as (g' & S & C & _).
  exists g'. split; [exact S|]. split; [exact C|].
  vm_compute in S. injection S as <-. vm_compute. repeat split.
Defined.

(** ** The state of the cycle and the motion *)

(** The interrupt and the preparer do the same whatever [sys.state] and
    [sys.auto_start] are set to, [STATE_QUEUED] apart for the preparer. *)

Section Relabel.
Variable cfg : config.
Variable planner : Type.
Variable pl : planner_ops planner.
Variable lbl : sys_state.
Variable astart : bool.

Local Abbreviation globals := (globals planner).
Local Abbreviation relabelled := (relabel lbl astart).

Ltac same_on_both_sides :=
  repeat match goal with
         | |- context [match ?x with _ => _ end] =>
             destruct_innermost x; cbn
         end;
  reflexivity.

Lemma isr_pulse_relabel (g : globals) :
  isr_pulse cfg (relabelled g) = relabelled (isr_pulse cfg g).
Proof.
  unfold isr_pulse, relabel, upd_sys. destruct g as [[]]. cbn.
  same_on_both_sides.
Qed.

Lemma st_go_idle_relabel (g : globals) :
  st_go_idle cfg (relabelled g) = relabelled (st_go_idle cfg g).
Proof.
  unfold st_go_idle, relabel, upd_sys, upd_io.
  destruct g as [s sd sb t h nh bz cb cs cd pb pd pi di pf
                   [ys ye ya yp] se r pln].
  cbn -[bit_true bit_false bit_istrue bit Z.eqb].
  same_on_both_sides.
Qed.

Lemma isr_load_block_relabel (g : globals) :
  isr_load_block pl (relabelled g)
  = option_map relabelled (isr_load_block pl g).
Proof.
  unfold isr_load_block, relabel, upd_sys. destruct g as [[]]. cbn.
  same_on_both_sides.
Qed.

Lemma isr_load_segment_relabel (g : globals) :
  isr_load_segment cfg pl (relabelled g)
  = option_map (fun r => match r with
                         | Proceed g' => Proceed (relabelled g')
                         | Leave g' => Leave (relabelled g')
                         end) (isr_load_segment cfg pl g).
Proof.
  unfold isr_load_segment.
  change (load_flag (st (relabelled g))) with (load_flag (st g)).
  change (segment_buffer_head (relabelled g)) with (segment_buffer_head g).
  change (segment_buffer_tail (relabelled g)) with (segment_buffer_tail g).
  destruct (negb (load_flag (st g) =? LOAD_NOOP)); [|reflexivity].
  destruct (negb (segment_buffer_head g =? segment_buffer_tail g)).
  - cbn [st_current_segment set_st_current_segment].
    change (segment_buffer (relabelled g)) with (segment_buffer g).
    destruct (index _ _) as [seg|]; [|reflexivity]. cbv beta iota zeta.
    change (load_flag (st (upd_st (set_step_count (n_step seg)) ?x)))
      with (load_flag (st x)).
    cbn [st set_st_current_segment].
    change (st (relabelled g)) with (st g).
    destruct (load_flag (st g) =? LOAD_BLOCK).
    + change (upd_st (set_step_count (n_step seg))
                (set_st_current_segment (Some (segment_buffer_tail g))
                   (relabelled g)))
        with (relabelled (upd_st (set_step_count (n_step seg))
                (set_st_current_segment (Some (segment_buffer_tail g)) g))).
      rewrite isr_load_block_relabel.
      destruct (isr_load_block pl _); reflexivity.
    + reflexivity.
  - cbv zeta. rewrite st_go_idle_relabel.
    destruct (st_go_idle cfg g) as [? ? ? ? ? ? ? ? ? ? ? ? ? ? ? []].
    reflexivity.
Qed.

Lemma isr_bresenham_axis_relabel (a : axis) (b : plan_block_t) (g : globals) :
  isr_bresenham_axis cfg a b (relabelled g)
  = relabelled (isr_bresenham_axis cfg a b g).
Proof.
  unfold isr_bresenham_axis, relabel, upd_sys, upd_st.
  destruct g as [[] ? ? ? ? ? ? ? ? ? ? ? ? ? ? []]. cbn.
  same_on_both_sides.
Qed.

Lemma isr_step_event_relabel (b : plan_block_t) (d : st_data_t) (g : globals) :
  isr_step_event cfg b d (relabelled g) = relabelled (isr_step_event cfg b d g).
Proof.
  rewrite !isr_step_event_eq.
  change (isr_step_begin b d (relabelled g))
    with (relabelled (isr_step_begin b d g)).
  rewrite !isr_bresenham_axis_relabel.
  generalize (isr_bresenham_axis cfg Z_AXIS b
                (isr_bresenham_axis cfg Y_AXIS b
                   (isr_bresenham_axis cfg X_AXIS b (isr_step_begin b d g)))).
  intros x. destruct x as [[]]. reflexivity.
Qed.

Lemma isr_inverse_time_relabel (g : globals) :
  isr_inverse_time cfg (relabelled g)
  = option_map relabelled (isr_inverse_time cfg g).
Proof.
  unfold isr_inverse_time.
  change (st_current_segment (relabelled g)) with (st_current_segment g).
  destruct (st_current_segment g); [|reflexivity]. cbv beta iota.
  change (segment_buffer (relabelled g)) with (segment_buffer g).
  destruct (index _ _) as [seg|]; [|reflexivity]. cbv beta iota zeta.
  set (g0 := upd_st _ g).
  change (upd_st (fun s => set_counter_dist
                    (to_i32 (counter_dist s - dist_per_tick seg)) s)
            (relabelled g)) with (relabelled g0).
  change (st (relabelled g0)) with (st g0).
  destruct (counter_dist (st g0) <? 0); [|reflexivity].
  destruct (step_count (st g0) >? 0); [|reflexivity].
  change (st_current_data (relabelled g0)) with (st_current_data g0).
  destruct (st_current_data g0); [|reflexivity]. cbv beta iota.
  change (segment_data (relabelled g0)) with (segment_data g0).
  destruct (index _ _); [|reflexivity]. cbv beta iota.
  change (pl_current_block (relabelled g0)) with (pl_current_block g0).
  destruct (pl_current_block g0); [|reflexivity]. cbn [option_map].
  rewrite isr_step_event_relabel. reflexivity.
Qed.

Lemma isr_segment_complete_relabel (g : globals) :
  isr_segment_complete pl (relabelled g)
  = option_map relabelled (isr_segment_complete pl g).
Proof.
  unfold isr_segment_complete, relabel, upd_sys, upd_st.
  destruct g as [[]]. cbn. same_on_both_sides.
Qed.

Lemma TIMER2_COMPA_vect_relabel (g : globals) :
  TIMER2_COMPA_vect cfg pl (relabelled g)
  = option_map relabelled (TIMER2_COMPA_vect cfg pl g).
Proof.
  unfold TIMER2_COMPA_vect.
  change (busy (relabelled g)) with (busy g).
  destruct (busy g); [reflexivity|]. cbv zeta.
  rewrite isr_pulse_relabel.
  change (set_busy true (relabelled (isr_pulse cfg g)))
    with (relabelled (set_busy true (isr_pulse cfg g))).
  rewrite isr_load_segment_relabel.
  destruct (isr_load_segment cfg pl _) as [[g1|g1]|]; try reflexivity.
  cbn [option_map]. cbv beta iota.
  rewrite isr_inverse_time_relabel.
  destruct (isr_inverse_time cfg g1) as [g2|]; [|reflexivity].
  cbn [option_map]. cbv beta iota.
  rewrite isr_segment_complete_relabel.
  destruct (isr_segment_complete pl g2) as [g3|]; reflexivity.
Qed.

Lemma prep_load_block_relabel (g : globals) :
  prep_load_block cfg pl (relabelled g)
  = option_map (fun r => match r with
                         | Continue g' => Continue (relabelled g')
                         | Return g' => Return (relabelled g')
                         end) (prep_load_block cfg pl g).
Proof.
  unfold prep_load_block, relabel, upd_sys, toggle_spindle_enable, upd_io.
  destruct g as [s sd sb t h nh bz cb cs cd pb pd pi di pf y se r pln].
  cbn -[prep_block_data]. same_on_both_sides.
Qed.

Lemma prep_segment_relabel (g : globals) :
  prep_segment cfg pl (relabelled g)
  = option_map relabelled (prep_segment cfg pl g).
Proof.
  unfold prep_segment, relabel, upd_sys, toggle_spindle_enable, upd_io.
  destruct g as [s sd sb t h nh bz cb cs cd pb pd pi di pf y se r pln].
  cbn -[prep_segment_emit prep_end_of_block prep_segment_data].
  same_on_both_sides.
Qed.

Lemma st_prep_round_relabel (g : globals) :
  st_prep_round cfg pl (relabelled g)
  = option_map (fun r => match r with
                         | Continue g' => Continue (relabelled g')
                         | Return g' => Return (relabelled g')
                         end) (st_prep_round cfg pl g).
Proof.
  unfold st_prep_round.
  change (segment_buffer (relabelled g)) with (segment_buffer g).
  change (segment_buffer_head (relabelled g)) with (segment_buffer_head g).
  destruct (index _ _) as [seg|]; [|reflexivity]. cbv beta iota.
  destruct (store _ _ _) as [sb|]; [|reflexivity]. cbv beta iota zeta.
  change (set_segment_buffer sb (relabelled g))
    with (relabelled (set_segment_buffer sb g)).
  rewrite prep_load_block_relabel.
  destruct (prep_load_block cfg pl _) as [[g1|g1]|]; try reflexivity.
  cbn [option_map]. cbv beta iota. rewrite prep_segment_relabel.
  destruct (prep_segment cfg pl g1); reflexivity.
Qed.

Lemma st_prep_loop_relabel (n : nat) (g : globals) :
  st_prep_loop cfg pl n (relabelled g)
  = option_map relabelled (st_prep_loop cfg pl n g).
Proof.
  revert g. induction n as [|n IH]; intros g; cbn [st_prep_loop];
    change (segment_buffer_tail (relabelled g)) with (segment_buffer_tail g);
    change (segment_next_head (relabelled g)) with (segment_next_head g);
    destruct (segment_buffer_tail g =? segment_next_head g);
    try reflexivity.
  rewrite st_prep_round_relabel.
  destruct (st_prep_round cfg pl g) as [[g1|g1]|]; try reflexivity.
  cbn [option_map]. cbv beta iota. apply IH.
Qed.

End Relabel.

(** ** A feed hold and the end of a cycle *)

Section Hold.
Variable cfg : config.
Variable planner : Type.
Variable pl : planner_ops planner.

Local Abbreviation globals := (globals planner).

Lemma isr_load_segment_state (g : globals) (r : isr_load planner) :
  isr_load_segment cfg pl g = Some r ->
  match r with
  | Proceed g' | Leave g' =>
      state (sys g') = state (sys g) /\
      auto_start (sys g') = auto_start (sys g)
  end.
Proof.
  intros H. destruct r as [g'|g'].
  - apply isr_load_segment_quiet in H. destruct H as (_ & ->).
    split; reflexivity.
  - unfold isr_load_segment in H.
    destruct (negb (load_flag _ =? LOAD_NOOP)); [|discriminate].
    destruct (negb (segment_buffer_head _ =? segment_buffer_tail _)).
    + cbn [st_current_segment set_st_current_segment] in H. split_match H.
    + injection H as <-. unfold upd_sys. cbn [sys set_sys].
      destruct (st_go_idle_spec cfg g) as (_ & -> & _).
      destruct (sys g); split; reflexivity.
Qed.

(** The interrupt leaves [sys.state] and [sys.auto_start] as they are. *)
Lemma TIMER2_COMPA_vect_state (g g' : globals) :
  TIMER2_COMPA_vect cfg pl g = Some g' ->
  state (sys g') = state (sys g) /\
  auto_start (sys g') = auto_start (sys g).
Proof.
  intros H. destruct (busy g) eqn:Hb.
  - unfold TIMER2_COMPA_vect in H. rewrite Hb in H. injection H as <-.
    split; reflexivity.
  - destruct (isr_pulse_spec cfg g) as (_ & Py & _).
    destruct (@TIMER2_COMPA_vect_phases cfg planner pl g g' Hb H)
      as [(g1 & L & ->)|(g1 & g2 & g3 & L & T & C & ->)];
      apply isr_load_segment_state in L; cbn [sys set_busy] in L;
      rewrite Py in L; [exact L|].
    assert (Ts : state (sys g2) = state (sys g1) /\
                 auto_start (sys g2) = auto_start (sys g1))
      by (apply isr_inverse_time_quiet in T; unfold quiet_fields in T;
          split; congruence).
    apply isr_segment_complete_plan in C. destruct C as (_ & Cy & _).
    cbn [sys set_busy]. rewrite Cy. destruct Ts as (-> & ->). exact L.
Qed.

Lemma st_feed_hold_relabel (g : globals) :
  state (sys g) = STATE_CYCLE -> st_feed_hold g = relabel STATE_HOLD false g.
Proof. unfold st_feed_hold. intros ->. reflexivity. Qed.

Lemma st_feed_hold_same (g : globals) :
  state (sys g) <> STATE_CYCLE -> st_feed_hold g = g.
Proof. unfold st_feed_hold. destruct (state (sys g)); congruence. Qed.

Lemma st_cycle_reinitialize_relabel (g : globals) :
  st_cycle_reinitialize g = relabel STATE_IDLE (auto_start (sys g)) g.
Proof.
  destruct g as [s sd sb t h nh bz cb cs cd pb pd pi di pf
                   [ys ye ya yp] se r pln].
  reflexivity.
Qed.

(** X19.  A feed hold does not stop the motion.  [st_feed_hold] changes
    [sys.state] and [sys.auto_start], and neither the interrupt nor
    [st_prep_buffer] acts on them in a held cycle: a tick of the interrupt
    after the hold gives the state that the hold gives after the tick, and
    so does a call of [st_prep_buffer].  The ports, the timers, the
    position, the ring and the planner queue go on as without the hold. *)
Theorem st_feed_hold_keeps_moving (g : globals) :
  TIMER2_COMPA_vect cfg pl (st_feed_hold g)
  = option_map (@st_feed_hold planner) (TIMER2_COMPA_vect cfg pl g) /\
  st_prep_buffer cfg pl (st_feed_hold g)
  = option_map (@st_feed_hold planner) (st_prep_buffer cfg pl g).
Proof.
  assert (D : state (sys g) = STATE_CYCLE \/ state (sys g) <> STATE_CYCLE)
    by (destruct (state (sys g));
        first [left; reflexivity | right; discriminate]).
  destruct D as [E|E].
  - rewrite (st_feed_hold_relabel g E). split.
    + rewrite TIMER2_COMPA_vect_relabel.
      destruct (TIMER2_COMPA_vect cfg pl g) as [g'|] eqn:T; [|reflexivity].
      cbn [option_map].
      rewrite st_feed_hold_relabel; [reflexivity|].
      rewrite (proj1 (TIMER2_COMPA_vect_state _ T)). exact E.
    + unfold st_prep_buffer.
      change (state (sys (relabel STATE_HOLD false g))) with STATE_HOLD.
      rewrite E. rewrite st_prep_loop_relabel.
      destruct (st_prep_loop cfg pl _ g) as [g'|] eqn:P; [|reflexivity].
      cbn [option_map].
      rewrite st_feed_hold_relabel; [reflexivity|].
      apply st_prep_loop_exec in P. unfold executor_fields in P.
      assert (Y : sys g' = sys g) by congruence. rewrite Y. exact E.
  - rewrite (st_feed_hold_same g E). split.
    + destruct (TIMER2_COMPA_vect cfg pl g) as [g'|] eqn:T; [|reflexivity].
      cbn [option_map]. rewrite st_feed_hold_same; [reflexivity|].
      rewrite (proj1 (TIMER2_COMPA_vect_state _ T)). exact E.
    + destruct (st_prep_buffer cfg pl g) as [g'|] eqn:P; [|reflexivity].
      cbn [option_map]. rewrite st_feed_hold_same; [reflexivity|].
      apply st_prep_buffer_exec in P. unfold executor_fields in P.
      assert (Y : sys g' = sys g) by congruence. rewrite Y. exact E.
Qed.

(** X20.  [st_cycle_reinitialize] ends the cycle in name only.  It sets
    [sys.state] to [STATE_IDLE] and stops nothing: a tick of the interrupt
    after it gives the state that it gives after the tick, and so does a
    call of [st_prep_buffer] outside [STATE_QUEUED].  The stepper is not
    started by it either: [st_cycle_start], which acts in [STATE_QUEUED]
    only, returns the state it is given. *)
Theorem st_cycle_reinitialize_keeps_moving (g : globals) :
  TIMER2_COMPA_vect cfg pl (st_cycle_reinitialize g)
  = option_map (@st_cycle_reinitialize planner)
      (TIMER2_COMPA_vect cfg pl g) /\
  (state (sys g) <> STATE_QUEUED ->
   st_prep_buffer cfg pl (st_cycle_reinitialize g)
   = option_map (@st_cycle_reinitialize planner)
       (st_prep_buffer cfg pl g)) /\
  st_cycle_start cfg pl (st_cycle_reinitialize g)
  = Some (st_cycle_reinitialize g).
Proof.
  split; [|split].
  - rewrite st_cycle_reinitialize_relabel, TIMER2_COMPA_vect_relabel.
    destruct (TIMER2_COMPA_vect cfg pl g) as [g'|] eqn:T; [|reflexivity].
    cbn [option_map]. rewrite st_cycle_reinitialize_relabel.
    rewrite (proj2 (TIMER2_COMPA_vect_state _ T)). reflexivity.
  - intros Q. rewrite st_cycle_reinitialize_relabel.
    unfold st_prep_buffer.
    change (state (sys (relabel STATE_IDLE (auto_start (sys g)) g)))
      with STATE_IDLE.
    cbv beta iota. rewrite st_prep_loop_relabel.
    assert (B : st_prep_buffer cfg pl g
                = st_prep_loop cfg pl (Z.to_nat SEGMENT_BUFFER_SIZE) g)
      by (unfold st_prep_buffer; destruct (state (sys g));
          first [reflexivity | contradiction Q; reflexivity]).
    fold (st_prep_buffer cfg pl g) in B.
    destruct (state (sys g)); try (contradiction Q; reflexivity);
      (destruct (st_prep_loop cfg pl _ g) as [g'|] eqn:P; [|reflexivity];
       cbn [option_map]; rewrite st_cycle_reinitialize_relabel;
       apply st_prep_loop_exec in P; unfold executor_fields in P;
       assert (Y : sys g' = sys g) by congruence; rewrite Y; reflexivity).
  - reflexivity.
Qed.

End Hold.
